(** * LLM-Text-RPG: character progression and combat resolution

    A shallow embedding of the progression/combat core of the game
    (src/bar.js, src/stats.js, src/level.js, src/monster.js, src/player.js,
    src/utils.js and the combat phase of main.js) together with the
    properties its specification states about it.

    Numbers.  JavaScript numbers are modelled by mathematical numbers:
    [Z] where the program keeps integers (ability scores, bar positions,
    experience, levels, damage) and [Q] where it forms fractions (half a
    die, half a constitution score, percentages, the critical multiplier).
    On integers of magnitude below 2^53 and their halves the double
    arithmetic of the program is exact, so both agree there; NaN and the
    infinities are outside the model, except that NaN is a [Js.Value],
    which [Stats.set] can be handed, and that a call which produces or
    stores NaN ([parseInt] of a malformed string, [Stats.set] of NaN)
    ends in the outcome [NaN].

    Mutation.  Objects are records; a method that mutates [this] returns
    the new record, a method that may throw returns a [result], and a
    method that does both returns the outcome and the object. *)

From stdpp Require Import gmap strings list.
From Stdlib Require Import ZArith QArith Qround Qminmax Lia Ascii String Decimal DecimalString.

Local Open Scope Z_scope.

(** ** Outcomes of a call

    [Throw] is a JavaScript exception.  [NaN] marks a call that went on
    with a not-a-number operand ([parseInt] of a malformed string,
    arithmetic on [undefined]); the model does not follow such a run any
    further. *)

Inductive result (A : Type) : Type :=
| Ok (a : A)
| Throw (message : string)
| NaN.
Arguments Ok {A} a.
Arguments Throw {A} message.
Arguments NaN {A}.

Definition is_Ok {A} (r : result A) : bool :=
  match r with Ok _ => true | _ => false end.

#[export] Instance result_ret : MRet result := fun _ a => Ok a.
#[export] Instance result_bind : MBind result := fun _ _ f r =>
  match r with
  | Ok a => f a
  | Throw message => Throw message
  | NaN => NaN
  end.

(** A method that mutates [this] and may throw: the outcome and the
    object as the call leaves it. *)
Definition method (S A : Type) : Type := S -> result A * S.

(** ** JavaScript primitives used by the program *)

Module Js.

Definition Qlt_bool (x y : Q) : bool := negb (Qle_bool y x).

(** Values as [typeof] sees them.  [NotANumber] is the value NaN, whose
    type is number like that of every [Number]. *)
Inductive Value : Type :=
| Number (n : Z)
| NotANumber
| Str (s : string)
| Boolean (b : bool)
| Undefined
| Null.

(** [typeof v]; [typeof null] is "object". *)
Definition typeof (v : Value) : string :=
  match v with
  | Number _ | NotANumber => "number"
  | Str _ => "string"
  | Boolean _ => "boolean"
  | Undefined => "undefined"
  | Null => "object"
  end.

(** [v < n] for a [v] of type number: every comparison with NaN is
    false.  (The program compares values of type number only.) *)
Definition lt (v : Value) (n : Z) : bool :=
  match v with
  | Number x => x <? n
  | _ => false
  end.

(** The text of [v] in a template literal. *)
Definition toString (v : Value) : string :=
  match v with
  | Number n => NilZero.string_of_int (Z.to_int n)
  | NotANumber => "NaN"
  | Str s => s
  | Boolean true => "true"
  | Boolean false => "false"
  | Undefined => "undefined"
  | Null => "null"
  end.

(** [v || d] on a number that may be [undefined]. *)
Definition or (v : option Z) (d : Z) : Z :=
  match v with
  | Some n => if n =? 0 then d else n
  | None => d
  end.

(** [s.split(sep)] for a one-character separator. *)
Fixpoint split (sep : ascii) (s : string) : list string :=
  match s with
  | EmptyString => [EmptyString]
  | String c rest =>
      if Ascii.eqb c sep then EmptyString :: split sep rest
      else match split sep rest with
           | hd :: tl => String c hd :: tl
           | [] => [String c EmptyString]
           end
  end.

Definition isWhiteSpace (c : ascii) : bool :=
  let n := nat_of_ascii c in
  ((9 <=? n)%nat && (n <=? 13)%nat) || (n =? 32)%nat.

Fixpoint trimStart (s : string) : string :=
  match s with
  | String c rest => if isWhiteSpace c then trimStart rest else s
  | EmptyString => s
  end.

Definition digitValue (radix : Z) (c : ascii) : option Z :=
  let n := Z.of_nat (nat_of_ascii c) in
  let v := if (48 <=? n) && (n <=? 57) then Some (n - 48)
           else if (97 <=? n) && (n <=? 122) then Some (n - 87)
           else if (65 <=? n) && (n <=? 90) then Some (n - 55)
           else None in
  match v with
  | Some d => if d <? radix then Some d else None
  | None => None
  end.

(** The longest prefix of radix digits, as a number; [None] if empty. *)
Fixpoint parseDigits (radix : Z) (s : string) (acc : option Z) : option Z :=
  match s with
  | EmptyString => acc
  | String c rest =>
      match digitValue radix c with
      | Some d => parseDigits radix rest (Some (radix * default 0 acc + d))
      | None => acc
      end
  end.

(** [parseInt(s)] without a radix argument. *)
Definition parseInt (s : string) : result Z :=
  let s := trimStart s in
  let '(sign, s) :=
    match s with
    | String "-" rest => (-1, rest)
    | String "+" rest => (1, rest)
    | _ => (1, s)
    end in
  let '(radix, s) :=
    match s with
    | String "0" (String "x" rest) => (16, rest)
    | String "0" (String "X" rest) => (16, rest)
    | _ => (10, s)
    end in
  match parseDigits radix s None with
  | Some n => Ok (sign * n)
  | None => NaN
  end.

(** [parseInt(parts[i])]: an index out of range reads [undefined],
    which [parseInt] converts to the string "undefined". *)
Definition parseInt_at (parts : list string) (i : nat) : result Z :=
  parseInt (default "undefined"%string (parts !! i)).

(** [arr[i]]: an index outside the array reads [undefined]. *)
Definition at_index {A} (arr : list A) (i : Z) : option A :=
  if i <? 0 then None else arr !! Z.to_nat i.

(** [parseInt(s, 10)]: as [parseInt], without the hexadecimal prefix. *)
Definition parseInt10 (s : string) : result Z :=
  let s := trimStart s in
  let '(sign, s) :=
    match s with
    | String "-" rest => (-1, rest)
    | String "+" rest => (1, rest)
    | _ => (1, s)
    end in
  match parseDigits 10 s None with
  | Some n => Ok (sign * n)
  | None => NaN
  end.

Definition parseInt10_at (parts : list string) (i : nat) : result Z :=
  parseInt10 (default "undefined"%string (parts !! i)).

(** [arr.sort((a, b) => a - b)] on numbers: the ascending arrangement. *)
Fixpoint insert_sorted (x : Z) (l : list Z) : list Z :=
  match l with
  | [] => [x]
  | y :: rest => if x <=? y then x :: l else y :: insert_sorted x rest
  end.

Definition sort (l : list Z) : list Z := foldr insert_sorted [] l.

(** [s.trimEnd()] and [s.trim()], on the white space of ASCII. *)
Fixpoint trimEnd (s : string) : string :=
  match s with
  | EmptyString => EmptyString
  | String c rest =>
      match trimEnd rest with
      | EmptyString => if isWhiteSpace c then EmptyString else String c EmptyString
      | kept => String c kept
      end
  end.

Definition trim (s : string) : string := trimEnd (trimStart s).

(** [s.startsWith(p)] *)
Definition startsWith (s p : string) : bool := String.prefix p s.

(** [s.lastIndexOf(p)]: the last position at which [p] occurs in [s],
    or -1.  The last occurrence in [c :: rest] is the last one in [rest],
    moved by one, or else the one at position 0. *)
Fixpoint lastIndexOf_opt (s p : string) : option nat :=
  match s with
  | EmptyString => if String.prefix p EmptyString then Some O else None
  | String _ rest =>
      match lastIndexOf_opt rest p with
      | Some i => Some (S i)
      | None => if String.prefix p s then Some O else None
      end
  end.

Definition lastIndexOf (s p : string) : Z :=
  match lastIndexOf_opt s p with
  | Some i => Z.of_nat i
  | None => -1
  end.

(** [s.substring(start, end)]: both indices are clamped to the string
    and swapped when [start] is the greater. *)
Definition substring (s : string) (start finish : Z) : string :=
  let len := Z.of_nat (String.length s) in
  let a := Z.min (Z.max 0 start) len in
  let b := Z.min (Z.max 0 finish) len in
  String.substring (Z.to_nat (Z.min a b)) (Z.to_nat (Z.max a b - Z.min a b)) s.

End Js.

(** ** src/utils.js *)

Module Utils.

(** The source of [Math.random()]: the sequence of draws and how many
    were taken. *)
Record Rng : Type := mkRng { draws : nat -> Q; taken : nat }.

Definition random (g : Rng) : Q * Rng :=
  (draws g (taken g), {| draws := draws g; taken := S (taken g) |}).

(** Every draw lies in [0,1). *)
Definition uniform (g : Rng) : Prop :=
  forall i, (0 <= draws g i)%Q /\ (draws g i < 1)%Q.

Definition odds (probability : Q) (g : Rng) : bool * Rng :=
  let '(r, g) := random g in (Js.Qlt_bool r probability, g).

Definition calculateStatBonus (statValue : Z) : Z :=
  Qfloor ((inject_Z statValue - 10) / 2)%Q.

(** [getRandomInt(max)] *)
Definition getRandomInt (max : Q) (g : Rng) : Z * Rng :=
  let '(r, g) := random g in (Qfloor (r * (max + 1)), g).

(** [getRandomIntInclusive(min, max)] *)
Definition getRandomIntInclusive (min max : Q) (g : Rng) : Z * Rng :=
  let min := Qceiling min in
  let max := Qfloor max in
  let '(r, g) := random g in
  (Qfloor (r * inject_Z (max - min + 1)) + min, g).

(** [choice(arr)]; [None] is [undefined]. *)
Definition choice {A} (arr : list A) (g : Rng) : option A * Rng :=
  match arr with
  | [] => (None, g)
  | _ =>
      let '(r, g) := random g in
      let randomIndex := Qfloor (r * inject_Z (Z.of_nat (List.length arr))) in
      (Js.at_index arr randomIndex, g)
  end.

(** The [for] loop of [rollDice], [n] iterations left. *)
Fixpoint rollLoop (n : nat) (dieSides : Z) (total : Z) (g : Rng) : Z * Rng :=
  match n with
  | O => (total, g)
  | S n =>
      let '(x, g) := getRandomIntInclusive 1 (inject_Z dieSides) g in
      rollLoop n dieSides (total + x) g
  end.

(** [rollDice(diceNotation)].  A count that is not a number fails the
    loop test at once and the total stays 0; with a positive count and a
    die that is not a number every iteration draws and adds NaN. *)
Definition rollDice (diceNotation : string) (g : Rng) : result Z * Rng :=
  let parts := Js.split "d" diceNotation in
  match Js.parseInt10_at parts 0 with
  | Ok numDice =>
      match Js.parseInt10_at parts 1 with
      | Ok dieSides =>
          let '(total, g) := rollLoop (Z.to_nat numDice) dieSides 0 g in
          (Ok total, g)
      | _ =>
          if 0 <? numDice then
            (NaN, {| draws := draws g;
                     taken := (taken g + Z.to_nat numDice)%nat |})
          else (Ok 0, g)
      end
  | _ => (Ok 0, g)
  end.

End Utils.

(** ** src/config.js *)

(** [StatType] of src/config.js, a file that is not among the sources. *)
Module StatType.
Definition STRENGTH : string := "STR".
Definition DEXTERITY : string := "DEX".
Definition CONSTITUTION : string := "CON".
Definition INTELLIGENCE : string := "INT".
Definition WISDOM : string := "WIS".
Definition CHARISMA : string := "CHA".
(** [StatType.LUCK] is not defined. *)
Definition LUCK : option string := None.
(** Modelled from the spec: the table [StatType] of src/config.js is
    missing.  The specification gives the recognised abilities
    (STRENGTH, DEXTERITY, CONSTITUTION, INTELLIGENCE, WISDOM, CHARISMA,
    with LUCK a pseudo-stat outside the set); the string values above
    are the keys src/monster.js uses for them in the monster data.
    This is [Object.values(StatType)]. *)
Definition values : list string :=
  [STRENGTH; DEXTERITY; CONSTITUTION; INTELLIGENCE; WISDOM; CHARISMA].
End StatType.

(** The numeric constants of src/config.js, whose values the sources at
    hand do not give: every definition below takes them as a parameter. *)
Record GameConstants : Type := mkGameConstants {
  BASE_HIT_CHANCE : Q;
  BASE_EVASION_RATE : Q;
  BASE_CRITICAL_CHANCE : Q;
  CRITICAL_MULTIPLIER : Q
}.

Record PlayerDefaults : Type := mkPlayerDefaults {
  DEFAULT_PLAYER_STATS : gmap string Z;
  DEFAULT_PLAYER_BASE_HP : Z
}.

(** ** src/bar.js *)

Module Bar.

Record t : Type := mk { _max : Z; _position : Z }.

Definition clamp (lo x hi : Z) : Z := Z.min (Z.max lo x) hi.

(** [constructor(max, initialPosition = max)] *)
Definition new (max : Z) (initialPosition : option Z) : result t :=
  if max <=? 0 then
    Throw "The maximum value of a Bar must be greater than 0."
  else
    let initialPosition := default max initialPosition in
    Ok {| _max := max; _position := Z.min (Z.max 0 initialPosition) max |}.

(** [get value()] *)
Definition value (this : t) : Z := _position this.

(** [set value(newPosition)] *)
Definition set_value (this : t) (newPosition : Z) : t :=
  {| _max := _max this;
     _position := Z.min (Z.max 0 newPosition) (_max this) |}.

(** [get max()] *)
Definition max (this : t) : Z := _max this.

(** [set max(newMax)] *)
Definition set_max (newMax : Z) : method t unit := fun this =>
  if newMax <=? 0 then
    (Throw "The maximum value of a Bar must be greater than 0.", this)
  else
    let this := {| _max := newMax; _position := _position this |} in
    let this :=
      if _position this >? _max this
      then {| _max := _max this; _position := _max this |}
      else this in
    (Ok tt, this).

Definition isFull (this : t) : bool := _position this >=? _max this.

Definition isEmpty (this : t) : bool := _position this <=? 0.

(** [get percentage()] *)
Definition percentage (this : t) : Q :=
  (inject_Z (_position this) / inject_Z (_max this) * 100)%Q.

(** [bar.value += delta], the additive adjustment of the callers. *)
Definition adjust (this : t) (delta : Z) : t :=
  set_value this (value this + delta).

(** The invariant of the specification. *)
Definition inv (this : t) : Prop :=
  0 <= _position this <= _max this /\ 0 < _max this.

(** [toJSON()]: the fields [max] and [position] of the serialized form. *)
Definition toJSON (this : t) : Z * Z := (_max this, _position this).

End Bar.

(** ** src/stats.js *)

Module Stats.

Record t : Type := mk { _values : gmap string Z }.

(** [Object.values(StatType).includes(statType)] *)
Definition includes (statType : string) : bool :=
  existsb (String.eqb statType) StatType.values.

(** [constructor(values = {})]: a key missing from [values] reads
    [undefined] and is given the base stat of 10. *)
Definition new (values : gmap string Z) : t :=
  {| _values :=
       foldl (fun acc type => <[type := default 10 (values !! type)]> acc)
             ∅ StatType.values |}.

(** [get(statType)]; [Ok None] is the [undefined] of a missing key. *)
Definition get (this : t) (statType : string) : result (option Z) :=
  if negb (includes statType) then
    if String.eqb statType "LUCK" then Ok (Some 10)
    else Throw ("Invalid stat type: " +:+ statType)
  else Ok (_values this !! statType).

(** [set(statType, value)].  The second guard lets through every value
    of type number that is not below 0, and NaN is one: the code stores
    it.  The store of this model holds integers, so that run is marked
    [NaN], as a call that went on with a not-a-number operand, and is
    not followed. *)
Definition set (statType : string) (value : Js.Value) : method t unit :=
  fun this =>
    if negb (includes statType) then
      (Throw ("Invalid stat type: " +:+ statType), this)
    else if negb (String.eqb (Js.typeof value) "number") || Js.lt value 0 then
      (Throw ("Stat value must be a non-negative number: "
              +:+ Js.toString value), this)
    else
      match value with
      | Js.Number n => (Ok tt, {| _values := <[statType := n]> (_values this) |})
      | _ => (NaN, this)
      end.

(** [getBonus(statType)] *)
Definition getBonus (this : t) (statType : string) : result Z :=
  if negb (includes statType) && negb (String.eqb statType "LUCK") then
    Ok 0
  else
    v ← get this statType;
    match v with
    | Some n => Ok (Utils.calculateStatBonus n)
    | None => NaN
    end.

(** [toJSON()]: the field [values], a copy of the stored map. *)
Definition toJSON (this : t) : gmap string Z := _values this.

(** Exactly the recognised abilities are stored. *)
Definition wf (this : t) : Prop :=
  forall statType,
    is_Some (_values this !! statType) <-> In statType StatType.values.

End Stats.

(** [StatsBuilder] of src/stats.js *)

Module StatsBuilder.

Import Utils.

(** The inner loop of [roll]: [n] more pushes of a six-sided die. *)
Fixpoint rollN (n : nat) (rolls : list Z) (g : Rng) : list Z * Rng :=
  match n with
  | O => (rolls, g)
  | S n =>
      let '(x, g) := getRandomIntInclusive 1 6 g in
      rollN n (rolls ++ [x]) g
  end.

(** One pass of the outer loop: four dice, the lowest dropped. *)
Definition rollStat (g : Rng) : Z * Rng :=
  let '(rolls, g) := rollN 4 [] g in
  let rolls := Js.sort rolls in
  let rolls := tail rolls in
  (foldl Z.add 0 rolls, g).

Definition rollValues (g : Rng) : gmap string Z * Rng :=
  foldl (fun '(rolledValues, g) type =>
           let '(total, g) := rollStat g in
           (<[type := total]> rolledValues, g))
        (∅, g) StatType.values.

(** [roll()] *)
Definition roll (g : Rng) : Stats.t * Rng :=
  let '(rolledValues, g) := rollValues g in
  (Stats.new rolledValues, g).

End StatsBuilder.

(** ** src/level.js *)

Module Level.

Module LEVEL_CONSTANTS.
Definition BASE_EXP_TO_NEXT_LEVEL : Q := 100.
Definition EXP_MULTIPLIER_PER_LEVEL : Q := 3 # 2.
End LEVEL_CONSTANTS.

Record t : Type := mk { value : Z; exp : Z; expToNextLevel : Z }.

Definition calculateExpToNextLevel (this : t) : Z :=
  Qfloor (LEVEL_CONSTANTS.BASE_EXP_TO_NEXT_LEVEL *
          (inject_Z (value this) *
           LEVEL_CONSTANTS.EXP_MULTIPLIER_PER_LEVEL))%Q.

(** [constructor(initialLevel = 1, initialExp = 0)] *)
Definition new (initialLevel initialExp : option Z) : t :=
  let this := {| value := default 1 initialLevel;
                 exp := default 0 initialExp;
                 expToNextLevel := 0 |} in
  {| value := value this; exp := exp this;
     expToNextLevel := calculateExpToNextLevel this |}.

Definition levelUp (this : t) : t :=
  let this := {| value := value this;
                 exp := exp this - expToNextLevel this;
                 expToNextLevel := expToNextLevel this |} in
  let this := {| value := value this + 1;
                 exp := exp this;
                 expToNextLevel := expToNextLevel this |} in
  {| value := value this; exp := exp this;
     expToNextLevel := calculateExpToNextLevel this |}.

(** The [while] loop of [checkAndProcessLevelUp], run for at most
    [fuel] iterations. *)
Fixpoint loop (fuel : nat) (this : t) (leveledUp : bool) : bool * t :=
  if exp this >=? expToNextLevel this then
    match fuel with
    | O => (leveledUp, this)
    | S fuel => loop fuel (levelUp this) true
    end
  else (leveledUp, this).

(** A number of iterations the loop cannot exceed.  A state left by
    [levelUp] has the threshold 150 * level: while the level is below 1
    each iteration raises it, and from level 1 on each iteration lowers
    the experience, which the loop condition keeps positive. *)
Definition settled (this : t) : nat :=
  let m := Z.max 0 (- value this) in
  (Z.to_nat (1 - value this) + Z.to_nat (exp this + 75 * m * (m + 1)))%nat.

(** Any state reaches such a state after one iteration. *)
Definition iterations (this : t) : nat :=
  if exp this >=? expToNextLevel this then S (settled (levelUp this))
  else O.

(** [checkAndProcessLevelUp()]: the loop with fuel that is never used up
    ([loop_unfold] and [loop_spec] below), so the function is total and
    ends in a state that fails the loop condition. *)
Definition checkAndProcessLevelUp (this : t) : bool * t :=
  loop (iterations this) this false.

(** The stored threshold is the one of the stored level. *)
Definition consistent (this : t) : Prop :=
  expToNextLevel this = calculateExpToNextLevel this.

Definition gainExp (this : t) (amount : Z) : bool * t :=
  let this := {| value := value this; exp := exp this + amount;
                 expToNextLevel := expToNextLevel this |} in
  checkAndProcessLevelUp this.

(** The experience gathered since level 1 with none: what is held now
    plus the thresholds 150, 300, ... of the levels already left. *)
Definition totalExp (this : t) : Z :=
  exp this + 75 * value this * (value this - 1).

End Level.

(** ** src/monster.js *)

Module Monster.

(** The argument of the constructor, for data of the shape the
    generation prompt asks for: the name a string (empty when missing),
    [hp] an integer (0 when missing), the stats an object with integer
    entries or absent, the other fields optional.  Parsed replies of
    another shape (an [hp] that is a string, stats that are not an
    object) are outside this record; the constructor tests truthiness
    only and does not reject them. *)
Record Data : Type := mkData {
  d_name : string;
  d_description : option string;
  d_hp : Z;
  d_base_exp : option Z;
  d_drop_chance : option Q;
  d_stats : option (gmap string Z);
  d_special_abilities : option (list string)
}.

Record t : Type := mk {
  name : string;
  description : string;
  baseExp : Z;
  dropChance : Q;
  specialAbilities : list string;
  stats : Stats.t;
  hpBar : Bar.t
}.

(** [constructor(monsterData)] *)
Definition new (monsterData : Data) : result t :=
  match d_stats monsterData with
  | Some dstats =>
      if String.eqb (d_name monsterData) "" || (d_hp monsterData =? 0) then
        Throw "Valid monster data (name, stats, hp) must be provided."
      else
        let description :=
          match d_description monsterData with
          | Some s => if String.eqb s "" then "An ordinary monster."%string else s
          | None => "An ordinary monster."%string
          end in
        let baseExp := Js.or (d_base_exp monsterData) 10 in
        let dropChance :=
          match d_drop_chance monsterData with
          | Some q => if Qeq_bool q 0 then (1 # 2)%Q else q
          | None => (1 # 2)%Q
          end in
        let specialAbilities := default [] (d_special_abilities monsterData) in
        let coreStats := delete "HP"%string dstats in
        let stats := Stats.new coreStats in
        hpBar ← Bar.new (d_hp monsterData) (Some (d_hp monsterData));
        Ok {| name := d_name monsterData; description := description;
              baseExp := baseExp; dropChance := dropChance;
              specialAbilities := specialAbilities;
              stats := stats; hpBar := hpBar |}
  | None => Throw "Valid monster data (name, stats, hp) must be provided."
  end.

Definition maxHp (this : t) : Z := Bar.max (hpBar this).

Definition attackPower (this : t) : result Z :=
  v ← Stats.get (stats this) StatType.STRENGTH;
  Ok (Z.max 1 (Js.or v 5)).

Definition defense (this : t) : result Q :=
  v ← Stats.get (stats this) StatType.CONSTITUTION;
  Ok (Qmax 0 (inject_Z (Js.or v 1) / 2))%Q.

Definition hitChance (K : GameConstants) (this : t) : Q :=
  BASE_HIT_CHANCE K.

Definition evasionRate (K : GameConstants) (this : t) : Q :=
  BASE_EVASION_RATE K.

Definition criticalChance (K : GameConstants) (this : t) : Q :=
  BASE_CRITICAL_CHANCE K.

(** [takeDamage(amount)]: the answer and the monster afterwards. *)
Definition takeDamage (this : t) (amount : Z) : bool * t :=
  let this :=
    {| name := name this; description := description this;
       baseExp := baseExp this; dropChance := dropChance this;
       specialAbilities := specialAbilities this; stats := stats this;
       hpBar := Bar.set_value (hpBar this) (Bar.value (hpBar this) - amount) |} in
  if Bar.isEmpty (hpBar this) then (true, this) else (false, this).

(** The difficulty tier [createLLMMonster] derives from the player's
    level. *)
Record Difficulty : Type := mkDifficulty {
  minHp : Z; maxHp_hint : Z; minStat : Z; maxStat : Z; baseExp_hint : Z
}.

Definition difficulty (playerLevel : Z) : Difficulty :=
  if playerLevel <=? 3 then
    {| minHp := 10; maxHp_hint := 25; minStat := 5; maxStat := 12;
       baseExp_hint := 10 + (playerLevel - 1) * 5 |}
  else if playerLevel <=? 7 then
    {| minHp := 25; maxHp_hint := 50; minStat := 8; maxStat := 15;
       baseExp_hint := 20 + (playerLevel - 3) * 10 |}
  else
    {| minHp := 50; maxHp_hint := 100; minStat := 12; maxStat := 18;
       baseExp_hint := 50 + (playerLevel - 7) * 15 |}.

(** The [hp] the prompt shows as an example. *)
Definition exampleHp (playerLevel : Z) : Z :=
  let t := difficulty playerLevel in
  minHp t + Qfloor (inject_Z (maxHp_hint t - minHp t) / 2).

(** The data of the fallback monster of the [catch] branch. *)
Definition fallbackData (playerLevel : Z) : Data :=
  let t := difficulty playerLevel in
  let stat := 5 + Qfloor (inject_Z playerLevel / 2) in
  {| d_name := "Error Monster";
     d_description :=
       Some "A monster that failed to generate from the LLM. (Default Fallback)"%string;
     d_hp := Z.min (maxHp_hint t) (15 + playerLevel * 2);
     d_base_exp := Some (baseExp_hint t);
     d_drop_chance := Some (3 # 10)%Q;
     d_stats := Some (<["STR"%string := stat]>
                     (<["DEX"%string := stat]>
                     (<["CON"%string := stat]>
                     (<["INT"%string := 5]>
                     (<["WIS"%string := 5]>
                     (<["CHA"%string := 5]> ∅))))));
     d_special_abilities := Some [] |}.


Definition with_hpBar (this : t) (hpBar' : Bar.t) : t :=
  {| name := name this; description := description this;
     baseExp := baseExp this; dropChance := dropChance this;
     specialAbilities := specialAbilities this; stats := stats this;
     hpBar := hpBar' |}.

End Monster.

(** ** src/player.js *)

Module Player.

(** An item record as the item generator returns it. *)
Record Item : Type := mkItem {
  i_name : string;
  i_type : string;
  i_damage : option string;
  i_effect : string
}.

(** The argument of the constructor; [None] is an omitted field. *)
Record Data : Type := mkData {
  d_name : option string;
  d_stats : option (gmap string Z);
  d_hp : option Z;
  d_mp : option Z;
  d_exp : option Z;
  d_level : option Z;
  d_gold : option Z;
  d_inventory : option (list Item);
  d_equippedWeapon : option Item
}.

Record t : Type := mk {
  name : string;
  gold : Z;
  level : Level.t;
  stats : Stats.t;
  hpBar : Bar.t;
  mpBar : Bar.t;
  inventory : list Item;
  equippedWeapon : option Item
}.

Definition WornDagger : Item :=
  {| i_name := "Worn Dagger"; i_type := "Weapon";
     i_damage := Some "1d4"%string; i_effect := "None" |}.

(** [get maxHp()] and [get maxMp()] read the level and the stats only;
    the constructor calls them before the bars exist. *)
Definition maxHp_of (D : PlayerDefaults) (level : Level.t) (stats : Stats.t)
  : result Z :=
  bonus ← Stats.getBonus stats StatType.CONSTITUTION;
  Ok (DEFAULT_PLAYER_BASE_HP D + Level.value level * 5 + bonus * 2).

Definition maxMp_of (level : Level.t) (stats : Stats.t) : result Z :=
  bonus ← Stats.getBonus stats StatType.INTELLIGENCE;
  Ok (10 + Level.value level * 2 + bonus * 1).

Definition maxHp (D : PlayerDefaults) (this : t) : result Z :=
  maxHp_of D (level this) (stats this).

Definition maxMp (this : t) : result Z :=
  maxMp_of (level this) (stats this).

(** [constructor({ name, stats, hp, mp, exp, level, gold, inventory,
    equippedWeapon })] *)
Definition new (D : PlayerDefaults) (data : Data) : result t :=
  let name :=
    match d_name data with
    | Some s => if String.eqb s "" then "Elf Warrior"%string else s
    | None => "Elf Warrior"%string
    end in
  let gold := Js.or (d_gold data) 0 in
  let level := Level.new (Some (Js.or (d_level data) 1))
                         (Some (Js.or (d_exp data) 0)) in
  let stats := Stats.new (default (DEFAULT_PLAYER_STATS D) (d_stats data)) in
  maxHp ← maxHp_of D level stats;
  let initialMaxHp := Js.or (d_hp data) maxHp in
  hpBar ← Bar.new initialMaxHp (Some maxHp);
  maxMp ← maxMp_of level stats;
  let initialMaxMp := Js.or (d_mp data) maxMp in
  mpBar ← Bar.new initialMaxMp (Some maxMp);
  Ok {| name := name; gold := gold; level := level; stats := stats;
        hpBar := hpBar; mpBar := mpBar;
        inventory := default [] (d_inventory data);
        equippedWeapon := Some (default WornDagger (d_equippedWeapon data)) |}.

(** [get attackPower()] *)
Definition attackPower (this : t) : result Z :=
  bonus ← Stats.getBonus (stats this) StatType.STRENGTH;
  let baseAttack : Q := inject_Z (5 + bonus) in
  baseAttack ←
    match equippedWeapon this with
    | Some weapon =>
        match i_damage weapon with
        | Some damage =>
            if String.eqb damage "" then Ok baseAttack
            else
              damageDie ← Js.parseInt_at (Js.split "d" damage) 1;
              Ok (baseAttack + (inject_Z damageDie / 2 + 1))%Q
        | None => Ok baseAttack
        end
    | None => Ok baseAttack
    end;
  Ok (Qfloor (Qmax 1 baseAttack)).

Definition defense (this : t) : result Z :=
  bonus ← Stats.getBonus (stats this) StatType.DEXTERITY;
  Ok (2 + bonus).

Definition hitChance (K : GameConstants) (this : t) : result Q :=
  bonus ← Stats.getBonus (stats this) StatType.DEXTERITY;
  Ok (BASE_HIT_CHANCE K + inject_Z (bonus * 2))%Q.

Definition evasionRate (K : GameConstants) (this : t) : result Q :=
  bonus ← Stats.getBonus (stats this) StatType.DEXTERITY;
  Ok (BASE_EVASION_RATE K + inject_Z (bonus * 1))%Q.

Definition criticalChance (K : GameConstants) (this : t) : result Q :=
  bonus ← Stats.getBonus (stats this)
             (default StatType.DEXTERITY StatType.LUCK);
  Ok (BASE_CRITICAL_CHANCE K + inject_Z bonus * (1 # 2))%Q.

(** [takeDamage(amount)]: the answer and the player afterwards. *)
Definition takeDamage (this : t) (amount : Z) : bool * t :=
  let this :=
    {| name := name this; gold := gold this; level := level this;
       stats := stats this;
       hpBar := Bar.set_value (hpBar this) (Bar.value (hpBar this) - amount);
       mpBar := mpBar this; inventory := inventory this;
       equippedWeapon := equippedWeapon this |} in
  if Bar.isEmpty (hpBar this) then (true, this) else (false, this).

Definition with_hpBar (this : t) (hpBar' : Bar.t) : t :=
  {| name := name this; gold := gold this; level := level this;
     stats := stats this; hpBar := hpBar'; mpBar := mpBar this;
     inventory := inventory this; equippedWeapon := equippedWeapon this |}.

Definition with_mpBar (this : t) (mpBar' : Bar.t) : t :=
  {| name := name this; gold := gold this; level := level this;
     stats := stats this; hpBar := hpBar this; mpBar := mpBar';
     inventory := inventory this; equippedWeapon := equippedWeapon this |}.

Definition with_level (this : t) (level' : Level.t) : t :=
  {| name := name this; gold := gold this; level := level';
     stats := stats this; hpBar := hpBar this; mpBar := mpBar this;
     inventory := inventory this; equippedWeapon := equippedWeapon this |}.

Definition with_gold (this : t) (gold' : Z) : t :=
  {| name := name this; gold := gold'; level := level this;
     stats := stats this; hpBar := hpBar this; mpBar := mpBar this;
     inventory := inventory this; equippedWeapon := equippedWeapon this |}.


(** [levelUp()]: the four assignments in order; an exception of a
    [max] setter leaves the earlier assignments done. *)
Definition levelUp (D : PlayerDefaults) : method t unit := fun this =>
  match maxHp D this with
  | Ok newMaxHp =>
      match Bar.set_max newMaxHp (hpBar this) with
      | (Ok _, bar) =>
          let this := with_hpBar this bar in
          let this :=
            with_hpBar this (Bar.set_value (hpBar this) (Bar.max (hpBar this))) in
          match maxMp this with
          | Ok newMaxMp =>
              match Bar.set_max newMaxMp (mpBar this) with
              | (Ok _, bar) =>
                  let this := with_mpBar this bar in
                  (Ok tt,
                   with_mpBar this
                     (Bar.set_value (mpBar this) (Bar.max (mpBar this))))
              | (Throw message, bar) => (Throw message, with_mpBar this bar)
              | (NaN, bar) => (NaN, with_mpBar this bar)
              end
          | Throw message => (Throw message, this)
          | NaN => (NaN, this)
          end
      | (Throw message, bar) => (Throw message, with_hpBar this bar)
      | (NaN, bar) => (NaN, with_hpBar this bar)
      end
  | Throw message => (Throw message, this)
  | NaN => (NaN, this)
  end.

(** [gainExp(amount)] *)
Definition gainExp (D : PlayerDefaults) (amount : Z) : method t unit :=
  fun this =>
    let '(hasLeveledUp, level') := Level.gainExp (level this) amount in
    let this := with_level this level' in
    if hasLeveledUp then levelUp D this else (Ok tt, this).

End Player.

(** ** main.js: the two attacks of a combat turn *)

Module Main.

Import Utils.

(** What one attack did: the facts the loop logs and acts on.
    [damage] is the amount handed to [takeDamage] (0 when the attack
    missed and [takeDamage] was not called). *)
Record Attack : Type := mkAttack {
  hit : bool;
  critical : bool;
  evaded : bool;
  damage : Z;
  defeated : bool
}.

Definition missed : Attack :=
  {| hit := false; critical := false; evaded := false;
     damage := 0; defeated := false |}.

(** The player's turn. *)
Definition playerTurn (K : GameConstants)
    (player : Player.t) (monster : Monster.t) (g : Rng)
  : result (Attack * Monster.t * Rng) :=
  hitChance ← Player.hitChance K player;
  let '(isHit, g) := odds (hitChance / 100) g in
  if isHit then
    criticalChance ← Player.criticalChance K player;
    let '(isCritical, g) := odds (criticalChance / 100) g in
    damage ← Player.attackPower player;
    let damage :=
      if isCritical
      then Qfloor (inject_Z damage * CRITICAL_MULTIPLIER K)
      else damage in
    defense ← Monster.defense monster;
    let actualDamage := Z.max 1 (damage - Qfloor defense) in
    let '(isDefeated, monster) := Monster.takeDamage monster actualDamage in
    Ok ({| hit := true; critical := isCritical; evaded := false;
           damage := actualDamage; defeated := isDefeated |}, monster, g)
  else Ok (missed, monster, g).

(** The [type] of the action [Monster.chooseAction] returns. *)
Inductive ActionType : Type := attack | defend.

(** The monster's turn; no [Attack] when the action is not an attack. *)
Definition monsterTurn (K : GameConstants) (monsterAction : ActionType)
    (monster : Monster.t) (player : Player.t) (g : Rng)
  : result (option Attack * Player.t * Rng) :=
  match monsterAction with
  | attack =>
      let '(isHit, g) := odds (Monster.hitChance K monster / 100) g in
      if isHit then
        let '(isCritical, g) :=
          odds (Monster.criticalChance K monster / 100) g in
        damage ← Monster.attackPower monster;
        let damage :=
          if isCritical
          then Qfloor (inject_Z damage * CRITICAL_MULTIPLIER K)
          else damage in
        defense ← Player.defense player;
        let actualDamage := Z.max 1 (damage - Qfloor (inject_Z defense)) in
        evasionRate ← Player.evasionRate K player;
        let '(isEvaded, g) := odds (evasionRate / 100) g in
        let actualDamage := if isEvaded then 0 else actualDamage in
        let '(isDefeated, player) := Player.takeDamage player actualDamage in
        Ok (Some {| hit := true; critical := isCritical; evaded := isEvaded;
                    damage := actualDamage; defeated := isDefeated |},
            player, g)
      else Ok (Some missed, player, g)
  | defend => Ok (None, player, g)
  end.

(** The amount both turns compute for a hit before any evasion test:
    the attack power, multiplied and floored on a critical hit, less
    the floor of the defence, and at least 1. *)
Definition mitigated (K : GameConstants)
    (isCritical : bool) (attackPower : Z) (defense : Q) : Z :=
  Z.max 1 ((if isCritical
            then Qfloor (inject_Z attackPower * CRITICAL_MULTIPLIER K)
            else attackPower) - Qfloor defense).

(** How the combat phase of one encounter was left. *)
Inductive Combat : Type :=
| LoopEnded (player : Player.t) (monster : Monster.t) (g : Rng)
| GameOver (player : Player.t) (monster : Monster.t) (g : Rng)
| StillFighting (player : Player.t) (monster : Monster.t) (g : Rng).

(** The [while] loop of the combat phase, for at most [fuel] turns.
    [chooseAction] gives the action the generator picks for the monster
    in each turn.  [LoopEnded] is the exit through the loop test or the
    [break], [GameOver] is [process.exit(0)], [StillFighting] is the
    state after [fuel] full turns. *)
Fixpoint combatPhase (K : GameConstants) (fuel : nat)
    (chooseAction : nat -> ActionType) (turn : nat)
    (player : Player.t) (monster : Monster.t) (g : Rng) : result Combat :=
  if negb (Bar.isEmpty (Player.hpBar player)) &&
     negb (Bar.isEmpty (Monster.hpBar monster)) then
    match fuel with
    | O => Ok (StillFighting player monster g)
    | S fuel =>
        let turn := S turn in
        r ← playerTurn K player monster g;
        let '(_, monster, g) := r in
        if Bar.isEmpty (Monster.hpBar monster) then
          Ok (LoopEnded player monster g)
        else
          r ← monsterTurn K (chooseAction turn) monster player g;
          let '(_, player, g) := r in
          if Bar.isEmpty (Player.hpBar player) then
            Ok (GameOver player monster g)
          else combatPhase K fuel chooseAction turn player monster g
    end
  else Ok (LoopEnded player monster g).

(** The rewards of a won encounter, up to the item drop: experience,
    gold, and both bars restored. *)
Definition rewards (D : PlayerDefaults)
    (player : Player.t) (monster : Monster.t) (g : Rng)
  : result (Player.t * Rng) :=
  match Player.gainExp D (Monster.baseExp monster) player with
  | (Ok _, player) =>
      let '(found, g) := getRandomIntInclusive 5 15 g in
      let player := Player.with_gold player (Player.gold player + found) in
      let player :=
        Player.with_hpBar player
          (Bar.set_value (Player.hpBar player) (Bar.max (Player.hpBar player))) in
      let player :=
        Player.with_mpBar player
          (Bar.set_value (Player.mpBar player) (Bar.max (Player.mpBar player))) in
      Ok (player, g)
  | (Throw message, _) => Throw message
  | (NaN, _) => NaN
  end.

(** The unwrapping of a fenced reply that precedes every [JSON.parse]
    (main.js and twice in src/monster.js). *)
Definition stripCodeFence (llmResponse : string) : string :=
  let jsonString := Js.trim llmResponse in
  if Js.startsWith jsonString "```json" then
    Js.trim (Js.substring jsonString 7 (Js.lastIndexOf jsonString "```"))
  else if Js.startsWith jsonString "```" then
    Js.trim (Js.substring jsonString 3 (Js.lastIndexOf jsonString "```"))
  else jsonString.

(** The fighters after some fighting: nothing but the positions of the
    two HP bars has changed, and neither position has gone up. *)
Definition worn_down (player : Player.t) (monster : Monster.t)
    (player' : Player.t) (monster' : Monster.t) : Prop :=
  (exists hp, 0 <= hp <= Bar.value (Player.hpBar player) /\
     player' = Player.with_hpBar player
                 {| Bar._max := Bar.max (Player.hpBar player);
                    Bar._position := hp |}) /\
  (exists hp, 0 <= hp <= Bar.value (Monster.hpBar monster) /\
     monster' = Monster.with_hpBar monster
                  {| Bar._max := Bar.max (Monster.hpBar monster);
                     Bar._position := hp |}).

End Main.

(** ** Concrete data for the examples *)

Module Examples.

(** A choice of game constants with a critical multiplier above 1. *)
Definition constants : GameConstants :=
  {| BASE_HIT_CHANCE := 100; BASE_EVASION_RATE := 0;
     BASE_CRITICAL_CHANCE := 50; CRITICAL_MULTIPLIER := 2 |}.

(** Constants under which every evasion test succeeds. *)
Definition evasive : GameConstants :=
  {| BASE_HIT_CHANCE := 100; BASE_EVASION_RATE := 100;
     BASE_CRITICAL_CHANCE := 0; CRITICAL_MULTIPLIER := 2 |}.

Definition defaults : PlayerDefaults :=
  {| DEFAULT_PLAYER_STATS := ∅; DEFAULT_PLAYER_BASE_HP := 20 |}.

Definition monsterData (hp : Z) (stats : gmap string Z) : Monster.Data :=
  {| Monster.d_name := "Rat"; Monster.d_description := None;
     Monster.d_hp := hp; Monster.d_base_exp := None;
     Monster.d_drop_chance := None; Monster.d_stats := Some stats;
     Monster.d_special_abilities := None |}.

(** The monster [new Monster({name: "Rat", hp, stats})], as a record. *)
Definition monster (hp : Z) (stats : gmap string Z) : Monster.t :=
  {| Monster.name := "Rat"; Monster.description := "An ordinary monster.";
     Monster.baseExp := 10; Monster.dropChance := 1 # 2;
     Monster.specialAbilities := [];
     Monster.stats := Stats.new stats;
     Monster.hpBar := {| Bar._max := hp; Bar._position := hp |} |}.

Definition playerData (stats : gmap string Z) (weapon : option Player.Item)
  : Player.Data :=
  {| Player.d_name := Some "Arwen"%string; Player.d_stats := Some stats;
     Player.d_hp := None; Player.d_mp := None; Player.d_exp := None;
     Player.d_level := None; Player.d_gold := None;
     Player.d_inventory := None; Player.d_equippedWeapon := weapon |}.

(** A level-1 player with the given stats and weapon slot. *)
Definition player (stats : gmap string Z) (weapon : option Player.Item)
  : Player.t :=
  {| Player.name := "Arwen"; Player.gold := 0;
     Player.level := Level.new None None;
     Player.stats := Stats.new stats;
     Player.hpBar := {| Bar._max := 25; Bar._position := 25 |};
     Player.mpBar := {| Bar._max := 12; Bar._position := 12 |};
     Player.inventory := []; Player.equippedWeapon := weapon |}.

Definition weapon (damage : string) : Player.Item :=
  {| Player.i_name := "Blade"; Player.i_type := "Weapon";
     Player.i_damage := Some damage; Player.i_effect := "None" |}.

(** A source of draws that always returns [r]. *)
Definition always (r : Q) : Utils.Rng :=
  {| Utils.draws := fun _ => r; Utils.taken := 0 |}.

End Examples.

(** * Properties *)

(** ** The example records are what the constructors build *)

Lemma Examples_monster_new :
  Monster.new (Examples.monsterData 10 {[ "STR"%string := 14 ]})
  = Ok (Examples.monster 10 {[ "STR"%string := 14 ]}) /\
  Monster.new (Examples.monsterData 10 ∅) = Ok (Examples.monster 10 ∅).
Proof. split; reflexivity. Qed.

Lemma Examples_player_new (w : Player.Item) :
  Player.new Examples.defaults
             (Examples.playerData {[ "STR"%string := 14 ]} (Some w))
  = Ok (Examples.player {[ "STR"%string := 14 ]} (Some w)) /\
  Player.new Examples.defaults
             (Examples.playerData {[ "STR"%string := 14 ]} None)
  = Ok (Examples.player {[ "STR"%string := 14 ]} (Some Player.WornDagger)).
Proof. split; reflexivity. Qed.

(** ** ResourceBar *)

Section BarProperties.

Implicit Types (b : Bar.t) (v m delta : Z).

Lemma Bar_new_spec max init :
  match Bar.new max init with
  | Ok b => 0 < max /\ Bar.max b = max /\
            Bar.value b = Bar.clamp 0 (default max init) max
  | Throw _ => max <= 0
  | NaN => False
  end.
Proof.
  unfold Bar.new. destruct (Z.leb_spec max 0); simpl; auto.
Qed.

Lemma Bar_set_value_inv b v : Bar.inv b -> Bar.inv (Bar.set_value b v).
Proof. unfold Bar.inv, Bar.set_value; simpl. lia. Qed.

Lemma Bar_set_max_throws b m :
  m <= 0 -> exists msg, Bar.set_max m b = (Throw msg, b).
Proof.
  intros Hm. unfold Bar.set_max.
  destruct (Z.leb_spec m 0); [eauto | lia].
Qed.

Lemma Bar_set_max_ok b m :
  0 < m ->
  Bar.set_max m b =
  (Ok tt, {| Bar._max := m; Bar._position := Z.min (Bar._position b) m |}).
Proof.
  intros Hm. unfold Bar.set_max. simpl.
  destruct (Z.leb_spec m 0); [lia|].
  destruct (Z.gtb_spec (Bar._position b) m); do 2 f_equal; [|destruct b; simpl in *; f_equal]; lia.
Qed.

Lemma Bar_set_max_inv b m : Bar.inv b -> Bar.inv (snd (Bar.set_max m b)).
Proof.
  intros Hb. destruct (Z_le_gt_dec m 0) as [Hm|Hm].
  - destruct (Bar_set_max_throws b m Hm) as [msg ->]. exact Hb.
  - rewrite Bar_set_max_ok by lia. unfold Bar.inv in *; simpl. lia.
Qed.

End BarProperties.

(** C7.  A bar built by the constructor satisfies 0 <= position <= maximum
    and maximum > 0 (the constructor refuses a maximum <= 0), and every
    operation keeps it so: assigning the value clamps any number into
    [0, maximum], so does adding any delta, and reassigning the maximum
    either throws and leaves the bar as it was, or installs the new
    positive maximum and lowers the position to it when it was above. *)
Theorem C7_bar_invariant :
  (forall max init,
      match Bar.new max init with
      | Ok b => 0 < max /\ Bar.inv b
      | Throw _ => max <= 0
      | NaN => False
      end) /\
  (forall b, Bar.inv b ->
     (forall v, Bar.inv (Bar.set_value b v) /\
                Bar.max (Bar.set_value b v) = Bar.max b /\
                Bar.value (Bar.set_value b v) = Bar.clamp 0 v (Bar.max b)) /\
     (forall delta, Bar.inv (Bar.adjust b delta) /\
                Bar.value (Bar.adjust b delta) =
                Bar.clamp 0 (Bar.value b + delta) (Bar.max b)) /\
     (forall m, Bar.inv (snd (Bar.set_max m b)) /\
                (m <= 0 -> snd (Bar.set_max m b) = b /\
                           is_Ok (fst (Bar.set_max m b)) = false) /\
                (0 < m -> fst (Bar.set_max m b) = Ok tt /\
                          Bar.max (snd (Bar.set_max m b)) = m /\
                          Bar.value (snd (Bar.set_max m b)) =
                          Z.min (Bar.value b) m))).
Proof.
  split.
  - intros max init. pose proof (Bar_new_spec max init) as H.
    destruct (Bar.new max init) as [b| |]; auto.
    destruct H as (Hmax & Hm & Hv). split; [exact Hmax|].
    unfold Bar.inv, Bar.max, Bar.value, Bar.clamp in *. lia.
  - intros b Hb. split; [|split].
    + intros v. split; [apply Bar_set_value_inv, Hb | split; reflexivity].
    + intros delta. split; [apply Bar_set_value_inv, Hb | reflexivity].
    + intros m. split; [apply Bar_set_max_inv, Hb | split].
      * intros Hm. destruct (Bar_set_max_throws b m Hm) as [msg ->].
        split; reflexivity.
      * intros Hm. rewrite Bar_set_max_ok by assumption.
        repeat split.
Qed.

Lemma C7_bar_invariant_witness :
  Bar.inv (Bar.mk 10 3) /\
  Bar.value (Bar.adjust (Bar.mk 10 3) (-25)) = 0 /\
  Bar.value (Bar.adjust (Bar.mk 10 3) 25) = 10 /\
  snd (Bar.set_max 2 (Bar.mk 10 3)) = Bar.mk 2 2.
Proof.
  assert (H : Bar.inv (Bar.mk 10 3)) by (unfold Bar.inv; simpl; lia).
  split; [exact H|].
  destruct C7_bar_invariant as [_ Hops].
  destruct (Hops (Bar.mk 10 3) H) as (_ & Hadj & Hmax).
  split; [|split].
  - rewrite (proj2 (Hadj (-25))). reflexivity.
  - rewrite (proj2 (Hadj 25)). reflexivity.
  - reflexivity.
Defined.

(** ** StatBlock *)

Section StatsProperties.

Implicit Types (s : Stats.t) (k : string) (v : Js.Value) (n : Z).

Lemma includes_spec k : Stats.includes k = true <-> In k StatType.values.
Proof.
  unfold Stats.includes. rewrite existsb_exists. split.
  - intros (x & Hx & He). apply String.eqb_eq in He. now subst.
  - intros Hk. exists k. split; [exact Hk | apply String.eqb_refl].
Qed.

Lemma includes_false k : Stats.includes k = false <-> ~ In k StatType.values.
Proof.
  rewrite <- includes_spec. destruct (Stats.includes k); split; congruence.
Qed.

(** The constructor stores exactly the recognised abilities, each with
    the supplied value or 10. *)
Lemma Stats_new_lookup (values : gmap string Z) k :
  Stats._values (Stats.new values) !! k =
  if Stats.includes k then Some (default 10 (values !! k)) else None.
Proof.
  unfold Stats.new, Stats.includes, StatType.values; simpl.
  unfold StatType.STRENGTH, StatType.DEXTERITY, StatType.CONSTITUTION,
    StatType.INTELLIGENCE, StatType.WISDOM, StatType.CHARISMA.
  repeat match goal with
         | |- context [String.eqb k ?x] =>
             destruct (String.eqb_spec k x); [subst k; reflexivity|]
         end.
  simpl. rewrite !lookup_insert_ne by congruence. apply lookup_empty.
Qed.

Lemma Stats_get_recognised s k :
  In k StatType.values -> Stats.get s k = Ok (Stats._values s !! k).
Proof.
  intros Hk. unfold Stats.get. apply includes_spec in Hk. now rewrite Hk.
Qed.

Lemma Stats_set_unrecognised s k v :
  ~ In k StatType.values -> exists msg, Stats.set k v s = (Throw msg, s).
Proof.
  intros Hk. apply includes_false in Hk. unfold Stats.set. rewrite Hk.
  simpl. eauto.
Qed.

Lemma Stats_set_invalid s k v :
  Js.typeof v <> "number"%string \/ (exists n, v = Js.Number n /\ n < 0) ->
  exists msg, Stats.set k v s = (Throw msg, s).
Proof.
  intros Hv. unfold Stats.set.
  destruct (Stats.includes k); cbn [negb]; [|eauto].
  destruct Hv as [Hv | (n & -> & Hn)].
  - destruct v; try (now contradiction Hv); cbn; eauto.
  - cbn [Js.typeof Js.lt String.eqb negb orb].
    change (String.eqb "number" "number") with true. cbn [negb orb].
    destruct (Z.ltb_spec n 0); [eauto | lia].
Qed.

Lemma Stats_set_valid s k n :
  In k StatType.values -> 0 <= n ->
  Stats.set k (Js.Number n) s =
  (Ok tt, {| Stats._values := <[k := n]> (Stats._values s) |}).
Proof.
  intros Hk Hn. apply includes_spec in Hk. unfold Stats.set. rewrite Hk.
  cbn [negb Js.typeof Js.lt].
  change (String.eqb "number" "number") with true. cbn [negb orb].
  destruct (Z.ltb_spec n 0); [lia | reflexivity].
Qed.

Lemma Stats_set_NaN s k :
  In k StatType.values -> Stats.set k Js.NotANumber s = (NaN, s).
Proof.
  intros Hk. apply includes_spec in Hk. unfold Stats.set. now rewrite Hk.
Qed.

End StatsProperties.

(** C9.  [Stats.set] throws for an ability outside the recognised set,
    for a value whose type is not number and for a number below 0, and
    leaves the stored values as they were; for a number that is not
    below 0 it returns normally and overwrites the stored value of that
    ability only.  NaN is of type number and is not below 0: for it the
    method does not throw, although the message of its own guard asks
    for a non-negative number. *)
Theorem C9_stats_set (s : Stats.t) (k : string) (v : Js.Value) :
  (~ In k StatType.values ->
     exists msg, Stats.set k v s = (Throw msg, s)) /\
  (Js.typeof v <> "number"%string ->
     exists msg, Stats.set k v s = (Throw msg, s)) /\
  (forall n, v = Js.Number n -> n < 0 ->
     exists msg, Stats.set k v s = (Throw msg, s)) /\
  (forall n, In k StatType.values -> v = Js.Number n -> 0 <= n ->
     fst (Stats.set k v s) = Ok tt /\
     Stats.get (snd (Stats.set k v s)) k = Ok (Some n) /\
     forall k', k' <> k ->
       Stats.get (snd (Stats.set k v s)) k' = Stats.get s k') /\
  (In k StatType.values -> v = Js.NotANumber ->
     forall msg s', Stats.set k v s <> (Throw msg, s')).
Proof.
  split; [apply Stats_set_unrecognised|].
  split; [intros H; apply Stats_set_invalid; now left|].
  split; [intros n -> Hn; apply Stats_set_invalid; right; eauto|].
  split.
  - intros n Hk -> Hn. rewrite Stats_set_valid by assumption. simpl.
    split; [reflexivity | split].
    + rewrite Stats_get_recognised by assumption. simpl.
      now rewrite lookup_insert_eq.
    + intros k' Hne. unfold Stats.get. simpl.
      now rewrite lookup_insert_ne by congruence.
  - intros Hk -> msg s'. rewrite Stats_set_NaN by exact Hk. discriminate.
Qed.

Lemma C9_stats_set_witness :
  (exists msg, Stats.set "MANA" (Js.Number 12) (Stats.new ∅)
               = (Throw msg, Stats.new ∅)) /\
  (exists msg, Stats.set "STR" (Js.Number (-1)) (Stats.new ∅)
               = (Throw msg, Stats.new ∅)) /\
  (exists msg, Stats.set "STR" (Js.Str "12") (Stats.new ∅)
               = (Throw msg, Stats.new ∅)) /\
  Stats.get (snd (Stats.set "STR" (Js.Number 12) (Stats.new ∅))) "STR"
  = Ok (Some 12) /\
  (forall msg s',
     Stats.set "STR" Js.NotANumber (Stats.new ∅) <> (Throw msg, s')).
Proof.
  split; [|split; [|split; [|split]]].
  - apply (proj1 (C9_stats_set (Stats.new ∅) "MANA" (Js.Number 12))).
    unfold StatType.values; simpl. intros H.
    repeat (destruct H as [H|H]; [discriminate H|]). exact H.
  - apply (proj1 (proj2 (proj2
             (C9_stats_set (Stats.new ∅) "STR" (Js.Number (-1))))) (-1));
      [reflexivity | lia].
  - apply (proj1 (proj2 (C9_stats_set (Stats.new ∅) "STR" (Js.Str "12")))).
    discriminate.
  - apply (proj1 (proj2 (proj2 (proj2
             (C9_stats_set (Stats.new ∅) "STR" (Js.Number 12))))) 12).
    + left. reflexivity.
    + reflexivity.
    + lia.
  - apply (proj2 (proj2 (proj2 (proj2
             (C9_stats_set (Stats.new ∅) "STR" Js.NotANumber))))).
    + left. reflexivity.
    + reflexivity.
Defined.

(** ** ProgressionTrack *)

Section LevelProperties.

Implicit Types (s : Level.t) (b : bool) (n k : nat).

Lemma calculateExpToNextLevel_eq s :
  Level.calculateExpToNextLevel s = 150 * Level.value s.
Proof.
  unfold Level.calculateExpToNextLevel,
    Level.LEVEL_CONSTANTS.BASE_EXP_TO_NEXT_LEVEL,
    Level.LEVEL_CONSTANTS.EXP_MULTIPLIER_PER_LEVEL.
  unfold Qfloor, Qmult, inject_Z; simpl.
  replace (100 * (Level.value s * 3)) with ((150 * Level.value s) * 2) by lia.
  apply Z.div_mul. lia.
Qed.

Lemma levelUp_eq s :
  Level.levelUp s =
  {| Level.value := Level.value s + 1;
     Level.exp := Level.exp s - Level.expToNextLevel s;
     Level.expToNextLevel := 150 * (Level.value s + 1) |}.
Proof.
  unfold Level.levelUp. f_equal. apply calculateExpToNextLevel_eq.
Qed.

Lemma Level_consistent_new l e : Level.consistent (Level.new l e).
Proof. reflexivity. Qed.

Lemma Level_consistent_levelUp s : Level.consistent (Level.levelUp s).
Proof. reflexivity. Qed.

Lemma settled_decreases s :
  Level.consistent s -> Level.exp s >= Level.expToNextLevel s ->
  (Level.settled (Level.levelUp s) < Level.settled s)%nat.
Proof.
  unfold Level.consistent. rewrite calculateExpToNextLevel_eq, levelUp_eq.
  unfold Level.settled; simpl. destruct s as [l e t]; simpl.
  intros -> He.
  destruct (Z_le_gt_dec l (-1)) as [Hl|Hl].
  - rewrite (Z.max_r 0 (- l)), (Z.max_r 0 (- (l + 1))) by lia.
    replace (e - 150 * l + 75 * - (l + 1) * (- (l + 1) + 1))
      with (e + 75 * - l * (- l + 1)) by ring.
    lia.
  - destruct (Z.eq_dec l 0) as [->|Hl0].
    + simpl. rewrite !Z.add_0_r, Z.sub_0_r. lia.
    + rewrite (Z.max_l 0 (- l)), (Z.max_l 0 (- (l + 1))) by lia.
      rewrite !Z.mul_0_r, !Z.mul_0_l, !Z.add_0_r. lia.
Qed.

Lemma iterations_le_settled s :
  Level.consistent s -> (Level.iterations s <= Level.settled s)%nat.
Proof.
  intros Hs. unfold Level.iterations.
  destruct (Z.geb_spec (Level.exp s) (Level.expToNextLevel s)) as [He|He].
  - apply settled_decreases; [exact Hs | lia].
  - lia.
Qed.

Lemma iterations_step s :
  Level.exp s >= Level.expToNextLevel s ->
  (Level.iterations (Level.levelUp s) < Level.iterations s)%nat.
Proof.
  intros He. unfold Level.iterations at 2.
  destruct (Z.geb_spec (Level.exp s) (Level.expToNextLevel s)); [|lia].
  pose proof (iterations_le_settled _ (Level_consistent_levelUp s)). lia.
Qed.

(** Fuel beyond [iterations] changes nothing. *)
Lemma loop_enough n : forall m s b,
  (Level.iterations s <= n)%nat -> (Level.iterations s <= m)%nat ->
  Level.loop n s b = Level.loop m s b.
Proof.
  induction n as [|n IH]; intros m s b Hn Hm.
  - destruct m as [|m]; [reflexivity|]. simpl.
    destruct (Z.geb_spec (Level.exp s) (Level.expToNextLevel s)) as [He|He];
      [|reflexivity].
    apply Z.le_ge, iterations_step in He. lia.
  - simpl.
    destruct (Z.geb_spec (Level.exp s) (Level.expToNextLevel s)) as [He|He].
    + pose proof (iterations_step s (Z.le_ge _ _ He)) as Hstep.
      destruct m as [|m]; [lia|]. simpl.
      destruct (Z.geb_spec (Level.exp s) (Level.expToNextLevel s)); [|lia].
      apply IH; lia.
    + destruct m; simpl;
        destruct (Z.geb_spec (Level.exp s) (Level.expToNextLevel s));
        (reflexivity || lia).
Qed.

(** The equation of the [while] loop: the total function is its
    solution on every state. *)
Lemma loop_unfold s b :
  Level.loop (Level.iterations s) s b =
  if Level.exp s >=? Level.expToNextLevel s
  then Level.loop (Level.iterations (Level.levelUp s)) (Level.levelUp s) true
  else (b, s).
Proof.
  destruct (Z.geb_spec (Level.exp s) (Level.expToNextLevel s)) as [He|He].
  - pose proof (iterations_step s (Z.le_ge _ _ He)) as Hstep.
    destruct (Level.iterations s) as [|n] eqn:Hn; [lia|]. simpl.
    destruct (Z.geb_spec (Level.exp s) (Level.expToNextLevel s)); [|lia].
    apply loop_enough; lia.
  - destruct (Level.iterations s); simpl;
      destruct (Z.geb_spec (Level.exp s) (Level.expToNextLevel s));
      (reflexivity || lia).
Qed.

(** What the loop computes: [k] level-ups, each taken because the
    threshold was reached, stopping at the first state below it. *)
Lemma loop_spec n : forall s b,
  (Level.iterations s <= n)%nat ->
  exists k,
    Level.loop n s b = (b || negb (Nat.eqb k 0), Nat.iter k Level.levelUp s) /\
    (forall j, (j < k)%nat ->
       Level.exp (Nat.iter j Level.levelUp s) >=
       Level.expToNextLevel (Nat.iter j Level.levelUp s)) /\
    Level.exp (Nat.iter k Level.levelUp s) <
    Level.expToNextLevel (Nat.iter k Level.levelUp s).
Proof.
  induction n as [|n IH]; intros s b Hn; simpl;
    destruct (Z.geb_spec (Level.exp s) (Level.expToNextLevel s)) as [He|He].
  - apply Z.le_ge, iterations_step in He. lia.
  - exists O. simpl. rewrite orb_false_r. repeat split; [lia | lia].
  - pose proof (iterations_step s (Z.le_ge _ _ He)) as Hstep.
    destruct (IH (Level.levelUp s) true) as (k & Hk & Hbefore & Hafter); [lia|].
    exists (S k). split; [|split].
    + rewrite Hk, Nat.iter_succ_r. simpl. now rewrite orb_true_r.
    + intros [|j] Hj; [simpl; lia|].
      rewrite Nat.iter_succ_r. apply Hbefore. lia.
    + rewrite Nat.iter_succ_r. exact Hafter.
  - exists O. simpl. rewrite orb_false_r. repeat split; [lia | lia].
Qed.

Lemma iter_levelUp_value k s :
  Level.value (Nat.iter k Level.levelUp s) = Level.value s + Z.of_nat k.
Proof.
  induction k as [|k IH]; [simpl; lia|].
  rewrite Nat.iter_succ, levelUp_eq; simpl. lia.
Qed.

End LevelProperties.

Ltac case_geb :=
  match goal with
  | |- context [?a >=? ?b] => destruct (Z.geb_spec a b)
  end.

Section GainExp.

Variables (s : Level.t) (amount : Z).

(** The state the loop starts from: [this.exp += amount]. *)
Let s0 : Level.t :=
  {| Level.value := Level.value s; Level.exp := Level.exp s + amount;
     Level.expToNextLevel := Level.expToNextLevel s |}.

Lemma gainExp_spec :
  exists k,
    Level.gainExp s amount = (negb (Nat.eqb k 0), Nat.iter k Level.levelUp s0) /\
    (forall j, (j < k)%nat ->
       Level.exp (Nat.iter j Level.levelUp s0) >=
       Level.expToNextLevel (Nat.iter j Level.levelUp s0)) /\
    Level.exp (Nat.iter k Level.levelUp s0) <
    Level.expToNextLevel (Nat.iter k Level.levelUp s0).
Proof.
  destruct (loop_spec (Level.iterations s0) s0 false (Nat.le_refl _))
    as (k & Hk & H). exists k. split; [exact Hk | exact H].
Qed.

Lemma gainExp_unfold :
  Level.gainExp s amount =
  if Level.exp s + amount >=? Level.expToNextLevel s
  then Level.loop (Level.iterations (Level.levelUp s0)) (Level.levelUp s0) true
  else (false, s0).
Proof. exact (loop_unfold s0 false). Qed.

Lemma gainExp_levels_gained :
  1 <= Level.value s ->
  forall k, Level.gainExp s amount
            = (negb (Nat.eqb k 0), Nat.iter k Level.levelUp s0) ->
  (forall j, (j < k)%nat ->
       Level.exp (Nat.iter j Level.levelUp s0) >=
       Level.expToNextLevel (Nat.iter j Level.levelUp s0)) ->
  Level.exp (Nat.iter k Level.levelUp s0) <
    Level.expToNextLevel (Nat.iter k Level.levelUp s0) ->
  ((2 <= k)%nat <->
   Level.exp s + amount >=
   Level.expToNextLevel s + 150 * (Level.value s + 1)).
Proof.
  intros Hs k _ Hbefore Hafter. split.
  - intros Hk. pose proof (Hbefore 0%nat ltac:(lia)) as H0.
    pose proof (Hbefore 1%nat ltac:(lia)) as H1.
    change (Nat.iter 1 Level.levelUp s0) with (Level.levelUp s0) in H1.
    rewrite levelUp_eq in H1. unfold s0 in H0, H1. simpl in H0, H1. lia.
  - intros He. destruct k as [|[|k]]; [| |lia]; exfalso.
    + unfold s0 in Hafter. simpl in Hafter. lia.
    + change (Nat.iter 1 Level.levelUp s0) with (Level.levelUp s0) in Hafter.
      rewrite levelUp_eq in Hafter. unfold s0 in Hafter. simpl in Hafter. lia.
Qed.

End GainExp.

(** C5 (as amended).  For a non-negative amount, [gainExp] adds the amount
    to the accumulated experience and then levels up while the
    accumulated experience is at least the threshold; each level-up
    subtracts the threshold, adds 1 to the level and recomputes the
    threshold as floor(100 * level * 1.5).  It returns whether at least
    one level-up occurred.  From zero accumulated experience at a level
    >= 1, gaining exactly the threshold gives exactly one level-up and
    leaves 0; gaining 2 * threshold + 1 gives exactly one level-up as well
    and leaves threshold + 1, because the second threshold is larger: two
    or more level-ups occur exactly when the accumulated experience
    reaches the sum of the thresholds of this level and of the next. *)
Theorem C5_gainExp (s : Level.t) (amount : Z) (Hamount : 0 <= amount) :
  let s0 := {| Level.value := Level.value s;
               Level.exp := Level.exp s + amount;
               Level.expToNextLevel := Level.expToNextLevel s |} in
  let r := Level.gainExp s amount in
  (exists k : nat,
      r = (negb (Nat.eqb k 0), Nat.iter k Level.levelUp s0) /\
      Level.value (snd r) = Level.value s + Z.of_nat k /\
      (forall j, (j < k)%nat ->
         Level.exp (Nat.iter j Level.levelUp s0) >=
         Level.expToNextLevel (Nat.iter j Level.levelUp s0)) /\
      Level.exp (snd r) < Level.expToNextLevel (snd r) /\
      (1 <= Level.value s ->
       ((2 <= k)%nat <->
        Level.exp s + amount >=
        Level.expToNextLevel s + 150 * (Level.value s + 1)))) /\
  (forall s1,
      Level.levelUp s1 =
      {| Level.value := Level.value s1 + 1;
         Level.exp := Level.exp s1 - Level.expToNextLevel s1;
         Level.expToNextLevel :=
           Qfloor (100 * (inject_Z (Level.value s1 + 1) * (3 # 2)))%Q |}) /\
  (fst r = true <-> Level.value s < Level.value (snd r)) /\
  (1 <= Level.value s -> Level.consistent s -> Level.exp s = 0 ->
   (amount = Level.expToNextLevel s ->
    r = (true, {| Level.value := Level.value s + 1; Level.exp := 0;
                  Level.expToNextLevel := 150 * (Level.value s + 1) |})) /\
   (amount = 2 * Level.expToNextLevel s + 1 ->
    r = (true, {| Level.value := Level.value s + 1;
                  Level.exp := Level.expToNextLevel s + 1;
                  Level.expToNextLevel := 150 * (Level.value s + 1) |}))).
Proof.
  intros s0 r.
  destruct (gainExp_spec s amount) as (k & Hk & Hbefore & Hafter).
  fold s0 in Hk, Hbefore, Hafter. fold r in Hk.
  assert (Hval : Level.value (snd r) = Level.value s + Z.of_nat k).
  { rewrite Hk. simpl. now rewrite iter_levelUp_value. }
  split; [|split; [|split]].
  - exists k. split; [exact Hk|]. split; [exact Hval|].
    split; [exact Hbefore|]. split; [now rewrite Hk|].
    intros Hs. apply (gainExp_levels_gained s amount Hs k); assumption.
  - intros s1. reflexivity.
  - rewrite Hval, Hk. simpl. destruct k; simpl; split; (lia || congruence).
  - intros Hl Hs He.
    unfold Level.consistent in Hs. rewrite calculateExpToNextLevel_eq in Hs.
    split; intros ->; subst r; rewrite gainExp_unfold, He;
      (case_geb; [|lia]);
      rewrite loop_unfold, levelUp_eq; simpl;
      (case_geb; [lia|]);
      do 2 f_equal; lia.
Qed.

Lemma C5_gainExp_witness :
  Level.gainExp (Level.new None None) 150
  = (true, {| Level.value := 2; Level.exp := 0; Level.expToNextLevel := 300 |}).
Proof.
  assert (Hamount : 0 <= 150) by lia.
  destruct (C5_gainExp (Level.new None None) 150 Hamount) as (_ & _ & _ & H).
  apply H; [simpl; lia | reflexivity | reflexivity | reflexivity].
Defined.

(** C5, the sentence as the specification has it, fails: at level 1 with
    no experience the threshold is 150, and gaining 2 * 150 + 1 = 301
    levels up once only (to level 2, whose threshold is 300 > 151). *)
Lemma C5_counterexample :
  let s := Level.new None None in
  let r := Level.gainExp s (2 * Level.expToNextLevel s + 1) in
  ~ (Level.value s + 2 <= Level.value (snd r)) /\
  r = (true, {| Level.value := 2; Level.exp := 151;
                Level.expToNextLevel := 300 |}).
Proof.
  split; [vm_compute; intros H; apply H; reflexivity | reflexivity].
Qed.

(** C6.  From a state at level >= 1 whose accumulated experience is below
    the threshold, [gainExp] with a non-negative amount ends in a state
    whose accumulated experience is again strictly below its threshold,
    that threshold being the one of the level reached. *)
Theorem C6_exp_below_threshold (s : Level.t) (amount : Z) :
  1 <= Level.value s ->
  Level.exp s < Level.expToNextLevel s ->
  0 <= amount ->
  let s' := snd (Level.gainExp s amount) in
  Level.exp s' < Level.expToNextLevel s' /\
  1 <= Level.value s' /\
  (Level.consistent s -> Level.consistent s').
Proof.
  intros Hl He Ha s'.
  destruct (gainExp_spec s amount) as (k & Hk & _ & Hafter).
  subst s'. rewrite Hk. simpl. split; [exact Hafter|]. split.
  - rewrite iter_levelUp_value. simpl. lia.
  - intros Hs. destruct k as [|k]; [exact Hs|].
    rewrite Nat.iter_succ. apply Level_consistent_levelUp.
Qed.

Lemma C6_exp_below_threshold_witness :
  let s' := snd (Level.gainExp (Level.mk 2 120 300) 700) in
  Level.exp s' < Level.expToNextLevel s' /\
  1 <= Level.value s' /\
  (Level.consistent (Level.mk 2 120 300) -> Level.consistent s').
Proof.
  apply (C6_exp_below_threshold (Level.mk 2 120 300) 700); simpl; lia.
Defined.

(** ** Monster *)

Section MonsterProperties.

Implicit Types (m : Monster.t) (data : Monster.Data) (st : gmap string Z).

Lemma Monster_new_inv data m :
  Monster.new data = Ok m ->
  exists st,
    Monster.d_stats data = Some st /\
    Monster.stats m = Stats.new (delete "HP"%string st) /\
    Monster.hpBar m = {| Bar._max := Monster.d_hp data;
                         Bar._position := Monster.d_hp data |} /\
    0 < Monster.d_hp data.
Proof.
  unfold Monster.new. destruct (Monster.d_stats data) as [st|]; [|discriminate].
  destruct (_ || _); [discriminate|].
  pose proof (Bar_new_spec (Monster.d_hp data) (Some (Monster.d_hp data))) as Hb.
  destruct (Bar.new _ _) as [b| |]; simpl; try discriminate.
  intros [= <-]; simpl. exists st.
  destruct Hb as (Hhp & Hmax & Hval). repeat split; [|exact Hhp].
  destruct b as [bm bp]. unfold Bar.max, Bar.value, Bar.clamp in *.
  simpl in *. f_equal; lia.
Qed.

Lemma Monster_new_get data m st k :
  Monster.new data = Ok m -> Monster.d_stats data = Some st ->
  In k StatType.values ->
  Stats.get (Monster.stats m) k = Ok (Some (default 10 (st !! k))).
Proof.
  intros Hnew Hst Hk.
  destruct (Monster_new_inv _ _ Hnew) as (st' & Hst' & Hstats & _).
  rewrite Hst in Hst'. injection Hst' as <-.
  rewrite Stats_get_recognised, Hstats, Stats_new_lookup by exact Hk.
  rewrite (proj2 (includes_spec k) Hk).
  rewrite lookup_delete_ne; [reflexivity|].
  intros <-. revert Hk. unfold StatType.values; simpl.
  intros H. repeat (destruct H as [H|H]; [discriminate H|]). exact H.
Qed.

Lemma Monster_attackPower_get m v :
  Stats.get (Monster.stats m) StatType.STRENGTH = Ok v ->
  Monster.attackPower m = Ok (Z.max 1 (Js.or v 5)).
Proof. unfold Monster.attackPower. now intros ->. Qed.

Lemma Monster_defense_get m v :
  Stats.get (Monster.stats m) StatType.CONSTITUTION = Ok v ->
  Monster.defense m = Ok (Qmax 0 (inject_Z (Js.or v 1) / 2)).
Proof. unfold Monster.defense. now intros ->. Qed.

Lemma Monster_takeDamage_spec m amount :
  Monster.takeDamage m amount =
  (Bar.isEmpty (Bar.adjust (Monster.hpBar m) (- amount)),
   {| Monster.name := Monster.name m;
      Monster.description := Monster.description m;
      Monster.baseExp := Monster.baseExp m;
      Monster.dropChance := Monster.dropChance m;
      Monster.specialAbilities := Monster.specialAbilities m;
      Monster.stats := Monster.stats m;
      Monster.hpBar := Bar.adjust (Monster.hpBar m) (- amount) |}).
Proof.
  unfold Monster.takeDamage, Bar.adjust. simpl.
  rewrite Z.add_opp_r. now destruct (Bar.isEmpty _).
Qed.

End MonsterProperties.

(** C1 (as amended).  The attack power of a monster is max(1, v), where v
    is the raw STR value of its StatBlock (not the bonus derived from
    it), with 5 in place of v when the value is 0 or undefined.  It is a
    function of the StatBlock as it currently is.  A monster built from
    data that does not give STR has STR 10, hence attack power 10. *)
Theorem C1_monster_attackPower (m : Monster.t) :
  (forall v, Stats.get (Monster.stats m) StatType.STRENGTH = Ok (Some v) ->
     Monster.attackPower m = Ok (Z.max 1 (if v =? 0 then 5 else v))) /\
  (Stats.get (Monster.stats m) StatType.STRENGTH = Ok None ->
     Monster.attackPower m = Ok 5) /\
  (forall data st,
     Monster.new data = Ok m -> Monster.d_stats data = Some st ->
     Stats.get (Monster.stats m) StatType.STRENGTH
     = Ok (Some (default 10 (st !! StatType.STRENGTH))) /\
     (st !! StatType.STRENGTH = None -> Monster.attackPower m = Ok 10)).
Proof.
  split; [|split].
  - intros v Hv. now rewrite (Monster_attackPower_get m _ Hv).
  - intros Hv. now rewrite (Monster_attackPower_get m _ Hv).
  - intros data st Hnew Hst.
    assert (Hget := Monster_new_get data m st StatType.STRENGTH Hnew Hst
                      ltac:(left; reflexivity)).
    split; [exact Hget|]. intros Hnone.
    rewrite (Monster_attackPower_get m _ Hget), Hnone. reflexivity.
Qed.

Lemma C1_monster_attackPower_witness :
  Monster.attackPower (Examples.monster 10 {[ "STR"%string := 14 ]}) = Ok 14 /\
  Monster.attackPower (Examples.monster 10 ∅) = Ok 10.
Proof.
  split.
  - apply (proj1 (C1_monster_attackPower
                    (Examples.monster 10 {[ "STR"%string := 14 ]})) 14).
    reflexivity.
  - apply (proj2 (proj2 (C1_monster_attackPower (Examples.monster 10 ∅)))
             (Examples.monsterData 10 ∅) ∅); reflexivity.
Defined.

(** C1, the sentence as the specification has it, fails: a monster with
    STR 14 has attack power 14, not max(1, bonus(14)) = 2, and a monster
    whose data gives no STR has attack power 10, not 5. *)
Lemma C1_counterexample :
  ~ (forall data m st,
       Monster.new data = Ok m -> Monster.d_stats data = Some st ->
       Monster.attackPower m =
       Ok (match st !! StatType.STRENGTH with
           | Some v => Z.max 1 (Utils.calculateStatBonus v)
           | None => 5
           end)).
Proof.
  intros H.
  specialize (H (Examples.monsterData 10 {[ "STR"%string := 14 ]})
                (Examples.monster 10 {[ "STR"%string := 14 ]})
                {[ "STR"%string := 14 ]} eq_refl eq_refl).
  vm_compute in H. discriminate H.
Qed.

(** C8 (as amended).  A monster whose HP bar is at 3/10 and takes 5 damage
    has its position clamped to 0, [isEmpty()] is true and [takeDamage]
    returns true.  The answer of [takeDamage] is the state of the bar,
    not an event: every further call with a non-negative amount, while
    the bar is at 0, leaves the monster as it is and returns true
    again. *)
Theorem C8_monster_defeat (m : Monster.t) :
  (Monster.hpBar m = {| Bar._max := 10; Bar._position := 3 |} ->
   let r := Monster.takeDamage m 5 in
   fst r = true /\
   Monster.hpBar (snd r) = {| Bar._max := 10; Bar._position := 0 |} /\
   Bar.isEmpty (Monster.hpBar (snd r)) = true) /\
  (forall amount,
     Bar.inv (Monster.hpBar m) -> Bar.value (Monster.hpBar m) = 0 ->
     0 <= amount ->
     Monster.takeDamage m amount = (true, m)).
Proof.
  split.
  - intros Hbar r. subst r. rewrite Monster_takeDamage_spec. simpl.
    rewrite Hbar. repeat split.
  - intros amount Hinv Hzero Hamount. rewrite Monster_takeDamage_spec.
    destruct m as [n d e dc sa st [bm bp]].
    unfold Bar.inv, Bar.value, Bar.adjust, Bar.set_value, Bar.isEmpty in *.
    simpl in *. subst bp.
    replace (Z.min (Z.max 0 (0 + - amount)) bm) with 0 by lia.
    reflexivity.
Qed.

Lemma C8_monster_defeat_witness :
  let m := snd (Monster.takeDamage (Examples.monster 10 ∅) 7) in
  Monster.hpBar m = {| Bar._max := 10; Bar._position := 3 |} /\
  fst (Monster.takeDamage m 5) = true /\
  Monster.takeDamage (snd (Monster.takeDamage m 5)) 5
  = (true, snd (Monster.takeDamage m 5)).
Proof.
  intros m. split; [reflexivity|]. split.
  - apply (proj1 (C8_monster_defeat m)). reflexivity.
  - apply (proj2 (C8_monster_defeat (snd (Monster.takeDamage m 5))) 5).
    + unfold Bar.inv; simpl; lia.
    + reflexivity.
    + lia.
Defined.

(** C8, the sentence as the specification has it, fails: after the blow
    that empties the bar, a redundant [takeDamage] at 0 returns true a
    second time, so the defeat signal is not given exactly once. *)
Lemma C8_counterexample :
  let m := snd (Monster.takeDamage (Examples.monster 10 ∅) 7) in
  let first := Monster.takeDamage m 5 in
  let second := Monster.takeDamage (snd first) 5 in
  Monster.hpBar m = {| Bar._max := 10; Bar._position := 3 |} /\
  Bar.value (Monster.hpBar (snd first)) = 0 /\
  ~ (fst first = true /\ fst second = false).
Proof.
  split; [reflexivity | split; [reflexivity|]].
  intros [_ H]. vm_compute in H. discriminate H.
Qed.

(** ** Numbers and strings *)

Section NumberFacts.

Lemma Qfloor_frac (a : Z) (d : positive) : Qfloor (a # d) = a / Z.pos d.
Proof. reflexivity. Qed.

Lemma Qfloor_eq (x : Q) (a : Z) (d : positive) :
  (x == a # d)%Q -> Qfloor x = a / Z.pos d.
Proof. intros H. now rewrite (Qfloor_comp _ _ H). Qed.

Lemma Qfloor_inject_Z (a : Z) : Qfloor (inject_Z a) = a.
Proof. unfold Qfloor, inject_Z. apply Z.div_1_r. Qed.

Lemma Qfloor_max1 (x : Q) : Qfloor (Qmax 1 x) = Z.max 1 (Qfloor x).
Proof.
  destruct (Qlt_le_dec x 1) as [Hx|Hx].
  - rewrite (Qfloor_comp _ _ (Q.max_l 1 x (Qlt_le_weak _ _ Hx))).
    apply Qlt_le_weak, Qfloor_resp_le in Hx.
    change (Qfloor 1) with 1 in *. lia.
  - rewrite (Qfloor_comp _ _ (Q.max_r 1 x Hx)).
    apply Qfloor_resp_le in Hx. change (Qfloor 1) with 1 in Hx. lia.
Qed.

Lemma calculateStatBonus_eq (v : Z) :
  Utils.calculateStatBonus v = (v - 10) / 2.
Proof.
  unfold Utils.calculateStatBonus.
  apply (Qfloor_eq _ (v - 10) 2). unfold Qeq; simpl. lia.
Qed.

End NumberFacts.

Section DiceNotation.

Import NilEmpty.

Implicit Types (n m : Decimal.uint).

Lemma split_uint m : Js.split "d" (string_of_uint m) = [string_of_uint m].
Proof. induction m; simpl; [reflexivity | rewrite IHm; reflexivity ..]. Qed.

Lemma split_uint_d n (rest : string) :
  Js.split "d" (string_of_uint n +:+ String "d" rest)
  = string_of_uint n :: Js.split "d" rest.
Proof. induction n; simpl; [reflexivity | rewrite IHn; reflexivity ..]. Qed.

(** The parts of "NdM". *)
Lemma split_dice n m :
  Js.split "d" (string_of_uint n +:+ "d" +:+ string_of_uint m)
  = [string_of_uint n; string_of_uint m].
Proof.
  change ("d" +:+ string_of_uint m) with (String "d" (string_of_uint m)).
  now rewrite split_uint_d, split_uint.
Qed.

Lemma parseDigits_uint_pos m : forall acc : positive,
  Js.parseDigits 10 (string_of_uint m) (Some (Z.pos acc))
  = Some (Z.pos (Pos.of_uint_acc m acc)).
Proof.
  induction m; intros acc; simpl; [reflexivity | ..];
    rewrite <- IHm; do 2 f_equal;
    match goal with
    | |- context [Z.of_nat ?x] =>
        let v := eval vm_compute in (Z.of_nat x) in
        change (Z.of_nat x) with v
    end; lia.
Qed.

Lemma parseDigits_uint_zero m :
  Js.parseDigits 10 (string_of_uint m) (Some 0)
  = Some (Z.of_N (N.of_uint m)).
Proof.
  induction m; simpl; [reflexivity | exact IHm | apply parseDigits_uint_pos ..].
Qed.

Lemma parseDigits_uint m :
  m <> Decimal.Nil ->
  Js.parseDigits 10 (string_of_uint m) None = Some (Z.of_N (N.of_uint m)).
Proof.
  destruct m; intros Hm; simpl;
    [congruence | apply parseDigits_uint_zero | apply parseDigits_uint_pos ..].
Qed.

Lemma parseInt_uint_unfold m :
  m <> Decimal.Nil ->
  Js.parseInt (string_of_uint m) =
  match Js.parseDigits 10 (string_of_uint m) None with
  | Some n => Ok (1 * n)
  | None => NaN
  end.
Proof.
  destruct m as [|m|m|m|m|m|m|m|m|m|m]; intros Hm;
    [congruence | destruct m; reflexivity | reflexivity ..].
Qed.

(** [parseInt] reads a decimal numeral as the number it denotes. *)
Lemma parseInt_uint m :
  m <> Decimal.Nil ->
  Js.parseInt (string_of_uint m) = Ok (Z.of_N (N.of_uint m)).
Proof.
  intros Hm. rewrite parseInt_uint_unfold, parseDigits_uint by exact Hm.
  f_equal. apply Z.mul_1_l.
Qed.

(** The die-side count the player reads off "NdM". *)
Lemma parseInt_dice n m :
  m <> Decimal.Nil ->
  Js.parseInt_at
    (Js.split "d" (string_of_uint n +:+ "d" +:+ string_of_uint m)) 1
  = Ok (Z.of_N (N.of_uint m)).
Proof.
  intros Hm. rewrite split_dice. unfold Js.parseInt_at. simpl.
  now apply parseInt_uint.
Qed.

End DiceNotation.

(** ** Player *)

Section PlayerProperties.

Import NilEmpty.

Implicit Types (p : Player.t) (w : Player.Item) (v : Z).

Lemma getBonus_get (s : Stats.t) (k : string) v :
  In k StatType.values -> Stats.get s k = Ok (Some v) ->
  Stats.getBonus s k = Ok (Utils.calculateStatBonus v).
Proof.
  intros Hk Hv. unfold Stats.getBonus.
  rewrite (proj2 (includes_spec k) Hk), Hv. reflexivity.
Qed.

Lemma dice_not_empty (n m : Decimal.uint) :
  String.eqb (string_of_uint n +:+ "d" +:+ string_of_uint m) "" = false.
Proof. destruct n; reflexivity. Qed.

Lemma Player_attackPower_unarmed p v :
  Stats.get (Player.stats p) StatType.STRENGTH = Ok (Some v) ->
  (Player.equippedWeapon p = None \/
   exists w, Player.equippedWeapon p = Some w /\
             (Player.i_damage w = None \/ Player.i_damage w = Some ""%string)) ->
  Player.attackPower p
  = Ok (Qfloor (Qmax 1 (inject_Z (5 + Utils.calculateStatBonus v)))).
Proof.
  intros Hv Hw. unfold Player.attackPower.
  rewrite (getBonus_get _ _ v) by (exact Hv || (left; reflexivity)). simpl.
  destruct Hw as [-> | (w & -> & [-> | ->])]; reflexivity.
Qed.

Lemma Player_attackPower_armed p v w (n m : Decimal.uint) :
  Stats.get (Player.stats p) StatType.STRENGTH = Ok (Some v) ->
  Player.equippedWeapon p = Some w ->
  Player.i_damage w = Some (string_of_uint n +:+ "d" +:+ string_of_uint m) ->
  m <> Decimal.Nil ->
  Player.attackPower p
  = Ok (Qfloor (Qmax 1 (inject_Z (5 + Utils.calculateStatBonus v) +
                        (inject_Z (Z.of_N (N.of_uint m)) / 2 + 1)))).
Proof.
  intros Hv Hw Hd Hm. unfold Player.attackPower.
  rewrite (getBonus_get _ _ v) by (exact Hv || (left; reflexivity)). simpl.
  rewrite Hw, Hd, dice_not_empty, parseInt_dice by exact Hm. reflexivity.
Qed.

Lemma attack_formula_armed (b d : Z) :
  Qfloor (Qmax 1 (inject_Z (5 + b) + (inject_Z d / 2 + 1)))
  = Z.max 1 (6 + b + d / 2) /\
  Qfloor (Qmax 1 (inject_Z 5 + inject_Z b + inject_Z d / 2 + 1))
  = Z.max 1 (6 + b + d / 2).
Proof.
  rewrite !Qfloor_max1. split; f_equal.
  - rewrite (Qfloor_eq _ (2 * (6 + b) + d) 2).
    + rewrite Z.mul_comm, Z.div_add_l by lia. reflexivity.
    + unfold Qeq; simpl. lia.
  - rewrite (Qfloor_eq _ (2 * (6 + b) + d) 2).
    + rewrite Z.mul_comm, Z.div_add_l by lia. reflexivity.
    + unfold Qeq; simpl. lia.
Qed.

Lemma attack_formula_unarmed (b : Z) :
  Qfloor (Qmax 1 (inject_Z (5 + b))) = Z.max 1 (5 + b) /\
  Qfloor (Qmax 1 (inject_Z 5 + inject_Z b)) = Z.max 1 (5 + b).
Proof.
  rewrite !Qfloor_max1. split; f_equal.
  - apply Qfloor_inject_Z.
  - rewrite (Qfloor_eq _ (5 + b) 1); [apply Z.div_1_r|].
    unfold Qeq; simpl. lia.
Qed.

End PlayerProperties.

(** C3 (as amended).  For a player whose equipped weapon carries a damage
    notation "NdM", the attack power is
    floor(max(1, 5 + bonus(STR) + M/2 + 1)), M being the die-side count
    parsed from the notation.  When no weapon is equipped, or the weapon
    has no damage notation, the whole weapon term, its + 1 included, is
    left out and the attack power is floor(max(1, 5 + bonus(STR))).  A
    player with STR 14 has attack power 8 with a die of 0 sides ("1d0")
    and 7 with no weapon. *)
Theorem C3_player_attackPower (p : Player.t) (v : Z) :
  Stats.get (Player.stats p) StatType.STRENGTH = Ok (Some v) ->
  let bonus := Utils.calculateStatBonus v in
  (forall w n m,
     Player.equippedWeapon p = Some w ->
     Player.i_damage w =
       Some (NilEmpty.string_of_uint n +:+ "d" +:+ NilEmpty.string_of_uint m) ->
     m <> Decimal.Nil ->
     let d := Z.of_N (N.of_uint m) in
     Player.attackPower p
     = Ok (Qfloor (Qmax 1 (inject_Z 5 + inject_Z bonus + inject_Z d / 2 + 1))) /\
     Player.attackPower p = Ok (Z.max 1 (6 + bonus + d / 2))) /\
  ((Player.equippedWeapon p = None \/
    exists w, Player.equippedWeapon p = Some w /\
              (Player.i_damage w = None \/ Player.i_damage w = Some ""%string)) ->
   Player.attackPower p = Ok (Qfloor (Qmax 1 (inject_Z 5 + inject_Z bonus))) /\
   Player.attackPower p = Ok (Z.max 1 (5 + bonus))) /\
  (v = 14 ->
   (forall w, Player.equippedWeapon p = Some w ->
              Player.i_damage w = Some "1d0"%string ->
              Player.attackPower p = Ok 8) /\
   (Player.equippedWeapon p = None -> Player.attackPower p = Ok 7)).
Proof.
  intros Hv bonus. split; [|split].
  - intros w n m Hw Hd Hm d.
    rewrite (Player_attackPower_armed p v w n m Hv Hw Hd Hm).
    fold bonus d. destruct (attack_formula_armed bonus d) as [-> ->].
    split; reflexivity.
  - intros Hw. rewrite (Player_attackPower_unarmed p v Hv Hw).
    fold bonus. destruct (attack_formula_unarmed bonus) as [-> ->].
    split; reflexivity.
  - intros ->. split.
    + intros w Hw Hd.
      rewrite (Player_attackPower_armed p 14 w (D1 Nil) (D0 Nil) Hv Hw Hd);
        [reflexivity | discriminate].
    + intros Hw. rewrite (Player_attackPower_unarmed p 14 Hv (or_introl Hw)).
      reflexivity.
Qed.

Lemma C3_player_attackPower_witness :
  Player.attackPower
    (Examples.player {[ "STR"%string := 14 ]} (Some (Examples.weapon "2d8")))
  = Ok 12 /\
  Player.attackPower
    (Examples.player {[ "STR"%string := 14 ]} (Some (Examples.weapon "1d0")))
  = Ok 8 /\
  Player.attackPower (Examples.player {[ "STR"%string := 14 ]} None) = Ok 7.
Proof.
  assert (Hstr : forall w,
             Stats.get (Player.stats
                          (Examples.player {[ "STR"%string := 14 ]} w))
                       StatType.STRENGTH = Ok (Some 14))
    by (intros w; reflexivity).
  split; [|split].
  - apply (proj1 (C3_player_attackPower _ 14 (Hstr _))
             (Examples.weapon "2d8") (D2 Nil) (D8 Nil));
      [reflexivity | reflexivity | discriminate].
  - apply (proj1 (proj2 (proj2 (C3_player_attackPower _ 14 (Hstr _))) eq_refl)
             (Examples.weapon "1d0")); reflexivity.
  - apply (proj2 (proj2 (proj2 (C3_player_attackPower _ 14 (Hstr _))) eq_refl)).
    reflexivity.
Defined.

(** C3, the sentence as the specification has it, fails: with no weapon
    equipped the die-side count is not taken as 0 in the formula; the
    term d/2 + 1 is skipped altogether, so a player with STR 14 and no
    weapon has attack power 7, not floor(max(1, 5 + 2 + 0/2 + 1)) = 8. *)
Lemma C3_counterexample :
  ~ (forall p v,
       Stats.get (Player.stats p) StatType.STRENGTH = Ok (Some v) ->
       Player.equippedWeapon p = None ->
       Player.attackPower p
       = Ok (Qfloor (Qmax 1 (inject_Z 5 + inject_Z (Utils.calculateStatBonus v)
                             + inject_Z 0 / 2 + 1)))).
Proof.
  intros H.
  specialize (H (Examples.player {[ "STR"%string := 14 ]} None) 14).
  assert (Habs : Ok 7 = Ok 8) by (apply H; reflexivity).
  discriminate Habs.
Qed.

(** ** CombatResolver *)

(** Runs the binds of [result] and the destructuring lets. *)
Ltac exec := cbv beta iota zeta delta [mbind result_bind].

Section CombatProperties.

Import Utils.

Variable K : GameConstants.

Implicit Types (p : Player.t) (m : Monster.t) (g : Rng) (att : Main.Attack).

Lemma odds_eq (probability : Q) g :
  odds probability g =
  (Js.Qlt_bool (draws g (taken g)) probability,
   {| draws := draws g; taken := S (taken g) |}).
Proof. reflexivity. Qed.



Lemma playerTurn_eq p m g (h c d : Q) (ap : Z) :
  Player.hitChance K p = Ok h ->
  Player.criticalChance K p = Ok c ->
  Player.attackPower p = Ok ap ->
  Monster.defense m = Ok d ->
  Main.playerTurn K p m g =
  if Js.Qlt_bool (draws g (taken g)) (h / 100) then
    let isCritical := Js.Qlt_bool (draws g (S (taken g))) (c / 100) in
    let dmg := Main.mitigated K isCritical ap d in
    Ok ({| Main.hit := true; Main.critical := isCritical;
           Main.evaded := false; Main.damage := dmg;
           Main.defeated := fst (Monster.takeDamage m dmg) |},
        snd (Monster.takeDamage m dmg),
        {| draws := draws g; taken := S (S (taken g)) |})
  else Ok (Main.missed, m, {| draws := draws g; taken := S (taken g) |}).
Proof.
  intros Hh Hc Hap Hd. unfold Main.playerTurn, Main.mitigated, odds, random.
  rewrite Hh, Hc, Hap, Hd. exec.
  destruct (Js.Qlt_bool _ (h / 100)); [|reflexivity].
  now destruct (Monster.takeDamage m _).
Qed.

(** Whatever the player's turn returns, it was computed this way. *)
Lemma playerTurn_inv p m g att m' g' :
  Main.playerTurn K p m g = Ok (att, m', g') ->
  exists h, Player.hitChance K p = Ok h /\
  if Js.Qlt_bool (draws g (taken g)) (h / 100) then
    exists c ap d,
      Player.criticalChance K p = Ok c /\
      Player.attackPower p = Ok ap /\
      Monster.defense m = Ok d /\
      let isCritical := Js.Qlt_bool (draws g (S (taken g))) (c / 100) in
      let dmg := Main.mitigated K isCritical ap d in
      att = {| Main.hit := true; Main.critical := isCritical;
               Main.evaded := false; Main.damage := dmg;
               Main.defeated := fst (Monster.takeDamage m dmg) |} /\
      m' = snd (Monster.takeDamage m dmg) /\
      g' = {| draws := draws g; taken := S (S (taken g)) |}
  else att = Main.missed /\ m' = m /\
       g' = {| draws := draws g; taken := S (taken g) |}.
Proof.
  unfold Main.playerTurn, odds, random.
  destruct (Player.hitChance K p) as [h| |]; exec; try discriminate.
  intros H. exists h. split; [reflexivity|].
  destruct (Js.Qlt_bool (draws g (taken g)) (h / 100)).
  - destruct (Player.criticalChance K p) as [c| |]; try discriminate H.
    destruct (Player.attackPower p) as [ap| |]; try discriminate H.
    destruct (Monster.defense m) as [d| |]; try discriminate H.
    exists c, ap, d. fold (Main.mitigated K) in H.
    destruct (Monster.takeDamage m _) as [isDefeated m1].
    injection H as <- <- <-. repeat split.
  - injection H as <- <- <-. repeat split.
Qed.

Lemma monsterTurn_eq m p g (e : Q) (ap pdef : Z) :
  Monster.attackPower m = Ok ap ->
  Player.defense p = Ok pdef ->
  Player.evasionRate K p = Ok e ->
  Main.monsterTurn K Main.attack m p g =
  if Js.Qlt_bool (draws g (taken g)) (Monster.hitChance K m / 100) then
    let isCritical :=
      Js.Qlt_bool (draws g (S (taken g))) (Monster.criticalChance K m / 100) in
    let isEvaded := Js.Qlt_bool (draws g (S (S (taken g)))) (e / 100) in
    let dmg := if isEvaded then 0
               else Main.mitigated K isCritical ap (inject_Z pdef) in
    Ok (Some {| Main.hit := true; Main.critical := isCritical;
                Main.evaded := isEvaded; Main.damage := dmg;
                Main.defeated := fst (Player.takeDamage p dmg) |},
        snd (Player.takeDamage p dmg),
        {| draws := draws g; taken := S (S (S (taken g))) |})
  else Ok (Some Main.missed, p,
           {| draws := draws g; taken := S (taken g) |}).
Proof.
  intros Hap Hd He. unfold Main.monsterTurn, Main.mitigated, odds, random.
  rewrite Hap, Hd, He. exec.
  destruct (Js.Qlt_bool _ (Monster.hitChance K m / 100)); [|reflexivity].
  now destruct (Player.takeDamage p _).
Qed.

Lemma mitigated_min isCritical ap d : 1 <= Main.mitigated K isCritical ap d.
Proof. unfold Main.mitigated. lia. Qed.

End CombatProperties.

(** C10.  The monster's derived attributes apply JavaScript's [||] to the
    raw stat value, and 0 is falsy: with STR 0 the attack power is 5 (not
    max(1, 0) = 1), with CON 0 the defence is max(0, 1/2) = 1/2 (not 0).
    For a CON value c other than 0 the defence is max(0, c/2), which is
    not an integer when c is odd and positive.  Mitigation floors it: a
    hit of the player hands the monster exactly
    max(1, raw - max(0, floor(c / 2))), where raw is the player's attack
    power, multiplied and floored on a critical hit. *)
Theorem C10_monster_falsy_defaults (m : Monster.t) :
  (Stats.get (Monster.stats m) StatType.STRENGTH = Ok (Some 0) ->
     Monster.attackPower m = Ok 5) /\
  (Stats.get (Monster.stats m) StatType.CONSTITUTION = Ok (Some 0) ->
     Monster.defense m = Ok (1 # 2)%Q) /\
  (forall c, c <> 0 ->
     Stats.get (Monster.stats m) StatType.CONSTITUTION = Ok (Some c) ->
     exists d, Monster.defense m = Ok d /\
               (d == Qmax 0 (inject_Z c / 2))%Q /\
               (0 < c -> Z.odd c = true ->
                ~ (d == inject_Z (Qfloor d))%Q /\ Qfloor d = c / 2)) /\
  (forall K p g c h cc ap,
     Stats.get (Monster.stats m) StatType.CONSTITUTION = Ok (Some c) ->
     Player.hitChance K p = Ok h ->
     Player.criticalChance K p = Ok cc ->
     Player.attackPower p = Ok ap ->
     Js.Qlt_bool (Utils.draws g (Utils.taken g)) (h / 100) = true ->
     exists att m' g',
       Main.playerTurn K p m g = Ok (att, m', g') /\
       Main.hit att = true /\
       Main.critical att
       = Js.Qlt_bool (Utils.draws g (S (Utils.taken g))) (cc / 100) /\
       Main.damage att
       = Z.max 1 ((if Main.critical att
                   then Qfloor (inject_Z ap * CRITICAL_MULTIPLIER K)
                   else ap) - Z.max 0 (c / 2)) /\
       m' = snd (Monster.takeDamage m (Main.damage att))).
Proof.
  split; [|split; [|split]].
  - intros Hv. now rewrite (Monster_attackPower_get m _ Hv).
  - intros Hv. now rewrite (Monster_defense_get m _ Hv).
  - intros c Hc Hv. rewrite (Monster_defense_get m _ Hv).
    eexists. split; [reflexivity|]. simpl.
    destruct (Z.eqb_spec c 0) as [|_]; [contradiction|].
    split; [reflexivity|]. intros Hpos Hodd.
    assert (Hd : (Qmax 0 (inject_Z c / 2) == c # 2)%Q).
    { rewrite Q.max_r; [unfold Qeq; simpl; lia|]. unfold Qle; simpl. lia. }
    rewrite (Qfloor_eq _ c 2 Hd). split; [|reflexivity].
    rewrite Hd. unfold Qeq; simpl.
    apply Z.odd_spec in Hodd. destruct Hodd as [k ->].
    replace (2 * k + 1) with (1 + k * 2) by lia.
    rewrite Z.div_add by lia. simpl (1 / 2). lia.
  - intros K p g c h cc ap Hv Hh Hcc Hap Hhit.
    assert (Hfloor : Qfloor (Qmax 0 (inject_Z (Js.or (Some c) 1) / 2))
                     = Z.max 0 (c / 2)).
    { cbn [Js.or]. destruct (Z.eqb_spec c 0) as [->|Hc]; [reflexivity|].
      destruct (Z_lt_le_dec c 0) as [Hneg|Hpos].
      - assert (E : (Qmax 0 (inject_Z c / 2) == 0 # 1)%Q).
        { rewrite Q.max_l; [reflexivity|]. unfold Qle; simpl. lia. }
        rewrite (Qfloor_eq _ 0 1 E).
        pose proof (Z.div_lt_upper_bound c 2 0 ltac:(lia) ltac:(lia)).
        rewrite Z.div_0_l by lia. lia.
      - assert (E : (Qmax 0 (inject_Z c / 2) == c # 2)%Q).
        { rewrite Q.max_r; [unfold Qeq; simpl; lia|].
          unfold Qle; simpl. lia. }
        rewrite (Qfloor_eq _ c 2 E).
        pose proof (Z.div_pos c 2 Hpos ltac:(lia)). lia. }
    rewrite (playerTurn_eq K p m g h cc _ ap Hh Hcc Hap
               (Monster_defense_get m _ Hv)), Hhit.
    cbv zeta. eexists _, _, _. split; [reflexivity|].
    cbn [Main.hit Main.critical Main.damage].
    split; [reflexivity|]. split; [reflexivity|].
    unfold Main.mitigated. rewrite Hfloor. split; reflexivity.
Qed.

Lemma C10_monster_falsy_defaults_witness :
  Monster.attackPower (Examples.monster 10 {[ "STR"%string := 0 ]}) = Ok 5 /\
  Monster.defense (Examples.monster 10 {[ "CON"%string := 0 ]})
  = Ok (1 # 2)%Q /\
  (exists d, Monster.defense (Examples.monster 10 {[ "CON"%string := 5 ]})
             = Ok d /\ Qfloor d = 2) /\
  (exists att m' g',
     Main.playerTurn Examples.constants
       (Examples.player {[ "STR"%string := 14 ]} (Some Player.WornDagger))
       (Examples.monster 10 {[ "CON"%string := 5 ]})
       (Examples.always (3 # 4)) = Ok (att, m', g') /\
     Main.damage att = 8).
Proof.
  split; [|split; [|split]].
  - apply (proj1 (C10_monster_falsy_defaults _)). reflexivity.
  - apply (proj1 (proj2 (C10_monster_falsy_defaults _))). reflexivity.
  - destruct (proj1 (proj2 (proj2 (C10_monster_falsy_defaults
                (Examples.monster 10 {[ "CON"%string := 5 ]}))))
              5 ltac:(discriminate) ltac:(reflexivity))
      as (d & Hd & _ & Hfrac).
    exists d. split; [exact Hd|].
    apply (proj2 (Hfrac ltac:(reflexivity) ltac:(reflexivity))).
  - set (m := Examples.monster 10 {[ "CON"%string := 5 ]}).
    set (p := Examples.player {[ "STR"%string := 14 ]} (Some Player.WornDagger)).
    assert (Hv : Stats.get (Monster.stats m) StatType.CONSTITUTION
                 = Ok (Some 5)) by reflexivity.
    assert (Hh : Player.hitChance Examples.constants p = Ok (100 + inject_Z (0 * 2))%Q)
      by reflexivity.
    assert (Hcc : Player.criticalChance Examples.constants p
                  = Ok (50 + inject_Z 0 * (1 # 2))%Q) by reflexivity.
    assert (Hap : Player.attackPower p = Ok 10) by reflexivity.
    destruct (proj2 (proj2 (proj2 (C10_monster_falsy_defaults m)))
                Examples.constants p (Examples.always (3 # 4)) 5 _ _ 10
                Hv Hh Hcc Hap eq_refl)
      as (att & m' & g' & Hturn & _ & Hcrit & Hdmg & _).
    exists att, m', g'. split; [exact Hturn|].
    rewrite Hdmg, Hcrit. reflexivity.
Defined.

(** C2.  The player's attack on the monster contains no evasion test:
    whenever it hits, the damage handed to the monster is at least 1, the
    attack is never recorded as evaded, and exactly two draws (hit and
    critical) were taken, whatever the monster's evasion rate.  The
    monster's attack on the player, in the same situation, does test the
    player's evasion rate with a third draw and hands over 0 damage when
    the test succeeds. *)
Theorem C2_player_attack_skips_evasion
    (K : GameConstants) (p : Player.t) (m : Monster.t) (g : Utils.Rng)
    (att : Main.Attack) (m' : Monster.t) (g' : Utils.Rng) :
  Main.playerTurn K p m g = Ok (att, m', g') ->
  Main.hit att = true ->
  Main.evaded att = false /\
  1 <= Main.damage att /\
  Utils.taken g' = S (S (Utils.taken g)) /\
  (forall e ap pdef,
     Monster.attackPower m = Ok ap ->
     Player.defense p = Ok pdef ->
     Player.evasionRate K p = Ok e ->
     Js.Qlt_bool (Utils.draws g (Utils.taken g))
                 (Monster.hitChance K m / 100) = true ->
     Js.Qlt_bool (Utils.draws g (S (S (Utils.taken g)))) (e / 100) = true ->
     exists att' p',
       Main.monsterTurn K Main.attack m p g
       = Ok (Some att', p',
             {| Utils.draws := Utils.draws g;
                Utils.taken := S (S (S (Utils.taken g))) |}) /\
       Main.evaded att' = true /\ Main.damage att' = 0).
Proof.
  intros Hturn Hhit.
  destruct (playerTurn_inv K p m g att m' g' Hturn) as (h & _ & H).
  destruct (Js.Qlt_bool _ (h / 100)).
  - destruct H as (c & ap & d & _ & _ & _ & -> & _ & ->).
    cbn [Main.evaded Main.damage Utils.taken].
    split; [reflexivity|]. split; [apply mitigated_min|].
    split; [reflexivity|].
    intros e map pdef Hap Hd He Hmhit Hev.
    rewrite (monsterTurn_eq K m p g e map pdef Hap Hd He), Hmhit. simpl.
    rewrite Hev. eauto.
  - destruct H as (-> & _). discriminate Hhit.
Qed.

Lemma C2_player_attack_skips_evasion_witness :
  let p := Examples.player {[ "STR"%string := 14 ]} (Some Player.WornDagger) in
  let m := Examples.monster 10 ∅ in
  let g := Examples.always 0 in
  (Monster.evasionRate Examples.evasive m == 100)%Q /\
  (exists att m' g',
      Main.playerTurn Examples.evasive p m g = Ok (att, m', g') /\
      Main.evaded att = false /\ 1 <= Main.damage att) /\
  (exists att p' g',
      Main.monsterTurn Examples.evasive Main.attack m p g
      = Ok (Some att, p', g') /\
      Main.evaded att = true /\ Main.damage att = 0).
Proof.
  intros p m g. split; [reflexivity|].
  assert (Hturn : Main.playerTurn Examples.evasive p m g
                  = Ok ({| Main.hit := true; Main.critical := false;
                           Main.evaded := false; Main.damage := 5;
                           Main.defeated := false |},
                        snd (Monster.takeDamage m 5),
                        {| Utils.draws := Utils.draws g; Utils.taken := 2 |}))
    by reflexivity.
  pose proof (C2_player_attack_skips_evasion _ _ _ _ _ _ _ Hturn eq_refl)
    as (Hev & Hdmg & _ & Hmirror).
  split.
  - eexists _, _, _. split; [exact Hturn|]. split; [exact Hev | exact Hdmg].
  - destruct (Hmirror 100%Q 10 2) as (att' & p' & Hm & Hev' & Hzero);
      try reflexivity.
    exists att', p'. eexists. split; [exact Hm|]. split; assumption.
Defined.




(** * Further properties of the code *)

(** ** Random helpers of src/utils.js *)

Section RandomProperties.

Import Utils.

Implicit Types (g : Rng) (r : Q).

Lemma uniform_draw g : uniform g -> (0 <= fst (random g))%Q /\ (fst (random g) < 1)%Q.
Proof. intros Hg. exact (Hg (taken g)). Qed.

Lemma uniform_same g g' : draws g' = draws g -> uniform g -> uniform g'.
Proof. intros Hd Hg i. rewrite Hd. apply Hg. Qed.

(** floor(r * n) for a draw r in [0,1) and a positive integer n. *)
Lemma floor_scaled r (n : Z) :
  (0 <= r)%Q -> (r < 1)%Q -> 0 < n ->
  0 <= Qfloor (r * inject_Z n) < n.
Proof.
  intros H0 H1 Hn. split.
  - change 0 with (Qfloor 0). apply Qfloor_resp_le.
    apply Qmult_le_0_compat; [exact H0|].
    change (inject_Z 0 <= inject_Z n)%Q. rewrite <- Zle_Qle. lia.
  - rewrite Zlt_Qlt. eapply Qle_lt_trans; [apply Qfloor_le|].
    assert (H : (r * inject_Z n < 1 * inject_Z n)%Q).
    { apply Qmult_lt_compat_r; [|exact H1].
      change (inject_Z 0 < inject_Z n)%Q. rewrite <- Zlt_Qlt. exact Hn. }
    now rewrite Qmult_1_l in H.
Qed.

Lemma getRandomIntInclusive_eq (min max : Q) g :
  getRandomIntInclusive min max g =
  (Qfloor (draws g (taken g) * inject_Z (Qfloor max - Qceiling min + 1))
   + Qceiling min,
   {| draws := draws g; taken := S (taken g) |}).
Proof. reflexivity. Qed.

Lemma getRandomIntInclusive_range (min max : Q) g :
  uniform g ->
  Qceiling min <= Qfloor max ->
  let r := getRandomIntInclusive min max g in
  Qceiling min <= fst r <= Qfloor max /\
  (min <= inject_Z (fst r))%Q /\ (inject_Z (fst r) <= max)%Q /\
  draws (snd r) = draws g /\ taken (snd r) = S (taken g).
Proof.
  intros Hg Hle r. subst r. rewrite getRandomIntInclusive_eq.
  cbn [fst snd draws taken].
  destruct (Hg (taken g)) as [H0 H1].
  pose proof (floor_scaled _ (Qfloor max - Qceiling min + 1) H0 H1 ltac:(lia))
    as Hf.
  split; [lia|]. split; [|split; [|split; reflexivity]].
  - eapply Qle_trans; [apply Qle_ceiling|]. rewrite <- Zle_Qle. lia.
  - eapply Qle_trans; [|apply Qfloor_le]. rewrite <- Zle_Qle. lia.
Qed.

(** A die of [d] >= 1 sides shows 1 .. d. *)
Lemma die_range (d : Z) g :
  uniform g -> 1 <= d ->
  let r := getRandomIntInclusive 1 (inject_Z d) g in
  1 <= fst r <= d /\ draws (snd r) = draws g /\ taken (snd r) = S (taken g).
Proof.
  intros Hg Hd r.
  destruct (getRandomIntInclusive_range 1 (inject_Z d) g Hg) as (H & _ & _ & H');
    [rewrite Qfloor_inject_Z; exact Hd|].
  rewrite Qfloor_inject_Z in H. split; [exact H | exact H'].
Qed.

Lemma rollLoop_spec (n : nat) : forall (d total : Z) g,
  uniform g -> 1 <= d ->
  let r := rollLoop n d total g in
  total + Z.of_nat n <= fst r <= total + Z.of_nat n * d /\
  draws (snd r) = draws g /\ taken (snd r) = (taken g + n)%nat.
Proof.
  induction n as [|n IH]; intros d total g Hg Hd; cbn [rollLoop].
  - cbn [fst snd]. repeat split; lia.
  - pose proof (die_range d g Hg Hd) as (Hx & Hdraws & Htaken).
    destruct (getRandomIntInclusive 1 (inject_Z d) g) as [x g1].
    cbn [fst snd] in *.
    destruct (IH d (total + x) g1 (uniform_same g g1 Hdraws Hg) Hd)
      as (Ht & Hd' & Ht').
    split; [nia|]. split; [congruence | lia].
Qed.

End RandomProperties.

(** X1.  [getRandomIntInclusive(min, max)] takes one draw and, when an
    integer lies between the bounds, returns an integer between
    ceil(min) and floor(max), hence between [min] and [max]. *)
Theorem getRandomIntInclusive_bounds (min max : Q) (g : Utils.Rng) :
  Utils.uniform g ->
  Qceiling min <= Qfloor max ->
  let '(x, g') := Utils.getRandomIntInclusive min max g in
  Qceiling min <= x <= Qfloor max /\
  (min <= inject_Z x)%Q /\ (inject_Z x <= max)%Q /\
  Utils.draws g' = Utils.draws g /\ Utils.taken g' = S (Utils.taken g).
Proof.
  intros Hg Hle.
  pose proof (getRandomIntInclusive_range min max g Hg Hle) as H.
  rewrite getRandomIntInclusive_eq in *. exact H.
Qed.

Lemma getRandomIntInclusive_bounds_witness :
  let '(x, g') := Utils.getRandomIntInclusive 5 15 (Examples.always (1 # 2)) in
  Qceiling 5 <= x <= Qfloor 15 /\
  (5 <= inject_Z x)%Q /\ (inject_Z x <= 15)%Q /\
  Utils.draws g' = Utils.draws (Examples.always (1 # 2)) /\
  Utils.taken g' = 1%nat.
Proof.
  apply (getRandomIntInclusive_bounds 5 15 (Examples.always (1 # 2))).
  - intros i. split; [discriminate | reflexivity].
  - discriminate.
Defined.

(** X2.  [getRandomInt(max)], for an integer [max] >= 0, returns an
    integer between 0 and [max]. *)
Theorem getRandomInt_bounds (max : Z) (g : Utils.Rng) :
  Utils.uniform g -> 0 <= max ->
  0 <= fst (Utils.getRandomInt (inject_Z max) g) <= max /\
  Utils.taken (snd (Utils.getRandomInt (inject_Z max) g)) = S (Utils.taken g).
Proof.
  intros Hg Hmax.
  change (Utils.getRandomInt (inject_Z max) g)
    with (Qfloor (Utils.draws g (Utils.taken g) * (inject_Z max + 1)),
          {| Utils.draws := Utils.draws g; Utils.taken := S (Utils.taken g) |}).
  cbn [fst snd Utils.taken].
  destruct (Hg (Utils.taken g)) as [H0 H1].
  assert (He : (Utils.draws g (Utils.taken g) * (inject_Z max + 1)
                == Utils.draws g (Utils.taken g) * inject_Z (max + 1))%Q).
  { rewrite inject_Z_plus. reflexivity. }
  rewrite (Qfloor_comp _ _ He).
  pose proof (floor_scaled _ (max + 1) H0 H1 ltac:(lia)). split; [lia | reflexivity].
Qed.

Lemma getRandomInt_bounds_witness :
  0 <= fst (Utils.getRandomInt (inject_Z 6) (Examples.always (3 # 4))) <= 6 /\
  Utils.taken (snd (Utils.getRandomInt (inject_Z 6) (Examples.always (3 # 4))))
  = 1%nat.
Proof.
  apply (getRandomInt_bounds 6 (Examples.always (3 # 4))).
  - intros i. split; [discriminate | reflexivity].
  - lia.
Defined.

(** X3.  [choice(arr)] returns [undefined] for an empty array without
    drawing, and otherwise an element of the array, after one draw. *)
Theorem choice_spec (A : Type) (arr : list A) (g : Utils.Rng) :
  Utils.uniform g ->
  match arr with
  | [] => Utils.choice arr g = (None, g)
  | _ => exists x, fst (Utils.choice arr g) = Some x /\ In x arr /\
                   Utils.taken (snd (Utils.choice arr g)) = S (Utils.taken g)
  end.
Proof.
  intros Hg. destruct arr as [|a arr]; [reflexivity|].
  destruct (Hg (Utils.taken g)) as [H0 H1].
  pose proof (floor_scaled _ (Z.of_nat (List.length (a :: arr))) H0 H1
                ltac:(simpl; lia)) as Hf.
  change (Utils.choice (a :: arr) g)
    with (Js.at_index (a :: arr)
            (Qfloor (Utils.draws g (Utils.taken g) *
                     inject_Z (Z.of_nat (List.length (a :: arr))))),
          {| Utils.draws := Utils.draws g; Utils.taken := S (Utils.taken g) |}).
  cbn [fst snd Utils.taken].
  set (i := Qfloor _) in *. unfold Js.at_index.
  destruct (Z.ltb_spec i 0) as [|_]; [lia|].
  destruct ((a :: arr) !! Z.to_nat i) as [x|] eqn:Hx.
  - exists x. split; [reflexivity|]. split; [|reflexivity].
    apply list_elem_of_In. eapply list_elem_of_lookup_2. exact Hx.
  - apply lookup_ge_None in Hx. simpl in Hx, Hf. lia.
Qed.

Lemma choice_spec_witness :
  exists x, fst (Utils.choice [10; 20; 30] (Examples.always (1 # 2))) = Some x /\
            In x [10; 20; 30] /\
            Utils.taken (snd (Utils.choice [10; 20; 30] (Examples.always (1 # 2))))
            = 1%nat.
Proof.
  apply (choice_spec Z [10; 20; 30] (Examples.always (1 # 2))).
  intros i. split; [discriminate | reflexivity].
Defined.

Section RollDice.

Import NilEmpty Utils.

Implicit Types (n m : Decimal.uint) (g : Rng).

Lemma parseInt10_uint m :
  m <> Decimal.Nil ->
  Js.parseInt10 (string_of_uint m) = Ok (Z.of_N (N.of_uint m)).
Proof.
  intros Hm.
  assert (Hunfold :
            Js.parseInt10 (string_of_uint m) =
            match Js.parseDigits 10 (string_of_uint m) None with
            | Some k => Ok (1 * k)
            | None => NaN
            end) by (destruct m; [congruence | reflexivity ..]).
  rewrite Hunfold, parseDigits_uint by exact Hm. f_equal. apply Z.mul_1_l.
Qed.

Lemma rollDice_parts n m :
  n <> Decimal.Nil -> m <> Decimal.Nil ->
  forall g,
    rollDice (string_of_uint n +:+ "d" +:+ string_of_uint m) g =
    (Ok (fst (rollLoop (Z.to_nat (Z.of_N (N.of_uint n)))
                       (Z.of_N (N.of_uint m)) 0 g)),
     snd (rollLoop (Z.to_nat (Z.of_N (N.of_uint n)))
                   (Z.of_N (N.of_uint m)) 0 g)).
Proof.
  intros Hn Hm g. unfold rollDice. rewrite split_dice.
  unfold Js.parseInt10_at. cbn [lookup list_lookup default].
  change ([string_of_uint n; string_of_uint m] !! 0%nat)
    with (Some (string_of_uint n)).
  change ([string_of_uint n; string_of_uint m] !! 1%nat)
    with (Some (string_of_uint m)).
  cbn [default from_option id]. 
  rewrite !parseInt10_uint by assumption.
  now destruct (rollLoop _ _ _ _).
Qed.

End RollDice.

(** X4.  [rollDice("NdM")] for a die of M >= 1 sides takes N draws and
    returns a total between N and N * M.  A notation with no count
    before the "d" takes no draw and returns 0. *)
Theorem rollDice_bounds (n m : Decimal.uint) (g : Utils.Rng) :
  Utils.uniform g ->
  n <> Decimal.Nil -> m <> Decimal.Nil ->
  1 <= Z.of_N (N.of_uint m) ->
  let count := Z.of_N (N.of_uint n) in
  let sides := Z.of_N (N.of_uint m) in
  (exists total g',
      Utils.rollDice
        (NilEmpty.string_of_uint n +:+ "d" +:+ NilEmpty.string_of_uint m) g
      = (Ok total, g') /\
      count <= total <= count * sides /\
      Utils.taken g' = (Utils.taken g + Z.to_nat count)%nat) /\
  Utils.rollDice ("d" +:+ NilEmpty.string_of_uint m) g = (Ok 0, g).
Proof.
  intros Hg Hn Hm Hsides count sides. subst count sides. split.
  - rewrite (rollDice_parts n m Hn Hm g).
    pose proof (rollLoop_spec (Z.to_nat (Z.of_N (N.of_uint n)))
                  (Z.of_N (N.of_uint m)) 0 g Hg Hsides)
      as (Ht & _ & Htaken).
    eexists _, _. split; [reflexivity|].
    rewrite Z2Nat.id in Ht by lia.
    split; [lia | exact Htaken].
  - unfold Utils.rollDice.
    change ("d" +:+ NilEmpty.string_of_uint m)
      with (String "d" (NilEmpty.string_of_uint m)).
    cbn [Js.split]. rewrite split_uint. reflexivity.
Qed.

Lemma rollDice_bounds_witness :
  exists total g',
    Utils.rollDice "2d6" (Examples.always (1 # 2)) = (Ok total, g') /\
    2 <= total <= 2 * 6 /\ Utils.taken g' = 2%nat.
Proof.
  apply (rollDice_bounds (D2 Nil) (D6 Nil) (Examples.always (1 # 2))).
  - intros i. split; [discriminate | reflexivity].
  - discriminate.
  - discriminate.
  - discriminate.
Defined.

(** ** More on the StatBlock *)

Section StatsInvariant.

Implicit Types (s : Stats.t) (k : string) (v : Js.Value).

Lemma Stats_new_wf (values : gmap string Z) : Stats.wf (Stats.new values).
Proof.
  intros k. rewrite Stats_new_lookup, <- includes_spec.
  destruct (Stats.includes k); split; intros H;
    (reflexivity || eauto || (destruct H; discriminate) || discriminate).
Qed.

Lemma Stats_set_wf s k v : Stats.wf s -> Stats.wf (snd (Stats.set k v s)).
Proof.
  intros Hs. unfold Stats.set.
  destruct (Stats.includes k) eqn:Hk; cbn [negb]; [|exact Hs].
  destruct (negb (String.eqb (Js.typeof v) "number") || Js.lt v 0);
    [exact Hs|].
  destruct v as [n| | | | |]; try exact Hs.
  intros k'. cbn [snd Stats._values]. destruct (decide (k = k')) as [<-|Hne].
  - rewrite lookup_insert_eq. apply includes_spec in Hk.
    split; [intros _; exact Hk | eauto].
  - rewrite lookup_insert_ne by exact Hne. apply Hs.
Qed.

Lemma Stats_wf_get s k :
  Stats.wf s -> In k StatType.values ->
  exists n, Stats.get s k = Ok (Some n) /\
            Stats.getBonus s k = Ok (Utils.calculateStatBonus n).
Proof.
  intros Hs Hk. destruct (proj2 (Hs k) Hk) as [n Hn]. exists n.
  assert (Hget : Stats.get s k = Ok (Some n))
    by (rewrite Stats_get_recognised by exact Hk; now rewrite Hn).
  split; [exact Hget | now apply getBonus_get].
Qed.

Lemma Stats_unrecognised s k :
  ~ In k StatType.values ->
  Stats.getBonus s k = Ok 0 /\
  (k = "LUCK"%string -> Stats.get s k = Ok (Some 10)) /\
  (k <> "LUCK"%string -> exists msg, Stats.get s k = Throw msg).
Proof.
  intros Hk. apply includes_false in Hk.
  unfold Stats.getBonus, Stats.get. rewrite Hk. simpl.
  destruct (String.eqb_spec k "LUCK") as [->|Hne]; simpl.
  - repeat split; congruence.
  - repeat split; [congruence | eauto].
Qed.

End StatsInvariant.

(** X5.  A StatBlock always holds exactly the six recognised abilities:
    the constructor establishes this for any supplied values and [set]
    keeps it, whether it succeeds or throws.  In such a StatBlock [get]
    of a recognised ability returns a number, never [undefined], and
    [getBonus] returns floor((value - 10) / 2) of it. *)
Theorem Stats_wellformed :
  (forall values, Stats.wf (Stats.new values)) /\
  (forall s k v, Stats.wf s -> Stats.wf (snd (Stats.set k v s))) /\
  (forall s k, Stats.wf s -> In k StatType.values ->
     exists n, Stats.get s k = Ok (Some n) /\
               Stats.getBonus s k = Ok ((n - 10) / 2)).
Proof.
  split; [exact Stats_new_wf | split; [exact Stats_set_wf|]].
  intros s k Hs Hk. destruct (Stats_wf_get s k Hs Hk) as (n & Hg & Hb).
  exists n. rewrite <- calculateStatBonus_eq. now split.
Qed.

Lemma Stats_wellformed_witness :
  exists n,
    Stats.get (snd (Stats.set "DEX" (Js.Number 7) (Stats.new ∅))) "DEX"
    = Ok (Some n) /\
    Stats.getBonus (snd (Stats.set "DEX" (Js.Number 7) (Stats.new ∅))) "DEX"
    = Ok ((n - 10) / 2).
Proof.
  destruct Stats_wellformed as (Hnew & Hset & Hget).
  apply Hget.
  - apply Hset, Hnew.
  - right. left. reflexivity.
Defined.

(** X6.  [get] and [getBonus] differ on an ability outside the
    recognised set: [getBonus] never throws and returns 0, while [get]
    returns 10 for "LUCK" and throws for any other name. *)
Theorem Stats_unrecognised_ability (s : Stats.t) (k : string) :
  ~ In k StatType.values ->
  Stats.getBonus s k = Ok 0 /\
  (k = "LUCK"%string -> Stats.get s k = Ok (Some 10)) /\
  (k <> "LUCK"%string -> exists msg, Stats.get s k = Throw msg).
Proof. apply Stats_unrecognised. Qed.

Lemma Stats_unrecognised_ability_witness :
  Stats.getBonus (Stats.new ∅) "MANA" = Ok 0 /\
  (exists msg, Stats.get (Stats.new ∅) "MANA" = Throw msg).
Proof.
  assert (H : ~ In "MANA"%string StatType.values).
  { unfold StatType.values; simpl. intros H.
    repeat (destruct H as [H|H]; [discriminate H|]). exact H. }
  destruct (Stats_unrecognised_ability (Stats.new ∅) "MANA" H) as (Hb & _ & Hg).
  split; [exact Hb | apply Hg; discriminate].
Defined.

(** X7.  Serializing a StatBlock and constructing one from the
    serialized values gives the same StatBlock back. *)
Theorem Stats_toJSON_roundtrip (s : Stats.t) :
  Stats.wf s -> Stats.new (Stats.toJSON s) = s.
Proof.
  intros Hs. destruct s as [m]. unfold Stats.toJSON.
  cbn [Stats._values].
  destruct (Stats.new m) as [m'] eqn:E. f_equal. apply map_eq. intros k.
  pose proof (Stats_new_lookup m k) as Hk. rewrite E in Hk.
  cbn [Stats._values] in Hk.
  rewrite Hk. specialize (Hs k). cbn [Stats._values] in Hs.
  rewrite <- includes_spec in Hs.
  destruct (Stats.includes k).
  - destruct (proj2 Hs eq_refl) as [n ->]. reflexivity.
  - destruct (m !! k) as [n|] eqn:Em; [|reflexivity].
    assert (false = true) by (apply Hs; eauto). discriminate.
Qed.

Lemma Stats_toJSON_roundtrip_witness :
  Stats.new (Stats.toJSON (Stats.new {[ "STR"%string := 14 ]}))
  = Stats.new {[ "STR"%string := 14 ]}.
Proof. apply Stats_toJSON_roundtrip, Stats_new_wf. Defined.

(** X8.  The stat bonus rounds down: it is the number b with
    2b <= value - 10 <= 2b + 1 (so 7 gives -2, not -1), it grows by 1
    for every 2 points of the ability, and it never decreases when the
    ability grows. *)
Theorem calculateStatBonus_floor (v : Z) :
  2 * Utils.calculateStatBonus v <= v - 10 <= 2 * Utils.calculateStatBonus v + 1 /\
  Utils.calculateStatBonus (v + 2) = Utils.calculateStatBonus v + 1 /\
  (forall w, v <= w -> Utils.calculateStatBonus v <= Utils.calculateStatBonus w).
Proof.
  rewrite !calculateStatBonus_eq. split; [|split].
  - pose proof (Z.div_mod (v - 10) 2 ltac:(lia)).
    pose proof (Z.mod_pos_bound (v - 10) 2 ltac:(lia)). lia.
  - replace (v + 2 - 10) with (v - 10 + 1 * 2) by lia.
    rewrite Z.div_add by lia. reflexivity.
  - intros w Hw. rewrite calculateStatBonus_eq.
    apply Z.div_le_mono; lia.
Qed.

Lemma calculateStatBonus_floor_witness :
  Utils.calculateStatBonus 7 <= Utils.calculateStatBonus 18.
Proof. apply (proj2 (proj2 (calculateStatBonus_floor 7)) 18). lia. Defined.

(** ** StatsBuilder *)

Section StatsBuilderProperties.

Import Utils.

Implicit Types (g : Rng) (l rolls : list Z) (x : Z).

Lemma foldl_add l : forall a, foldl Z.add a l = a + foldl Z.add 0 l.
Proof.
  induction l as [|y l IH]; intros a; simpl; [lia|].
  rewrite (IH (a + y)), (IH (0 + y)). lia.
Qed.

Lemma insert_sorted_perm x l : Js.insert_sorted x l ≡ₚ x :: l.
Proof.
  induction l as [|y l IH]; simpl; [reflexivity|].
  destruct (x <=? y); [reflexivity|].
  rewrite IH. apply Permutation_swap.
Qed.

Lemma sort_perm l : Js.sort l ≡ₚ l.
Proof.
  induction l as [|y l IH]; simpl; [reflexivity|].
  unfold Js.sort in *. simpl. rewrite insert_sorted_perm. now rewrite IH.
Qed.

Lemma insert_sorted_sum x l :
  foldl Z.add 0 (Js.insert_sorted x l) = x + foldl Z.add 0 l.
Proof.
  induction l as [|y l IH]; simpl; [lia|].
  destruct (x <=? y); simpl.
  - rewrite (foldl_add l (0 + x + y)), (foldl_add l (0 + y)). lia.
  - rewrite (foldl_add _ (0 + y)), IH, (foldl_add l (0 + y)). lia.
Qed.

Lemma sort_sum l : foldl Z.add 0 (Js.sort l) = foldl Z.add 0 l.
Proof.
  induction l as [|y l IH]; [reflexivity|].
  change (Js.sort (y :: l)) with (Js.insert_sorted y (Js.sort l)).
  rewrite insert_sorted_sum, IH. simpl. rewrite (foldl_add l (0 + y)). lia.
Qed.

(** The first element of the sorted list is a lower bound of it. *)
Lemma insert_sorted_head x l :
  match l with [] => True | h :: _ => Forall (Z.le h) l end ->
  match Js.insert_sorted x l with
  | [] => False
  | h :: _ => Forall (Z.le h) (Js.insert_sorted x l)
  end.
Proof.
  destruct l as [|h t]; simpl; [intros _; repeat constructor; lia|].
  intros Hh. destruct (Z.leb_spec x h).
  - constructor; [lia|]. eapply Forall_impl; [exact Hh|]. simpl. lia.
  - rewrite insert_sorted_perm. constructor; [lia|].
    constructor; [lia|]. now inversion Hh.
Qed.

Lemma sort_head l :
  match Js.sort l with [] => l = [] | h :: _ => Forall (Z.le h) (Js.sort l) end.
Proof.
  induction l as [|y l IH]; [reflexivity|].
  change (Js.sort (y :: l)) with (Js.insert_sorted y (Js.sort l)).
  pose proof (insert_sorted_head y (Js.sort l)) as H.
  destruct (Js.insert_sorted y (Js.sort l)) eqn:E.
  - exfalso. apply H. destruct (Js.sort l); [exact I | exact IH].
  - apply H. destruct (Js.sort l); [exact I | exact IH].
Qed.

(** Dropping the first of the sorted rolls drops a lowest roll. *)
Lemma drop_lowest rolls :
  rolls <> [] ->
  exists lowest,
    In lowest rolls /\ Forall (Z.le lowest) rolls /\
    foldl Z.add 0 (tail (Js.sort rolls)) = foldl Z.add 0 rolls - lowest.
Proof.
  intros Hne. pose proof (sort_head rolls) as Hh.
  pose proof (sort_sum rolls) as Hsum. pose proof (sort_perm rolls) as Hp.
  destruct (Js.sort rolls) as [|h t]; [contradiction|].
  exists h. split; [|split].
  - apply list_elem_of_In. rewrite <- Hp. left.
  - rewrite <- Hp. exact Hh.
  - simpl in *. rewrite (foldl_add t (0 + h)) in Hsum. lia.
Qed.

Lemma rollN_spec (n : nat) : forall rolls g,
  uniform g ->
  Forall (fun x => 1 <= x <= 6) rolls ->
  let r := StatsBuilder.rollN n rolls g in
  Forall (fun x => 1 <= x <= 6) (fst r) /\
  List.length (fst r) = (List.length rolls + n)%nat /\
  draws (snd r) = draws g /\ taken (snd r) = (taken g + n)%nat.
Proof.
  induction n as [|n IH]; intros rolls g Hg Hr; cbn [StatsBuilder.rollN].
  - cbn [fst snd]. repeat split; [exact Hr | lia | lia].
  - pose proof (die_range 6 g Hg ltac:(lia)) as (Hx & Hd & Ht).
    change (inject_Z 6) with 6%Q in *.
    destruct (getRandomIntInclusive 1 6 g) as [x g1]. cbn [fst snd] in *.
    destruct (IH (rolls ++ [x]) g1 (uniform_same g g1 Hd Hg)) as (H1 & H2 & H3 & H4).
    { apply Forall_app. split; [exact Hr | repeat constructor; lia]. }
    split; [exact H1|]. rewrite length_app in H2. simpl in H2.
    split; [lia|]. split; [congruence | lia].
Qed.

Lemma sum_range l :
  Forall (fun x => 1 <= x <= 6) l ->
  Z.of_nat (List.length l) <= foldl Z.add 0 l <= 6 * Z.of_nat (List.length l).
Proof.
  induction 1 as [|x l Hx Hl IH]; simpl; [lia|].
  rewrite (foldl_add l (0 + x)). lia.
Qed.

Lemma rollStat_spec g :
  uniform g ->
  let rolls := fst (StatsBuilder.rollN 4 [] g) in
  let r := StatsBuilder.rollStat g in
  List.length rolls = 4%nat /\
  Forall (fun x => 1 <= x <= 6) rolls /\
  (exists lowest, In lowest rolls /\ Forall (Z.le lowest) rolls /\
                  fst r = foldl Z.add 0 rolls - lowest) /\
  3 <= fst r <= 18 /\
  draws (snd r) = draws g /\ taken (snd r) = (taken g + 4)%nat.
Proof.
  intros Hg. cbv zeta.
  destruct (rollN_spec 4 [] g Hg (List.Forall_nil _)) as (Hr & Hlen & Hd & Ht).
  assert (Hrv : StatsBuilder.rollStat g =
                (foldl Z.add 0 (tail (Js.sort (fst (StatsBuilder.rollN 4 [] g)))),
                 snd (StatsBuilder.rollN 4 [] g))).
  { unfold StatsBuilder.rollStat. now destruct (StatsBuilder.rollN 4 [] g). }
  rewrite Hrv. cbn [fst snd].
  set (rolls := fst (StatsBuilder.rollN 4 [] g)) in *.
  change (List.length rolls = 4%nat) in Hlen.
  split; [exact Hlen|]. split; [exact Hr|].
  assert (Hsorted : Forall (fun x => 1 <= x <= 6) (tail (Js.sort rolls)) /\
                    List.length (tail (Js.sort rolls)) = 3%nat).
  { pose proof (sort_perm rolls) as Hp.
    assert (Hf : Forall (fun x => 1 <= x <= 6) (Js.sort rolls))
      by (rewrite Hp; exact Hr).
    apply Permutation_length in Hp.
    destruct (Js.sort rolls) as [|h t]; simpl in *; [lia|].
    split; [now inversion Hf | lia]. }
  destruct Hsorted as [Hf3 Hl3]. pose proof (sum_range _ Hf3) as Hs.
  rewrite Hl3 in Hs.
  split; [apply drop_lowest; intros E; rewrite E in Hlen; discriminate|].
  split; [lia|]. split; [exact Hd | exact Ht].
Qed.

Lemma rollValues_spec (keys : list string) : forall (acc : gmap string Z) g,
  uniform g ->
  map_Forall (fun _ x => 3 <= x <= 18) acc ->
  let r := foldl (fun '(rolledValues, g) type =>
                    let '(total, g) := StatsBuilder.rollStat g in
                    (<[type := total]> rolledValues, g))
                 (acc, g) keys in
  map_Forall (fun _ x => 3 <= x <= 18) (fst r) /\
  draws (snd r) = draws g /\
  taken (snd r) = (taken g + 4 * List.length keys)%nat.
Proof.
  induction keys as [|k keys IH]; intros acc g Hg Hacc; cbn [foldl List.length].
  - split; [exact Hacc | split; [reflexivity | cbn [snd]; lia]].
  - destruct (rollStat_spec g Hg) as (_ & _ & _ & Hv & Hd & Ht).
    destruct (StatsBuilder.rollStat g) as [total g1]. cbn [fst snd] in *.
    destruct (IH (<[k := total]> acc) g1 (uniform_same g g1 Hd Hg))
      as (H1 & H2 & H3).
    { apply map_Forall_insert_2; assumption. }
    split; [exact H1|]. split; [congruence | lia].
Qed.

(** The generator a pass of the outer loop leaves, and what a pass
    depends on. *)
Lemma rollStat_rng g :
  snd (StatsBuilder.rollStat g)
  = {| draws := draws g; taken := (taken g + 4)%nat |}.
Proof.
  unfold StatsBuilder.rollStat. cbn [StatsBuilder.rollN].
  rewrite !getRandomIntInclusive_eq. cbn [snd draws taken].
  f_equal. lia.
Qed.

Lemma rollN_dice g :
  fst (StatsBuilder.rollN 4 [] g)
  = map (fun j => Qfloor (draws g (taken g + j)%nat * 6) + 1)
        [0; 1; 2; 3]%nat.
Proof.
  cbn [StatsBuilder.rollN]. rewrite !getRandomIntInclusive_eq.
  cbn [fst snd draws taken app map].
  rewrite Nat.add_0_r.
  replace (taken g + 1)%nat with (S (taken g)) by lia.
  replace (taken g + 2)%nat with (S (S (taken g))) by lia.
  replace (taken g + 3)%nat with (S (S (S (taken g)))) by lia.
  reflexivity.
Qed.

Lemma rollStat_ext g g' :
  draws g' = draws g -> taken g' = taken g ->
  StatsBuilder.rollStat g' = StatsBuilder.rollStat g.
Proof. destruct g, g'; cbn [draws taken]; now intros -> ->. Qed.

(** A key the loop does not visit keeps what was stored under it. *)
Lemma rollValues_notin (keys : list string) : forall (acc : gmap string Z) g k,
  ~ In k keys ->
  fst (foldl (fun '(rolledValues, g) type =>
                let '(total, g) := StatsBuilder.rollStat g in
                (<[type := total]> rolledValues, g))
             (acc, g) keys) !! k = acc !! k.
Proof.
  induction keys as [|k0 keys IH]; intros acc g k Hk; cbn [foldl];
    [reflexivity|].
  destruct (StatsBuilder.rollStat g) as [total g1].
  rewrite IH by (intros H; apply Hk; now right).
  apply lookup_insert_ne. intros ->. apply Hk. now left.
Qed.

(** The [i]-th key of the loop gets the total of the [i]-th pass. *)
Lemma rollValues_lookup (keys : list string) :
  List.NoDup keys ->
  forall (acc : gmap string Z) g (i : nat) k,
    keys !! i = Some k ->
    fst (foldl (fun '(rolledValues, g) type =>
                  let '(total, g) := StatsBuilder.rollStat g in
                  (<[type := total]> rolledValues, g))
               (acc, g) keys) !! k
    = Some (fst (StatsBuilder.rollStat
                   {| draws := draws g; taken := (taken g + 4 * i)%nat |})).
Proof.
  induction 1 as [|k0 keys Hk0 Hnd IH]; intros acc g i k Hi;
    [discriminate Hi|].
  cbn [foldl]. pose proof (rollStat_rng g) as Hrng.
  destruct (StatsBuilder.rollStat g) as [total g1] eqn:E. cbn [snd] in Hrng.
  destruct i as [|i]; cbn in Hi.
  - injection Hi as <-. rewrite rollValues_notin by exact Hk0.
    rewrite lookup_insert_eq. f_equal.
    rewrite (rollStat_ext g _) by (cbn [draws taken]; first [reflexivity | lia]).
    now rewrite E.
  - rewrite (IH _ g1 i k Hi). do 2 f_equal. subst g1. cbn [draws taken].
    apply rollStat_ext; cbn [draws taken]; [reflexivity | lia].
Qed.

Lemma StatType_values_NoDup : List.NoDup StatType.values.
Proof.
  unfold StatType.values.
  repeat (constructor;
          [cbn; intros H;
           repeat (destruct H as [H|H]; [discriminate H|]); exact H|]).
  constructor.
Qed.

Lemma roll_get g (i : nat) k :
  StatType.values !! i = Some k ->
  Stats.get (fst (StatsBuilder.roll g)) k
  = Ok (Some (fst (StatsBuilder.rollStat
                     {| draws := draws g; taken := (taken g + 4 * i)%nat |}))).
Proof.
  intros Hi.
  assert (Hk : In k StatType.values)
    by (apply list_elem_of_In; eapply list_elem_of_lookup_2; exact Hi).
  pose proof (rollValues_lookup StatType.values StatType_values_NoDup
                ∅ g i k Hi) as Hl.
  unfold StatsBuilder.roll, StatsBuilder.rollValues.
  destruct (foldl _ _ _) as [rolledValues g'] eqn:E. cbn [fst] in *.
  rewrite Stats_get_recognised, Stats_new_lookup by exact Hk.
  rewrite (proj2 (includes_spec k) Hk), Hl. reflexivity.
Qed.

End StatsBuilderProperties.

(** X9.  [StatsBuilder.roll()] takes 24 draws, four per ability; each
    ability total is the sum of its four dice less a lowest one, and
    every ability of the resulting StatBlock lies between 3 and 18.
    The ability at position i of the enumeration is stored with the
    total of the pass that starts 4 * i draws on, and the dice of a pass
    are floor(6 r) + 1 for its four draws r, in order. *)
Theorem StatsBuilder_roll_range (g : Utils.Rng) :
  Utils.uniform g ->
  (let rolls := fst (StatsBuilder.rollN 4 [] g) in
   List.length rolls = 4%nat /\
   Forall (fun x => 1 <= x <= 6) rolls /\
   exists lowest, In lowest rolls /\ Forall (Z.le lowest) rolls /\
     fst (StatsBuilder.rollStat g) = foldl Z.add 0 rolls - lowest) /\
  (let r := StatsBuilder.roll g in
   Stats.wf (fst r) /\
   (forall k, In k StatType.values ->
      exists x, Stats.get (fst r) k = Ok (Some x) /\ 3 <= x <= 18) /\
   Utils.taken (snd r) = (Utils.taken g + 24)%nat) /\
  (forall (i : nat) k, StatType.values !! i = Some k ->
     Stats.get (fst (StatsBuilder.roll g)) k
     = Ok (Some (fst (StatsBuilder.rollStat
                        {| Utils.draws := Utils.draws g;
                           Utils.taken := (Utils.taken g + 4 * i)%nat |})))) /\
  fst (StatsBuilder.rollN 4 [] g)
  = map (fun j => Qfloor (Utils.draws g (Utils.taken g + j)%nat * 6) + 1)
        [0; 1; 2; 3]%nat.
Proof.
  intros Hg. split; [|split; [|split; [|apply rollN_dice]]].
  - destruct (rollStat_spec g Hg) as (H1 & H2 & H3 & _). auto.
  - destruct (rollValues_spec StatType.values ∅ g Hg (map_Forall_empty _))
      as (_ & _ & Htaken).
    split; [|split].
    + unfold StatsBuilder.roll. destruct (StatsBuilder.rollValues g).
      apply Stats_new_wf.
    + intros k Hk. apply list_elem_of_In, list_elem_of_lookup_1 in Hk.
      destruct Hk as [i Hi]. rewrite (roll_get g i k Hi).
      eexists. split; [reflexivity|].
      apply rollStat_spec. now apply (uniform_same g).
    + unfold StatsBuilder.roll, StatsBuilder.rollValues.
      destruct (foldl _ _ _) as [rolledValues g']. exact Htaken.
  - apply roll_get.
Qed.

Lemma StatsBuilder_roll_range_witness :
  let g := {| Utils.draws := fun n => (Z.of_nat (n mod 6) # 6)%Q;
              Utils.taken := 0 |} in
  Stats.get (fst (StatsBuilder.roll g)) "STR" = Ok (Some 9) /\
  Stats.get (fst (StatsBuilder.roll g)) "DEX" = Ok (Some 13).
Proof.
  intros g.
  assert (Hg : Utils.uniform g).
  { intros i. pose proof (Nat.mod_upper_bound i 6 ltac:(lia)).
    unfold Qle, Qlt; cbn. lia. }
  destruct (StatsBuilder_roll_range g Hg) as (_ & _ & Htie & _).
  split.
  - rewrite (Htie 0%nat "STR"%string eq_refl). vm_compute. reflexivity.
  - rewrite (Htie 1%nat "DEX"%string eq_refl). vm_compute. reflexivity.
Defined.

(** ** More on the ResourceBar *)

(** X10.  The serialized form of a bar that satisfies the invariant
    rebuilds the same bar through the constructor. *)
Theorem Bar_toJSON_roundtrip (b : Bar.t) :
  Bar.inv b ->
  Bar.new (fst (Bar.toJSON b)) (Some (snd (Bar.toJSON b))) = Ok b.
Proof.
  intros (Hp & Hm). destruct b as [m p]. unfold Bar.toJSON, Bar.new. simpl in *.
  destruct (Z.leb_spec m 0); [lia|]. do 2 f_equal. lia.
Qed.

Lemma Bar_toJSON_roundtrip_witness :
  Bar.new (fst (Bar.toJSON (Bar.mk 10 3))) (Some (snd (Bar.toJSON (Bar.mk 10 3))))
  = Ok (Bar.mk 10 3).
Proof. apply Bar_toJSON_roundtrip. unfold Bar.inv; simpl; lia. Defined.

(** X11.  Adjustments in one direction add up: two losses amount to the
    loss of their sum and two gains to the gain of their sum.  A loss
    followed by the same gain gives the bar back exactly when the loss
    did not exceed the position; otherwise the clamping at 0 has eaten
    the difference. *)
Theorem Bar_adjust_compose (b : Bar.t) (x y : Z) :
  Bar.inv b -> 0 <= x -> 0 <= y ->
  Bar.adjust (Bar.adjust b (- x)) (- y) = Bar.adjust b (- (x + y)) /\
  Bar.adjust (Bar.adjust b x) y = Bar.adjust b (x + y) /\
  (x <= Bar.value b -> Bar.adjust (Bar.adjust b (- x)) x = b) /\
  (Bar.value b < x ->
   Bar.value (Bar.adjust (Bar.adjust b (- x)) x) = Z.min x (Bar.max b)).
Proof.
  intros (Hp & Hm) Hx Hy. destruct b as [m p].
  unfold Bar.adjust, Bar.set_value, Bar.value, Bar.max. simpl in *.
  repeat split; intros; f_equal; lia.
Qed.

Lemma Bar_adjust_compose_witness :
  Bar.adjust (Bar.adjust (Bar.mk 10 3) (- 2)) (- 4) = Bar.mk 10 0 /\
  Bar.value (Bar.adjust (Bar.adjust (Bar.mk 10 3) (- 5)) 5) = 5.
Proof.
  assert (H : Bar.inv (Bar.mk 10 3)) by (unfold Bar.inv; simpl; lia).
  destruct (Bar_adjust_compose (Bar.mk 10 3) 2 4 H) as (H1 & _); [lia | lia|].
  destruct (Bar_adjust_compose (Bar.mk 10 3) 5 0 H) as (_ & _ & _ & H2);
    [lia | lia|].
  split.
  - etransitivity; [exact H1 | reflexivity].
  - etransitivity; [apply H2; simpl; lia | reflexivity].
Defined.

(** X12.  For a bar that satisfies the invariant the percentage lies
    between 0 and 100; [isFull()] holds exactly when the position is the
    maximum and [isEmpty()] exactly when it is 0. *)
Theorem Bar_queries (b : Bar.t) :
  Bar.inv b ->
  (0 <= Bar.percentage b)%Q /\ (Bar.percentage b <= 100)%Q /\
  (Bar.isFull b = true <-> Bar.value b = Bar.max b) /\
  (Bar.isEmpty b = true <-> Bar.value b = 0) /\
  (Bar.isFull b = true -> Bar.isEmpty b = false).
Proof.
  intros (Hp & Hm). destruct b as [m p].
  unfold Bar.percentage, Bar.isFull, Bar.isEmpty, Bar.value, Bar.max.
  simpl in *. split; [|split; [|split; [|split]]].
  - unfold Qle, Qdiv, Qmult, Qinv, inject_Z; simpl.
    destruct m as [|m|m]; simpl; try lia; nia.
  - unfold Qle, Qdiv, Qmult, Qinv, inject_Z; simpl.
    destruct m as [|m|m]; simpl; try lia; nia.
  - destruct (Z.geb_spec p m); split; (lia || congruence).
  - destruct (Z.leb_spec p 0); split; (lia || congruence).
  - destruct (Z.geb_spec p m); [|congruence].
    destruct (Z.leb_spec p 0); [lia | reflexivity].
Qed.

Lemma Bar_queries_witness :
  (0 <= Bar.percentage (Bar.mk 10 3))%Q /\
  (Bar.percentage (Bar.mk 10 3) <= 100)%Q.
Proof.
  assert (H : Bar.inv (Bar.mk 10 3)) by (unfold Bar.inv; simpl; lia).
  destruct (Bar_queries (Bar.mk 10 3) H) as (H1 & H2 & _). split; assumption.
Defined.

(** ** More on the ProgressionTrack *)

Section LevelAccounting.

Implicit Types (s : Level.t) (k : nat).

Lemma totalExp_levelUp s :
  Level.consistent s -> Level.totalExp (Level.levelUp s) = Level.totalExp s.
Proof.
  unfold Level.consistent. rewrite calculateExpToNextLevel_eq, levelUp_eq.
  unfold Level.totalExp; simpl. intros ->. ring.
Qed.

Lemma iter_levelUp_consistent k s :
  Level.consistent s -> Level.consistent (Nat.iter k Level.levelUp s).
Proof.
  destruct k; intros Hs; [exact Hs|].
  rewrite Nat.iter_succ. apply Level_consistent_levelUp.
Qed.

Lemma totalExp_iter k s :
  Level.consistent s ->
  Level.totalExp (Nat.iter k Level.levelUp s) = Level.totalExp s.
Proof.
  intros Hs. induction k as [|k IH]; [reflexivity|].
  rewrite Nat.iter_succ, totalExp_levelUp; [exact IH|].
  now apply iter_levelUp_consistent.
Qed.

(** What [gainExp] keeps and what it changes, from a sound state. *)
Lemma gainExp_accounting s (amount : Z) :
  Level.consistent s -> 1 <= Level.value s ->
  0 <= Level.exp s -> 0 <= amount ->
  let s' := snd (Level.gainExp s amount) in
  Level.consistent s' /\ Level.value s <= Level.value s' /\
  0 <= Level.exp s' < Level.expToNextLevel s' /\
  Level.totalExp s' = Level.totalExp s + amount.
Proof.
  intros Hs Hl He Ha s'.
  destruct (gainExp_spec s amount) as (k & Hk & Hbefore & Hafter).
  subst s'. rewrite Hk. cbn [snd].
  set (s0 := {| Level.value := Level.value s; Level.exp := Level.exp s + amount;
                Level.expToNextLevel := Level.expToNextLevel s |}) in *.
  assert (Hs0 : Level.consistent s0) by exact Hs.
  split; [now apply iter_levelUp_consistent|].
  split; [rewrite iter_levelUp_value; simpl; lia|].
  split; [split; [|exact Hafter]|].
  - destruct k as [|k]; [simpl; lia|].
    rewrite Nat.iter_succ, levelUp_eq. simpl.
    specialize (Hbefore k ltac:(lia)). lia.
  - rewrite totalExp_iter by exact Hs0. unfold Level.totalExp, s0; simpl. ring.
Qed.

(** A sound state is determined by the experience gathered in total. *)
Lemma totalExp_injective s1 s2 :
  Level.consistent s1 -> Level.consistent s2 ->
  1 <= Level.value s1 -> 1 <= Level.value s2 ->
  0 <= Level.exp s1 < Level.expToNextLevel s1 ->
  0 <= Level.exp s2 < Level.expToNextLevel s2 ->
  Level.totalExp s1 = Level.totalExp s2 -> s1 = s2.
Proof.
  unfold Level.consistent. rewrite !calculateExpToNextLevel_eq.
  unfold Level.totalExp. destruct s1 as [l1 e1 t1], s2 as [l2 e2 t2]; simpl.
  intros -> -> H1 H2 He1 He2 Ht.
  assert (Hl : l1 = l2).
  { destruct (Z.lt_trichotomy l1 l2) as [Hlt|[Heq|Hgt]]; [|exact Heq|]; exfalso.
    - assert (75 * (l1 + 1) * l1 <= 75 * l2 * (l2 - 1)) by nia. nia.
    - assert (75 * (l2 + 1) * l2 <= 75 * l1 * (l1 - 1)) by nia. nia. }
  subst l2. f_equal. lia.
Qed.

End LevelAccounting.

(** X13.  [gainExp] conserves experience: with the thresholds 150, 300,
    ... of the levels already left counted in, the experience gathered
    in total grows by exactly the amount gained, however many levels
    are crossed; the level never goes down and the experience held
    stays between 0 and the threshold. *)
Theorem Level_gainExp_conserves (s : Level.t) (amount : Z) :
  Level.consistent s -> 1 <= Level.value s ->
  0 <= Level.exp s -> 0 <= amount ->
  let s' := snd (Level.gainExp s amount) in
  Level.totalExp s' = Level.totalExp s + amount /\
  Level.value s <= Level.value s' /\
  0 <= Level.exp s' < Level.expToNextLevel s' /\
  Level.expToNextLevel s' = 150 * Level.value s'.
Proof.
  intros Hs Hl He Ha s'.
  destruct (gainExp_accounting s amount Hs Hl He Ha) as (Hc & Hv & Hr & Ht).
  fold s' in Hc, Hv, Hr, Ht. repeat split; try tauto.
  unfold Level.consistent in Hc. now rewrite calculateExpToNextLevel_eq in Hc.
Qed.

Lemma Level_gainExp_conserves_witness :
  let s' := snd (Level.gainExp (Level.new None None) 1000) in
  Level.totalExp s' = 1000 /\ Level.value s' = 4 /\ Level.exp s' = 100.
Proof.
  intros s'.
  destruct (Level_gainExp_conserves (Level.new None None) 1000)
    as (Ht & _); [reflexivity | discriminate | discriminate | lia |].
  split; [exact Ht | split; reflexivity].
Defined.

(** X14.  Experience can be handed over in parts: from a sound state,
    gaining [a] and then [b] ends in the same level, experience and
    threshold as gaining [a + b] at once, and one of the two calls
    reports a level-up exactly when the single call does. *)
Theorem Level_gainExp_additive (s : Level.t) (a b : Z) :
  Level.consistent s -> 1 <= Level.value s ->
  0 <= Level.exp s < Level.expToNextLevel s -> 0 <= a -> 0 <= b ->
  let first := Level.gainExp s a in
  let second := Level.gainExp (snd first) b in
  let once := Level.gainExp s (a + b) in
  snd second = snd once /\ fst first || fst second = fst once.
Proof.
  intros Hs Hl He Ha Hb first second once.
  destruct (gainExp_accounting s a Hs Hl ltac:(lia) Ha) as (Hc1 & Hv1 & Hr1 & Ht1).
  fold first in Hc1, Hv1, Hr1, Ht1.
  destruct (gainExp_accounting (snd first) b Hc1 ltac:(lia) ltac:(lia) Hb)
    as (Hc2 & Hv2 & Hr2 & Ht2).
  fold second in Hc2, Hv2, Hr2, Ht2.
  destruct (gainExp_accounting s (a + b) Hs Hl ltac:(lia) ltac:(lia))
    as (Hc3 & Hv3 & Hr3 & Ht3).
  fold once in Hc3, Hv3, Hr3, Ht3.
  assert (Heq : snd second = snd once)
    by (apply totalExp_injective; try assumption; lia).
  split; [exact Heq|].
  assert (Hflag : forall t x, fst (Level.gainExp t x) = true <->
                              Level.value t < Level.value (snd (Level.gainExp t x))).
  { intros t x. destruct (gainExp_spec t x) as (k & Hk & _).
    rewrite Hk. cbn [fst snd]. rewrite iter_levelUp_value. simpl.
    destruct k; simpl; split; (lia || congruence). }
  pose proof (Hflag s a) as F1. pose proof (Hflag (snd first) b) as F2.
  pose proof (Hflag s (a + b)) as F3.
  fold first in F1. fold second in F2. fold once in F3.
  rewrite <- Heq in F3.
  destruct (fst first), (fst second), (fst once); simpl; try reflexivity;
    exfalso; intuition lia.
Qed.

Lemma Level_gainExp_additive_witness :
  snd (Level.gainExp (snd (Level.gainExp (Level.new None None) 140)) 20)
  = snd (Level.gainExp (Level.new None None) 160).
Proof.
  apply (Level_gainExp_additive (Level.new None None) 140 20);
    [reflexivity | discriminate | split; [discriminate | reflexivity]
    | lia | lia].
Defined.

(** ** More on the Monster *)

Section MonsterMore.

Implicit Types (m : Monster.t) (data : Monster.Data).

Lemma Monster_new_ok data (st : gmap string Z) :
  Monster.d_name data <> ""%string ->
  Monster.d_stats data = Some st ->
  0 < Monster.d_hp data ->
  exists m, Monster.new data = Ok m /\
    Monster.name m = Monster.d_name data /\
    Monster.stats m = Stats.new (delete "HP"%string st) /\
    Monster.hpBar m = {| Bar._max := Monster.d_hp data;
                         Bar._position := Monster.d_hp data |} /\
    Monster.baseExp m = Js.or (Monster.d_base_exp data) 10.
Proof.
  intros Hname Hst Hhp. unfold Monster.new. rewrite Hst.
  destruct (String.eqb_spec (Monster.d_name data) "") as [|_]; [contradiction|].
  destruct (Z.eqb_spec (Monster.d_hp data) 0) as [|_]; [lia|]. simpl.
  unfold Bar.new. destruct (Z.leb_spec (Monster.d_hp data) 0); [lia|]. simpl.
  eexists. split; [reflexivity|]. simpl.
  repeat split. f_equal. lia.
Qed.

Lemma Monster_new_throws data :
  (Monster.d_name data = ""%string \/ Monster.d_stats data = None \/
   Monster.d_hp data <= 0) ->
  exists msg, Monster.new data = Throw msg.
Proof.
  intros H. unfold Monster.new.
  destruct (Monster.d_stats data) as [st|]; [|eauto].
  destruct (String.eqb_spec (Monster.d_name data) "") as [|Hn]; simpl; [eauto|].
  destruct (Z.eqb_spec (Monster.d_hp data) 0) as [|Hz]; simpl; [eauto|].
  unfold Bar.new. destruct (Z.leb_spec (Monster.d_hp data) 0); simpl; [eauto|].
  destruct H as [H|[H|H]]; [contradiction | discriminate | lia].
Qed.

Lemma Monster_takeDamage_bar m (amount : Z) :
  Monster.hpBar (snd (Monster.takeDamage m amount))
  = Bar.adjust (Monster.hpBar m) (- amount) /\
  Monster.stats (snd (Monster.takeDamage m amount)) = Monster.stats m /\
  fst (Monster.takeDamage m amount)
  = Bar.isEmpty (Bar.adjust (Monster.hpBar m) (- amount)).
Proof. rewrite Monster_takeDamage_spec. repeat split. Qed.

End MonsterMore.

(** X15.  On monster data of the shape the prompt asks for (a string as
    name, an integer as hp, stats an object with integer entries or
    absent) the Monster constructor accepts exactly when the name is not
    empty, the stats are present and the hp is positive.  It then starts
    the monster at full health hp/hp, leaves the "HP" entry of the stats
    out of the StatBlock, and takes 10 as base experience when none (or
    0) is given.  Otherwise it throws. *)
Theorem Monster_new_validation (data : Monster.Data) :
  (forall st,
     Monster.d_name data <> ""%string ->
     Monster.d_stats data = Some st ->
     0 < Monster.d_hp data ->
     exists m, Monster.new data = Ok m /\
       Bar.value (Monster.hpBar m) = Monster.d_hp data /\
       Bar.max (Monster.hpBar m) = Monster.d_hp data /\
       Bar.inv (Monster.hpBar m) /\
       Stats.wf (Monster.stats m) /\
       (forall k, In k StatType.values ->
          Stats.get (Monster.stats m) k = Ok (Some (default 10 (st !! k)))) /\
       (exists msg, Stats.get (Monster.stats m) "HP" = Throw msg) /\
       Monster.baseExp m = Js.or (Monster.d_base_exp data) 10) /\
  ((Monster.d_name data = ""%string \/ Monster.d_stats data = None \/
    Monster.d_hp data <= 0) ->
   exists msg, Monster.new data = Throw msg).
Proof.
  split; [|apply Monster_new_throws].
  intros st Hn Hst Hhp.
  destruct (Monster_new_ok data st Hn Hst Hhp) as (m & Hm & _ & Hs & Hb & He).
  exists m. split; [exact Hm|]. rewrite Hb, Hs. cbn [Bar.value Bar.max Bar._position Bar._max].
  split; [reflexivity|]. split; [reflexivity|].
  split; [unfold Bar.inv; simpl; lia|].
  split; [apply Stats_new_wf|]. split; [|split; [|exact He]].
  - intros k Hk. rewrite <- Hs.
    exact (Monster_new_get data m st k Hm Hst Hk).
  - apply Stats_unrecognised; [|discriminate].
    unfold StatType.values; simpl. intros H.
    repeat (destruct H as [H|H]; [discriminate H|]). exact H.
Qed.

Lemma Monster_new_validation_witness :
  (exists m, Monster.new (Examples.monsterData 10 {[ "HP"%string := 99 ]}) = Ok m /\
             Bar.value (Monster.hpBar m) = 10) /\
  (exists msg, Monster.new (Examples.monsterData 0 ∅) = Throw msg).
Proof.
  split.
  - destruct (proj1 (Monster_new_validation
                       (Examples.monsterData 10 {[ "HP"%string := 99 ]}))
                {[ "HP"%string := 99 ]})
      as (m & Hm & Hv & _); [discriminate | reflexivity | reflexivity|].
    exists m. split; assumption.
  - apply (proj2 (Monster_new_validation (Examples.monsterData 0 ∅))).
    right. right. discriminate.
Defined.



Section MonsterGeneration.

Implicit Types (level : Z) (data : Monster.Data).

Lemma half_floor (z : Z) : Qfloor (inject_Z z / 2) = z / 2.
Proof. apply (Qfloor_eq _ z 2). unfold Qeq; simpl. lia. Qed.

Lemma difficulty_cases level :
  (level <= 3 /\ Monster.difficulty level =
     Monster.mkDifficulty 10 25 5 12 (10 + (level - 1) * 5)) \/
  (3 < level <= 7 /\ Monster.difficulty level =
     Monster.mkDifficulty 25 50 8 15 (20 + (level - 3) * 10)) \/
  (7 < level /\ Monster.difficulty level =
     Monster.mkDifficulty 50 100 12 18 (50 + (level - 7) * 15)).
Proof.
  unfold Monster.difficulty.
  destruct (Z.leb_spec level 3); [left; split; [lia | reflexivity]|].
  destruct (Z.leb_spec level 7); [right; left | right; right];
    (split; [lia | reflexivity]).
Qed.


End MonsterGeneration.



(** X18.  The difficulty tiers of [createLLMMonster]: the base
    experience suggested to the generator grows strictly with the
    player's level, across the tier boundaries too; the example hp of
    the prompt lies within the tier's hp range, and the hp of the
    fallback monster never exceeds the tier's maximum. *)
Theorem difficulty_scaling (level : Z) :
  (forall higher, level < higher ->
     Monster.baseExp_hint (Monster.difficulty level)
     < Monster.baseExp_hint (Monster.difficulty higher)) /\
  Monster.minHp (Monster.difficulty level) <= Monster.exampleHp level
  <= Monster.maxHp_hint (Monster.difficulty level) /\
  Monster.minStat (Monster.difficulty level)
  <= Monster.maxStat (Monster.difficulty level) /\
  Monster.d_hp (Monster.fallbackData level)
  <= Monster.maxHp_hint (Monster.difficulty level).
Proof.
  split; [|split; [|split]].
  - intros higher Hlt.
    destruct (difficulty_cases level) as [[? ->]|[[? ->]|[? ->]]];
      destruct (difficulty_cases higher) as [[? ->]|[[? ->]|[? ->]]];
      cbn [Monster.baseExp_hint]; lia.
  - unfold Monster.exampleHp. rewrite half_floor.
    destruct (difficulty_cases level) as [[? ->]|[[? ->]|[? ->]]];
      cbn [Monster.minHp Monster.maxHp_hint]; split; discriminate.
  - destruct (difficulty_cases level) as [[? ->]|[[? ->]|[? ->]]];
      cbn [Monster.minStat Monster.maxStat]; lia.
  - unfold Monster.fallbackData. cbn [Monster.d_hp]. lia.
Qed.

Lemma difficulty_scaling_witness :
  Monster.baseExp_hint (Monster.difficulty 3)
  < Monster.baseExp_hint (Monster.difficulty 4).
Proof. apply (proj1 (difficulty_scaling 3) 4). lia. Defined.

(** ** More on the Player *)

Section PlayerMore.

Variable D : PlayerDefaults.

Implicit Types (p : Player.t) (data : Player.Data).

Lemma maxima_wf (lvl : Level.t) (st : Stats.t) :
  Stats.wf st ->
  exists con int,
    Stats.get st StatType.CONSTITUTION = Ok (Some con) /\
    Stats.get st StatType.INTELLIGENCE = Ok (Some int) /\
    Player.maxHp_of D lvl st
    = Ok (DEFAULT_PLAYER_BASE_HP D + Level.value lvl * 5 + (con - 10) / 2 * 2) /\
    Player.maxMp_of lvl st
    = Ok (10 + Level.value lvl * 2 + (int - 10) / 2 * 1).
Proof.
  intros Hst.
  destruct (Stats_wf_get st StatType.CONSTITUTION Hst) as (con & Hc & Hcb);
    [right; right; left; reflexivity|].
  destruct (Stats_wf_get st StatType.INTELLIGENCE Hst) as (int & Hi & Hib);
    [right; right; right; left; reflexivity|].
  exists con, int. unfold Player.maxHp_of, Player.maxMp_of.
  rewrite Hcb, Hib, !calculateStatBonus_eq. repeat split; assumption.
Qed.

Lemma Player_new_eq data :
  let level := Level.new (Some (Js.or (Player.d_level data) 1))
                         (Some (Js.or (Player.d_exp data) 0)) in
  let stats := Stats.new (default (DEFAULT_PLAYER_STATS D) (Player.d_stats data)) in
  forall mh mm,
    Player.maxHp_of D level stats = Ok mh ->
    Player.maxMp_of level stats = Ok mm ->
    Player.new D data =
    if (Js.or (Player.d_hp data) mh <=? 0) then
      Throw "The maximum value of a Bar must be greater than 0."
    else if (Js.or (Player.d_mp data) mm <=? 0) then
      Throw "The maximum value of a Bar must be greater than 0."
    else
      Ok {| Player.name :=
              match Player.d_name data with
              | Some s => if String.eqb s "" then "Elf Warrior"%string else s
              | None => "Elf Warrior"%string
              end;
            Player.gold := Js.or (Player.d_gold data) 0;
            Player.level := level; Player.stats := stats;
            Player.hpBar :=
              {| Bar._max := Js.or (Player.d_hp data) mh;
                 Bar._position := Z.min (Z.max 0 mh) (Js.or (Player.d_hp data) mh) |};
            Player.mpBar :=
              {| Bar._max := Js.or (Player.d_mp data) mm;
                 Bar._position := Z.min (Z.max 0 mm) (Js.or (Player.d_mp data) mm) |};
            Player.inventory := default [] (Player.d_inventory data);
            Player.equippedWeapon :=
              Some (default Player.WornDagger (Player.d_equippedWeapon data)) |}.
Proof.
  intros level stats mh mm Hh Hm. unfold Player.new. fold level stats.
  rewrite Hh. exec. unfold Bar.new.
  destruct (_ <=? 0); [reflexivity|]. exec. rewrite Hm. exec.
  destruct (_ <=? 0); reflexivity.
Qed.

Lemma Player_takeDamage_spec p (amount : Z) :
  Player.takeDamage p amount =
  (Bar.isEmpty (Bar.adjust (Player.hpBar p) (- amount)),
   Player.with_hpBar p (Bar.adjust (Player.hpBar p) (- amount))).
Proof.
  unfold Player.takeDamage, Player.with_hpBar, Bar.adjust. simpl.
  rewrite Z.add_opp_r. now destruct (Bar.isEmpty _).
Qed.

End PlayerMore.

(** X19.  The Player constructor succeeds exactly when the maximum it
    gives each bar is positive: the supplied [hp] (resp. [mp]) if given
    and not 0, else the computed maximum.  A player it returns always
    has a weapon equipped (the Worn Dagger unless one was supplied), a
    non-empty name, bars within their bounds, all six abilities and a
    threshold that matches the level.  The HP position starts at the
    computed maximum, clamped into the bar. *)
Theorem Player_new_spec (D : PlayerDefaults) (data : Player.Data) :
  let level := Level.new (Some (Js.or (Player.d_level data) 1))
                         (Some (Js.or (Player.d_exp data) 0)) in
  let stats := Stats.new (default (DEFAULT_PLAYER_STATS D) (Player.d_stats data)) in
  exists mh mm,
    Player.maxHp_of D level stats = Ok mh /\
    Player.maxMp_of level stats = Ok mm /\
    (is_Ok (Player.new D data) = true <->
     0 < Js.or (Player.d_hp data) mh /\ 0 < Js.or (Player.d_mp data) mm) /\
    (forall p, Player.new D data = Ok p ->
       Player.equippedWeapon p
       = Some (default Player.WornDagger (Player.d_equippedWeapon data)) /\
       Player.name p <> ""%string /\
       Bar.inv (Player.hpBar p) /\ Bar.inv (Player.mpBar p) /\
       Stats.wf (Player.stats p) /\ Level.consistent (Player.level p) /\
       Bar.max (Player.hpBar p) = Js.or (Player.d_hp data) mh /\
       Bar.value (Player.hpBar p)
       = Bar.clamp 0 mh (Js.or (Player.d_hp data) mh)).
Proof.
  intros level stats.
  destruct (maxima_wf D level stats (Stats_new_wf _)) as (con & int & _ & _ & Hh & Hm).
  eexists _, _. split; [exact Hh|]. split; [exact Hm|].
  rewrite (Player_new_eq D data _ _ Hh Hm).
  set (mh := DEFAULT_PLAYER_BASE_HP D + _ + _) in *.
  set (mm := 10 + _ + _) in *.
  destruct (Z.leb_spec (Js.or (Player.d_hp data) mh) 0) as [Hhp|Hhp];
    [cbn [is_Ok];
     split; [split; [intros H; discriminate H | intros H; exfalso; lia]
            | intros p H; discriminate H]|].
  destruct (Z.leb_spec (Js.or (Player.d_mp data) mm) 0) as [Hmp|Hmp];
    [cbn [is_Ok];
     split; [split; [intros H; discriminate H | intros H; exfalso; lia]
            | intros p H; discriminate H]|].
  cbn [is_Ok]. split; [split; [lia | reflexivity]|].
  intros p [= <-]. cbn [Player.equippedWeapon Player.name Player.hpBar
                        Player.mpBar Player.stats Player.level].
  split; [reflexivity|]. split.
  { destruct (Player.d_name data) as [s|]; [|discriminate].
    destruct (String.eqb_spec s ""); [discriminate | assumption]. }
  split; [unfold Bar.inv; simpl; lia|].
  split; [unfold Bar.inv; simpl; lia|].
  split; [apply Stats_new_wf|]. split; [apply Level_consistent_new|].
  split; reflexivity.
Qed.



Lemma Player_new_spec_witness :
  exists p, Player.new Examples.defaults (Examples.playerData ∅ None) = Ok p /\
            Player.equippedWeapon p = Some Player.WornDagger /\
            Bar.inv (Player.hpBar p).
Proof.
  destruct (Player_new_spec Examples.defaults (Examples.playerData ∅ None))
    as (mh & mm & _ & _ & _ & Hp).
  eexists. split; [reflexivity|].
  destruct (Hp _ eq_refl) as (Hw & _ & Hinv & _). split; assumption.
Defined.

Section PlayerProgress.

Variable D : PlayerDefaults.

Implicit Types (p : Player.t).

Lemma with_hpBar_same p : Player.with_hpBar p (Player.hpBar p) = p.
Proof. now destruct p. Qed.

Lemma Player_levelUp_ok p (mh mm : Z) :
  Player.maxHp D p = Ok mh -> Player.maxMp p = Ok mm ->
  0 < mh -> 0 < mm ->
  Player.levelUp D p =
  (Ok tt,
   Player.with_mpBar
     (Player.with_hpBar p {| Bar._max := mh; Bar._position := mh |})
     {| Bar._max := mm; Bar._position := mm |}).
Proof.
  intros Hh Hm Hhp Hmp. unfold Player.levelUp. rewrite Hh.
  rewrite Bar_set_max_ok by exact Hhp.
  cbv zeta. unfold Player.maxMp in *.
  cbn [Player.with_hpBar Player.level Player.stats Player.mpBar Player.hpBar].
  rewrite Hm. rewrite Bar_set_max_ok by exact Hmp.
  unfold Player.with_mpBar, Player.with_hpBar, Bar.set_value, Bar.max.
  cbn [Player.name Player.gold Player.level Player.stats Player.hpBar
       Player.mpBar Player.inventory Player.equippedWeapon Bar._max Bar._position].
  do 2 f_equal; f_equal; lia.
Qed.

Lemma Player_levelUp_throws p (mh : Z) :
  Player.maxHp D p = Ok mh -> mh <= 0 ->
  exists msg, Player.levelUp D p = (Throw msg, p).
Proof.
  intros Hh Hhp. unfold Player.levelUp. rewrite Hh.
  destruct (Bar_set_max_throws (Player.hpBar p) mh Hhp) as [msg ->].
  exists msg. now rewrite with_hpBar_same.
Qed.

End PlayerProgress.

(** X21.  [Player.gainExp] records the experience in the level track.
    Without a level-up nothing else changes.  With a level-up, and
    positive new maxima, both bars are set to their new maximum and
    filled; the maximum HP has grown by 5 for every level gained.  If
    the new maximum HP is not positive the [max] setter throws, and the
    level has already been raised. *)
Theorem Player_gainExp_spec (D : PlayerDefaults) (p : Player.t) (amount : Z) :
  Stats.wf (Player.stats p) ->
  let r := Level.gainExp (Player.level p) amount in
  let p1 := Player.with_level p (snd r) in
  exists mh0 mh mm,
    Player.maxHp D p = Ok mh0 /\
    Player.maxHp D p1 = Ok mh /\ Player.maxMp p1 = Ok mm /\
    mh = mh0 + 5 * (Level.value (snd r) - Level.value (Player.level p)) /\
    (fst r = false -> Player.gainExp D amount p = (Ok tt, p1)) /\
    (fst r = true -> 0 < mh -> 0 < mm ->
     Player.gainExp D amount p =
     (Ok tt,
      Player.with_mpBar
        (Player.with_hpBar p1 {| Bar._max := mh; Bar._position := mh |})
        {| Bar._max := mm; Bar._position := mm |})) /\
    (fst r = true -> mh <= 0 ->
     exists msg, Player.gainExp D amount p = (Throw msg, p1)).
Proof.
  intros Hst r p1.
  destruct (maxima_wf D (Player.level p) (Player.stats p) Hst)
    as (con & int & Hc & Hi & Hh0 & _).
  destruct (maxima_wf D (snd r) (Player.stats p) Hst)
    as (con' & int' & Hc' & Hi' & Hh & Hm).
  rewrite Hc in Hc'. injection Hc' as <-.
  eexists _, _, _. split; [exact Hh0|]. split; [exact Hh|]. split; [exact Hm|].
  split; [lia|].
  assert (Hg : Player.gainExp D amount p =
               if fst r then Player.levelUp D p1 else (Ok tt, p1)).
  { unfold Player.gainExp. subst p1 r.
    now destruct (Level.gainExp (Player.level p) amount). }
  rewrite Hg. split; [|split].
  - now intros ->.
  - intros -> H1 H2. now apply Player_levelUp_ok.
  - intros -> H1. now apply (Player_levelUp_throws D p1 _ Hh).
Qed.

Lemma Player_gainExp_spec_witness :
  let p := Examples.player ∅ (Some Player.WornDagger) in
  exists p', Player.gainExp Examples.defaults 150 p = (Ok tt, p') /\
             Player.hpBar p' = {| Bar._max := 30; Bar._position := 30 |} /\
             Level.value (Player.level p') = 2.
Proof.
  intros p.
  destruct (Player_gainExp_spec Examples.defaults p 150 (Stats_new_wf ∅))
    as (mh0 & mh & mm & H0 & H1 & H2 & _ & _ & Hup & _).
  injection H1 as <-. injection H2 as <-.
  eexists. split; [apply Hup; reflexivity | split; reflexivity].
Defined.

Section UnparsableWeapon.

Lemma split_no_separator (s : string) :
  ~ In "d"%char (list_ascii_of_string s) -> Js.split "d" s = [s].
Proof.
  induction s as [|c s IH]; simpl; [reflexivity|].
  intros H. destruct (Ascii.eqb_spec c "d") as [->|Hne]; [tauto|].
  rewrite IH by tauto. reflexivity.
Qed.

End UnparsableWeapon.

(** X22.  A weapon whose damage text is not empty and has no "d" in it
    gives the player an attack power that is not a number: the part
    after the separator is [undefined] and [parseInt] fails on it. *)
Theorem Player_attackPower_unparsable
    (p : Player.t) (v : Z) (w : Player.Item) (damage : string) :
  Stats.get (Player.stats p) StatType.STRENGTH = Ok (Some v) ->
  Player.equippedWeapon p = Some w ->
  Player.i_damage w = Some damage ->
  damage <> ""%string ->
  ~ In "d"%char (list_ascii_of_string damage) ->
  Player.attackPower p = NaN.
Proof.
  intros Hv Hw Hd Hne Hsep. unfold Player.attackPower.
  rewrite (getBonus_get _ _ v) by (exact Hv || (left; reflexivity)).
  exec. rewrite Hw, Hd.
  destruct (String.eqb_spec damage "") as [|_]; [contradiction|].
  rewrite split_no_separator by exact Hsep. reflexivity.
Qed.

Lemma Player_attackPower_unparsable_witness :
  Player.attackPower (Examples.player ∅ (Some (Examples.weapon "7"))) = NaN.
Proof.
  apply (Player_attackPower_unparsable _ 10 (Examples.weapon "7") "7");
    try reflexivity; [discriminate|].
  simpl. intros [H|[]]. discriminate H.
Defined.

(** ** More on the combat *)

Section TurnProperties.

Import Utils.

Variable K : GameConstants.

Implicit Types (p : Player.t) (m : Monster.t) (g : Rng) (att : Main.Attack).

Lemma Qlt_bool_never (r x : Q) :
  (0 <= r)%Q -> (x <= 0)%Q -> Js.Qlt_bool r (x / 100) = false.
Proof.
  intros Hr Hx. unfold Js.Qlt_bool.
  assert (E : Qle_bool (x / 100) r = true).
  { apply Qle_bool_iff. eapply Qle_trans; [|exact Hr].
    unfold Qle, Qdiv, Qmult in *; simpl in *. lia. }
  now rewrite E.
Qed.

Lemma Qlt_bool_always (r x : Q) :
  (r < 1)%Q -> (100 <= x)%Q -> Js.Qlt_bool r (x / 100) = true.
Proof.
  intros Hr Hx. unfold Js.Qlt_bool.
  destruct (Qle_bool (x / 100) r) eqn:E; [|reflexivity].
  apply Qle_bool_iff in E. exfalso.
  apply (Qlt_not_le _ _ Hr). eapply Qle_trans; [|exact E].
  unfold Qle, Qdiv, Qmult in *; simpl in *. lia.
Qed.

Lemma Player_takeDamage_zero p :
  Bar.inv (Player.hpBar p) ->
  snd (Player.takeDamage p 0) = p.
Proof.
  intros (Hp & Hm). rewrite Player_takeDamage_spec. cbn [snd].
  destruct p as [n gd lv st [hm hp] mp inv w].
  unfold Player.with_hpBar, Bar.adjust, Bar.set_value, Bar.value in *.
  simpl in *. do 2 f_equal. lia.
Qed.

(** What a player's turn leaves of the monster. *)
Lemma playerTurn_effect p m g att m' g' :
  Main.playerTurn K p m g = Ok (att, m', g') ->
  m' = (if Main.hit att then snd (Monster.takeDamage m (Main.damage att)) else m) /\
  (Main.hit att = true -> 1 <= Main.damage att) /\
  (Main.hit att = false -> Main.damage att = 0 /\ Main.defeated att = false) /\
  (Main.hit att = true ->
   Main.defeated att = fst (Monster.takeDamage m (Main.damage att))) /\
  draws g' = draws g /\ (taken g < taken g')%nat.
Proof.
  intros H. destruct (playerTurn_inv K p m g att m' g' H) as (h & _ & Hc).
  destruct (Js.Qlt_bool _ (h / 100)).
  - destruct Hc as (c & ap & d & _ & _ & _ & -> & -> & ->).
    cbn [Main.hit Main.damage Main.defeated draws taken].
    repeat split; try discriminate; try lia; intros; apply mitigated_min.
  - destruct Hc as (-> & -> & ->). cbn. repeat split; try discriminate; lia.
Qed.

(** What a monster's turn leaves of the player. *)
Lemma monsterTurn_effect (action : Main.ActionType) m p g o p' g' :
  Main.monsterTurn K action m p g = Ok (o, p', g') ->
  (exists dmg, 0 <= dmg /\ p' = snd (Player.takeDamage p dmg)) \/ p' = p.
Proof.
  destruct action; [|intros [= <- <- <-]; now right].
  unfold Main.monsterTurn, odds, random. exec.
  destruct (Js.Qlt_bool _ _); [|intros [= <- <- <-]; now right].
  destruct (Monster.attackPower m) as [ap| |]; try discriminate.
  destruct (Player.defense p) as [d| |]; try discriminate.
  destruct (Player.evasionRate K p) as [e| |]; try discriminate.
  exec. destruct (Js.Qlt_bool _ (e / 100));
    destruct (Player.takeDamage p _) as [b q] eqn:E; intros [= <- <- <-];
    left; eexists; (split; [|now rewrite E]); lia.
Qed.

End TurnProperties.

(** X23.  An attacker whose hit chance is 0 or less always misses: the
    turn takes one draw and leaves the defender exactly as it was.  This
    holds for the player's attack and for the monster's. *)
Theorem forced_miss (K : GameConstants)
    (p : Player.t) (m : Monster.t) (g : Utils.Rng) :
  Utils.uniform g ->
  (forall h, Player.hitChance K p = Ok h -> (h <= 0)%Q ->
     Main.playerTurn K p m g
     = Ok (Main.missed, m,
           {| Utils.draws := Utils.draws g; Utils.taken := S (Utils.taken g) |})) /\
  ((Monster.hitChance K m <= 0)%Q ->
     Main.monsterTurn K Main.attack m p g
     = Ok (Some Main.missed, p,
           {| Utils.draws := Utils.draws g; Utils.taken := S (Utils.taken g) |})).
Proof.
  intros Hg. destruct (Hg (Utils.taken g)) as [H0 _]. split.
  - intros h Hh Hle. unfold Main.playerTurn, Utils.odds, Utils.random.
    rewrite Hh. exec. now rewrite (Qlt_bool_never _ h H0 Hle).
  - intros Hle. unfold Main.monsterTurn, Utils.odds, Utils.random. exec.
    now rewrite (Qlt_bool_never _ _ H0 Hle).
Qed.

Lemma forced_miss_witness :
  let K := {| BASE_HIT_CHANCE := 0; BASE_EVASION_RATE := 0;
              BASE_CRITICAL_CHANCE := 0; CRITICAL_MULTIPLIER := 2 |} in
  let p := Examples.player ∅ (Some Player.WornDagger) in
  let m := Examples.monster 10 ∅ in
  Main.playerTurn K p m (Examples.always 0)
  = Ok (Main.missed, m, {| Utils.draws := fun _ => 0%Q; Utils.taken := 1 |}).
Proof.
  intros K p m.
  assert (Hg : Utils.uniform (Examples.always 0))
    by (intros i; split; [discriminate | reflexivity]).
  apply (proj1 (forced_miss K p m _ Hg) 0%Q); [reflexivity | discriminate].
Defined.

(** X24.  A player whose evasion rate is 100 or more cannot be hurt:
    whatever the monster does and whatever is drawn, the monster's turn
    leaves the player exactly as before. *)
Theorem certain_evasion (K : GameConstants) (action : Main.ActionType)
    (p : Player.t) (m : Monster.t) (g : Utils.Rng) (e : Q) (ap d : Z) :
  Utils.uniform g ->
  Bar.inv (Player.hpBar p) ->
  Player.evasionRate K p = Ok e -> (100 <= e)%Q ->
  Monster.attackPower m = Ok ap -> Player.defense p = Ok d ->
  exists o g', Main.monsterTurn K action m p g = Ok (o, p, g') /\
               match o with
               | Some att => Main.damage att = 0
               | None => True
               end.
Proof.
  intros Hg Hinv He Hle Hap Hd. destruct action.
  - rewrite (monsterTurn_eq K m p g e ap d Hap Hd He).
    destruct (Js.Qlt_bool _ (Monster.hitChance K m / 100)).
    + cbv zeta.
      rewrite (Qlt_bool_always _ e (proj2 (Hg _)) Hle).
      rewrite (Player_takeDamage_zero p Hinv). eexists _, _.
      split; reflexivity.
    + eexists _, _. split; reflexivity.
  - eexists _, _. split; reflexivity.
Qed.

Lemma certain_evasion_witness :
  let p := Examples.player ∅ (Some Player.WornDagger) in
  let m := Examples.monster 10 ∅ in
  exists o g', Main.monsterTurn Examples.evasive Main.attack m p
                 (Examples.always (1 # 2)) = Ok (o, p, g') /\
               match o with
               | Some att => Main.damage att = 0
               | None => True
               end.
Proof.
  intros p m.
  apply (certain_evasion Examples.evasive Main.attack p m _ 100%Q 10 2).
  - intros i; split; [discriminate | reflexivity].
  - unfold Bar.inv; simpl; lia.
  - reflexivity.
  - discriminate.
  - reflexivity.
  - reflexivity.
Defined.

Section CombatLoop.

Import Utils.

Variable K : GameConstants.

Implicit Types (p : Player.t) (m : Monster.t) (g : Rng) (att : Main.Attack).

Lemma worn_down_refl p m :
  Bar.inv (Player.hpBar p) -> Bar.inv (Monster.hpBar m) ->
  Main.worn_down p m p m.
Proof.
  intros (Hp & _) (Hm & _). split.
  - exists (Bar.value (Player.hpBar p)). split; [unfold Bar.value; lia|].
    now destruct p as [? ? ? ? [? ?] ? ? ?].
  - exists (Bar.value (Monster.hpBar m)). split; [unfold Bar.value; lia|].
    now destruct m as [? ? ? ? ? ? [? ?]].
Qed.

Lemma worn_down_trans p m p1 m1 p2 m2 :
  Main.worn_down p m p1 m1 -> Main.worn_down p1 m1 p2 m2 ->
  Main.worn_down p m p2 m2.
Proof.
  intros [(a & Ha & ->) (b & Hb & ->)] [(a' & Ha' & ->) (b' & Hb' & ->)].
  unfold Bar.value, Bar.max, Player.with_hpBar, Monster.with_hpBar in *.
  simpl in *. split.
  - exists a'. split; [unfold Bar.value; lia | reflexivity].
  - exists b'. split; [unfold Bar.value; lia | reflexivity].
Qed.

Lemma worn_down_inv p m p' m' :
  Bar.inv (Player.hpBar p) -> Bar.inv (Monster.hpBar m) ->
  Main.worn_down p m p' m' ->
  Bar.inv (Player.hpBar p') /\ Bar.inv (Monster.hpBar m') /\
  Bar.value (Player.hpBar p') <= Bar.value (Player.hpBar p) /\
  Bar.value (Monster.hpBar m') <= Bar.value (Monster.hpBar m) /\
  Player.stats p' = Player.stats p /\ Monster.stats m' = Monster.stats m /\
  Player.equippedWeapon p' = Player.equippedWeapon p /\
  Player.level p' = Player.level p.
Proof.
  intros (Hp & Hpm) (Hm & Hmm) [(a & Ha & ->) (b & Hb & ->)].
  unfold Bar.inv, Bar.value, Bar.max, Player.with_hpBar, Monster.with_hpBar in *.
  simpl. repeat split; lia.
Qed.

Lemma Monster_hurt p m (dmg : Z) :
  Bar.inv (Player.hpBar p) -> Bar.inv (Monster.hpBar m) -> 0 <= dmg ->
  Main.worn_down p m p (snd (Monster.takeDamage m dmg)).
Proof.
  intros Hp Hm Hd. split; [apply (worn_down_refl p m Hp Hm)|].
  rewrite Monster_takeDamage_spec. cbn [snd].
  destruct Hm as (Hpos & Hmax).
  exists (Z.max 0 (Bar.value (Monster.hpBar m) - dmg)).
  unfold Bar.value, Bar.max in *. split; [lia|].
  unfold Monster.with_hpBar, Bar.adjust, Bar.set_value, Bar.value.
  cbn [Bar._max Bar._position]. do 2 f_equal. lia.
Qed.

Lemma Player_hurt p m (dmg : Z) :
  Bar.inv (Player.hpBar p) -> Bar.inv (Monster.hpBar m) -> 0 <= dmg ->
  Main.worn_down p m (snd (Player.takeDamage p dmg)) m.
Proof.
  intros Hp Hm Hd. split; [|apply (worn_down_refl p m Hp Hm)].
  rewrite Player_takeDamage_spec. cbn [snd].
  destruct Hp as (Hpos & Hmax).
  exists (Z.max 0 (Bar.value (Player.hpBar p) - dmg)).
  unfold Bar.value, Bar.max in *. split; [lia|].
  unfold Player.with_hpBar, Bar.adjust, Bar.set_value, Bar.value.
  cbn [Bar._max Bar._position]. do 2 f_equal. lia.
Qed.

(** Whatever the monster's turn returns, it was computed this way. *)
Lemma monsterTurn_inv (action : Main.ActionType) m p g o p' g' :
  Main.monsterTurn K action m p g = Ok (o, p', g') ->
  draws g' = draws g /\
  match o with
  | None => action = Main.defend /\ p' = p
  | Some att =>
      action = Main.attack /\ 0 <= Main.damage att /\
      p' = (if Main.hit att
            then snd (Player.takeDamage p (Main.damage att)) else p) /\
      (Main.hit att = false -> Main.damage att = 0) /\
      (Main.evaded att = true -> Main.damage att = 0) /\
      (Main.hit att = true ->
       Main.defeated att = fst (Player.takeDamage p (Main.damage att)))
  end.
Proof.
  destruct action; [|intros [= <- <- <-]; repeat split].
  unfold Main.monsterTurn, odds, random. exec.
  destruct (Js.Qlt_bool _ _);
    [|intros [= <- <- <-]; cbn; repeat split; (lia || discriminate)].
  destruct (Monster.attackPower m) as [ap| |]; try discriminate.
  destruct (Player.defense p) as [d| |]; try discriminate.
  destruct (Player.evasionRate K p) as [e| |]; try discriminate.
  exec. destruct (Js.Qlt_bool _ (e / 100)); exec; cbn [draws taken];
    try set (dmg := Z.max 1 _);
    destruct (Player.takeDamage p _) as [b q] eqn:E; intros [= <- <- <-];
    cbn [Main.hit Main.damage Main.evaded Main.defeated];
    rewrite E; repeat split; (lia || discriminate).
Qed.

Lemma playerTurn_worn p m g att m' g' :
  Bar.inv (Player.hpBar p) -> Bar.inv (Monster.hpBar m) ->
  Main.playerTurn K p m g = Ok (att, m', g') ->
  Main.worn_down p m p m' /\ draws g' = draws g.
Proof.
  intros Hp Hm H.
  destruct (playerTurn_effect K p m g att m' g' H) as (-> & Hd & _ & _ & Hg & _).
  split; [|exact Hg]. destruct (Main.hit att).
  - apply Monster_hurt; [assumption ..|]. specialize (Hd eq_refl). lia.
  - now apply worn_down_refl.
Qed.

Lemma monsterTurn_worn (action : Main.ActionType) p m g o p' g' :
  Bar.inv (Player.hpBar p) -> Bar.inv (Monster.hpBar m) ->
  Main.monsterTurn K action m p g = Ok (o, p', g') ->
  Main.worn_down p m p' m /\ draws g' = draws g.
Proof.
  intros Hp Hm H.
  destruct (monsterTurn_inv action m p g o p' g' H) as (Hg & Ho).
  split; [|exact Hg]. destruct o as [att|].
  - destruct Ho as (_ & Hd & -> & _). destruct (Main.hit att).
    + now apply Player_hurt.
    + now apply worn_down_refl.
  - destruct Ho as (_ & ->). now apply worn_down_refl.
Qed.

(** The loop, one turn unfolded. *)
Lemma combatPhase_step (fuel : nat) (chooseAction : nat -> Main.ActionType)
    (turn : nat) p m g :
  Main.combatPhase K (S fuel) chooseAction turn p m g =
  if negb (Bar.isEmpty (Player.hpBar p)) && negb (Bar.isEmpty (Monster.hpBar m))
  then
    r ← Main.playerTurn K p m g;
    let '(_, m1, g1) := r in
    if Bar.isEmpty (Monster.hpBar m1) then Ok (Main.LoopEnded p m1 g1)
    else
      r ← Main.monsterTurn K (chooseAction (S turn)) m1 p g1;
      let '(_, p1, g2) := r in
      if Bar.isEmpty (Player.hpBar p1) then Ok (Main.GameOver p1 m1 g2)
      else Main.combatPhase K fuel chooseAction (S turn) p1 m1 g2
  else Ok (Main.LoopEnded p m g).
Proof. reflexivity. Qed.

Lemma combat_outcome_aux (chooseAction : nat -> Main.ActionType) (fuel : nat) :
  forall (turn : nat) p m g c,
    Bar.inv (Player.hpBar p) -> Bar.inv (Monster.hpBar m) ->
    Main.combatPhase K fuel chooseAction turn p m g = Ok c ->
    match c with
    | Main.LoopEnded p' m' _ =>
        Main.worn_down p m p' m' /\
        (Bar.isEmpty (Player.hpBar p') = true \/
         Bar.isEmpty (Monster.hpBar m') = true)
    | Main.GameOver p' m' _ =>
        Main.worn_down p m p' m' /\
        Bar.isEmpty (Player.hpBar p') = true /\
        Bar.isEmpty (Monster.hpBar m') = false
    | Main.StillFighting p' m' _ =>
        Main.worn_down p m p' m' /\
        Bar.isEmpty (Player.hpBar p') = false /\
        Bar.isEmpty (Monster.hpBar m') = false
    end.
Proof.
  induction fuel as [|fuel IH]; intros turn p m g c Hp Hm.
  - cbn [Main.combatPhase].
    destruct (Bar.isEmpty (Player.hpBar p)) eqn:Ep;
      destruct (Bar.isEmpty (Monster.hpBar m)) eqn:Em; cbn [negb andb];
      intros [= <-]; (split; [now apply worn_down_refl | auto]).
  - rewrite combatPhase_step.
    destruct (Bar.isEmpty (Player.hpBar p)) eqn:Ep;
      [cbn [negb andb]; intros [= <-];
       split; [now apply worn_down_refl | auto]|].
    destruct (Bar.isEmpty (Monster.hpBar m)) eqn:Em;
      [cbn [negb andb]; intros [= <-];
       split; [now apply worn_down_refl | auto]|].
    cbn [negb andb].
    destruct (Main.playerTurn K p m g) as [[[att m1] g1]| |] eqn:Hpt;
      exec; try discriminate.
    destruct (playerTurn_worn p m g att m1 g1 Hp Hm Hpt) as (Hw1 & _).
    destruct (worn_down_inv p m p m1 Hp Hm Hw1) as (_ & Hm1 & _).
    destruct (Bar.isEmpty (Monster.hpBar m1)) eqn:Em1;
      [intros [= <-]; split; [exact Hw1 | auto]|].
    destruct (Main.monsterTurn K (chooseAction (S turn)) m1 p g1)
      as [[[o p1] g2]| |] eqn:Hmt; exec; try discriminate.
    destruct (monsterTurn_worn _ p m1 g1 o p1 g2 Hp Hm1 Hmt) as (Hw2 & _).
    destruct (worn_down_inv p m1 p1 m1 Hp Hm1 Hw2) as (Hp1 & _).
    pose proof (worn_down_trans _ _ _ _ _ _ Hw1 Hw2) as Hw.
    destruct (Bar.isEmpty (Player.hpBar p1)) eqn:Ep1;
      [intros [= <-]; split; [exact Hw | auto]|].
    intros Hrest. specialize (IH (S turn) p1 m1 g2 c Hp1 Hm1 Hrest).
    destruct c as [p' m' g'|p' m' g'|p' m' g']; destruct IH as (Hw' & Hrest');
      (split; [exact (worn_down_trans _ _ _ _ _ _ Hw Hw') | exact Hrest']).
Qed.

End CombatLoop.

(** X25.  An attack can only lower the defender's HP, by the damage it
    reports and never below 0, and changes nothing else about either
    fighter.  The defeat flag of an attack that hit tells whether the
    defender's bar is now empty. *)
Theorem turn_effect (K : GameConstants)
    (p : Player.t) (m : Monster.t) (g : Utils.Rng) :
  Bar.inv (Player.hpBar p) -> Bar.inv (Monster.hpBar m) ->
  (forall att m' g',
     Main.playerTurn K p m g = Ok (att, m', g') ->
     m' = Monster.with_hpBar m (Monster.hpBar m') /\
     Bar.max (Monster.hpBar m') = Bar.max (Monster.hpBar m) /\
     Bar.value (Monster.hpBar m')
     = Z.max 0 (Bar.value (Monster.hpBar m) - Main.damage att) /\
     0 <= Main.damage att /\
     (Main.hit att = true ->
      Main.defeated att = Bar.isEmpty (Monster.hpBar m'))) /\
  (forall action att p' g',
     Main.monsterTurn K action m p g = Ok (Some att, p', g') ->
     p' = Player.with_hpBar p (Player.hpBar p') /\
     Bar.max (Player.hpBar p') = Bar.max (Player.hpBar p) /\
     Bar.value (Player.hpBar p')
     = Z.max 0 (Bar.value (Player.hpBar p) - Main.damage att) /\
     0 <= Main.damage att /\
     (Main.hit att = true ->
      Main.defeated att = Bar.isEmpty (Player.hpBar p'))).
Proof.
  intros Hp Hm. split.
  - intros att m' g' H.
    destruct (playerTurn_effect K p m g att m' g' H)
      as (-> & Hd & Hmiss & Hdef & _).
    destruct Hm as (Hpos & Hmax). destruct (Main.hit att).
    + specialize (Hd eq_refl). rewrite (Hdef eq_refl).
      rewrite Monster_takeDamage_spec. cbn [fst snd Monster.hpBar].
      unfold Bar.adjust, Bar.set_value, Bar.value, Bar.max in *.
      cbn [Bar._max Bar._position].
      repeat split; lia.
    + destruct (Hmiss eq_refl) as (-> & _).
      unfold Bar.value, Bar.max in *.
      repeat split; try lia; try discriminate; now destruct m.
  - intros action att p' g' H.
    destruct (monsterTurn_inv K action m p g _ p' g' H)
      as (_ & _ & Hd & -> & Hmiss & _ & Hdef).
    destruct Hp as (Hpos & Hmax). destruct (Main.hit att).
    + rewrite (Hdef eq_refl). rewrite Player_takeDamage_spec.
      cbn [fst snd Player.hpBar Player.with_hpBar].
      unfold Bar.adjust, Bar.set_value, Bar.value, Bar.max in *.
      cbn [Bar._max Bar._position].
      repeat split; lia.
    + rewrite (Hmiss eq_refl). unfold Bar.value, Bar.max in *.
      repeat split; try lia; try discriminate; now destruct p.
Qed.

Lemma turn_effect_witness :
  let p := Examples.player {[ "STR"%string := 14 ]} (Some Player.WornDagger) in
  let m := Examples.monster 10 ∅ in
  exists att m' g',
    Main.playerTurn Examples.constants p m (Examples.always (3 # 4))
    = Ok (att, m', g') /\
    Bar.value (Monster.hpBar m') = Z.max 0 (10 - Main.damage att).
Proof.
  intros p m.
  assert (Hp : Bar.inv (Player.hpBar p)) by (unfold Bar.inv; simpl; lia).
  assert (Hm : Bar.inv (Monster.hpBar m)) by (unfold Bar.inv; simpl; lia).
  assert (Hturn : Main.playerTurn Examples.constants p m (Examples.always (3 # 4))
                  = Ok ({| Main.hit := true; Main.critical := false;
                           Main.evaded := false; Main.damage := 5;
                           Main.defeated := false |},
                        Monster.with_hpBar m (Bar.mk 10 5),
                        {| Utils.draws := fun _ => (3 # 4)%Q; Utils.taken := 2 |}))
    by reflexivity.
  eexists _, _, _. split; [exact Hturn|].
  apply (proj1 (turn_effect Examples.constants p m _ Hp Hm) _ _ _ Hturn).
Defined.

(** X26.  However the combat phase ends, nothing but the two HP
    positions has changed and neither has gone up.  When the loop is
    left one of the two bars is empty; the game is over only with the
    player's bar empty and the monster's not; and while the fight is
    still on both bars are above 0. *)
Theorem combat_outcome (K : GameConstants)
    (chooseAction : nat -> Main.ActionType) (fuel turn : nat)
    (p : Player.t) (m : Monster.t) (g : Utils.Rng) (c : Main.Combat) :
  Bar.inv (Player.hpBar p) -> Bar.inv (Monster.hpBar m) ->
  Main.combatPhase K fuel chooseAction turn p m g = Ok c ->
  match c with
  | Main.LoopEnded p' m' _ =>
      Main.worn_down p m p' m' /\
      (Bar.isEmpty (Player.hpBar p') = true \/
       Bar.isEmpty (Monster.hpBar m') = true)
  | Main.GameOver p' m' _ =>
      Main.worn_down p m p' m' /\
      Bar.isEmpty (Player.hpBar p') = true /\
      Bar.isEmpty (Monster.hpBar m') = false
  | Main.StillFighting p' m' _ =>
      Main.worn_down p m p' m' /\
      Bar.isEmpty (Player.hpBar p') = false /\
      Bar.isEmpty (Monster.hpBar m') = false
  end.
Proof. apply combat_outcome_aux. Qed.

Lemma combat_outcome_witness :
  let p := Examples.player {[ "STR"%string := 14 ]} (Some Player.WornDagger) in
  let m := Examples.monster 10 ∅ in
  exists p' m' g',
    Main.combatPhase Examples.constants 5 (fun _ => Main.attack) 0 p m
                     (Examples.always (3 # 4))
    = Ok (Main.LoopEnded p' m' g') /\
    Bar.isEmpty (Monster.hpBar m') = true /\ Main.worn_down p m p' m'.
Proof.
  intros p m.
  assert (Hp : Bar.inv (Player.hpBar p)) by (unfold Bar.inv; simpl; lia).
  assert (Hm : Bar.inv (Monster.hpBar m)) by (unfold Bar.inv; simpl; lia).
  assert (Hend : Main.combatPhase Examples.constants 5 (fun _ => Main.attack)
                   0 p m (Examples.always (3 # 4))
                 = Ok (Main.LoopEnded
                         (Player.with_hpBar p (Bar.mk 25 17))
                         (Monster.with_hpBar m (Bar.mk 10 0))
                         {| Utils.draws := fun _ => (3 # 4)%Q;
                            Utils.taken := 7 |}))
    by (vm_compute; reflexivity).
  eexists _, _, _. split; [exact Hend|]. split; [reflexivity|].
  apply (combat_outcome Examples.constants (fun _ => Main.attack) 5 0 p m
           (Examples.always (3 # 4)) _ Hp Hm Hend).
Defined.

Section CombatTermination.

Import Utils.

Variable K : GameConstants.

Implicit Types (p : Player.t) (m : Monster.t) (g : Rng).

Lemma Player_getters_ok p :
  Stats.wf (Player.stats p) ->
  exists (d : Z) (h e c : Q),
    Player.defense p = Ok d /\ Player.hitChance K p = Ok h /\
    Player.evasionRate K p = Ok e /\ Player.criticalChance K p = Ok c.
Proof.
  intros Hw.
  destruct (Stats_wf_get (Player.stats p) StatType.DEXTERITY Hw)
    as (dex & _ & Hb); [right; left; reflexivity|].
  unfold Player.defense, Player.hitChance, Player.evasionRate,
    Player.criticalChance. cbn [StatType.LUCK default from_option id].
  rewrite Hb. exec. eexists _, _, _, _. repeat split.
Qed.

Lemma Monster_getters_ok m :
  Stats.wf (Monster.stats m) ->
  exists (ap : Z) (d : Q), Monster.attackPower m = Ok ap /\ Monster.defense m = Ok d.
Proof.
  intros Hw.
  destruct (Stats_wf_get (Monster.stats m) StatType.STRENGTH Hw)
    as (str & Hs & _); [left; reflexivity|].
  destruct (Stats_wf_get (Monster.stats m) StatType.CONSTITUTION Hw)
    as (con & Hc & _); [right; right; left; reflexivity|].
  rewrite (Monster_attackPower_get m _ Hs), (Monster_defense_get m _ Hc).
  eexists _, _. split; reflexivity.
Qed.

Lemma Player_getters_congr p p' :
  Player.stats p' = Player.stats p ->
  Player.equippedWeapon p' = Player.equippedWeapon p ->
  Player.attackPower p' = Player.attackPower p /\
  Player.hitChance K p' = Player.hitChance K p.
Proof.
  intros Hs Hw. unfold Player.attackPower, Player.hitChance.
  now rewrite Hs, Hw.
Qed.

Lemma monsterTurn_returns (action : Main.ActionType) m p g :
  Stats.wf (Monster.stats m) -> Stats.wf (Player.stats p) ->
  exists o p1 g1, Main.monsterTurn K action m p g = Ok (o, p1, g1).
Proof.
  intros Hm Hp. destruct action; [|eexists _, _, _; reflexivity].
  destruct (Monster_getters_ok m Hm) as (ap & _ & Hap & _).
  destruct (Player_getters_ok p Hp) as (d & _ & e & _ & Hd & _ & He & _).
  rewrite (monsterTurn_eq K m p g e ap d Hap Hd He).
  destruct (Js.Qlt_bool _ _); eexists _, _, _; reflexivity.
Qed.

Lemma combat_terminates_aux (chooseAction : nat -> Main.ActionType)
    (h : Q) (ap : Z) (fuel : nat) :
  forall (turn : nat) p m g,
    uniform g ->
    Bar.inv (Player.hpBar p) -> Bar.inv (Monster.hpBar m) ->
    Stats.wf (Player.stats p) -> Stats.wf (Monster.stats m) ->
    Player.attackPower p = Ok ap ->
    Player.hitChance K p = Ok h -> (100 <= h)%Q ->
    Bar.value (Monster.hpBar m) <= Z.of_nat fuel ->
    exists c, Main.combatPhase K fuel chooseAction turn p m g = Ok c /\
              forall p' m' g', c <> Main.StillFighting p' m' g'.
Proof.
  induction fuel as [|fuel IH];
    intros turn p m g Hg Hp Hm Hwp Hwm Hap Hh Hle Hfuel.
  - cbn [Main.combatPhase].
    assert (Hempty : Bar.isEmpty (Monster.hpBar m) = true)
      by (apply Z.leb_le; unfold Bar.value in Hfuel; lia).
    rewrite Hempty, andb_false_r. eexists. split; [reflexivity | discriminate].
  - rewrite combatPhase_step.
    destruct (Bar.isEmpty (Player.hpBar p)) eqn:Ep;
      [eexists; split; [reflexivity | discriminate]|].
    destruct (Bar.isEmpty (Monster.hpBar m)) eqn:Em;
      [eexists; split; [reflexivity | discriminate]|].
    cbn [negb andb].
    destruct (Player_getters_ok p Hwp) as (_ & h' & _ & c & _ & Hh' & _ & Hc).
    rewrite Hh in Hh'. injection Hh' as <-.
    destruct (Monster_getters_ok m Hwm) as (_ & d & _ & Hd).
    rewrite (playerTurn_eq K p m g h c d ap Hh Hc Hap Hd).
    rewrite (Qlt_bool_always _ h (proj2 (Hg _)) Hle). exec.
    set (dmg := Main.mitigated K _ ap d).
    pose proof (mitigated_min K (Js.Qlt_bool (draws g (S (taken g))) (c / 100)) ap d)
      as Hdmg. fold dmg in Hdmg.
    pose proof (Monster_hurt p m dmg Hp Hm ltac:(lia)) as Hw1.
    destruct (worn_down_inv p m _ _ Hp Hm Hw1)
      as (_ & Hm1 & _ & _ & _ & Hs1 & _).
    set (m1 := snd (Monster.takeDamage m dmg)) in *.
    assert (Hv1 : Bar.value (Monster.hpBar m1) <= Z.of_nat fuel).
    { subst m1. rewrite Monster_takeDamage_spec. cbn [snd Monster.hpBar].
      apply Z.leb_gt in Em. destruct Hm as (Hpos & _).
      unfold Bar.adjust, Bar.set_value, Bar.value in *.
      cbn [Bar._position Bar._max]. lia. }
    destruct (Bar.isEmpty (Monster.hpBar m1)) eqn:Em1;
      [eexists; split; [reflexivity | discriminate]|].
    set (g1 := {| draws := draws g; taken := S (S (taken g)) |}).
    assert (Hwm1 : Stats.wf (Monster.stats m1)) by (rewrite Hs1; exact Hwm).
    destruct (monsterTurn_returns (chooseAction (S turn)) m1 p g1 Hwm1 Hwp)
      as (o & p1 & g2 & Hmt).
    rewrite Hmt. exec.
    destruct (monsterTurn_worn K _ p m1 g1 o p1 g2 Hp Hm1 Hmt) as (Hw2 & Hg2).
    destruct (worn_down_inv p m1 p1 m1 Hp Hm1 Hw2)
      as (Hp1 & _ & _ & _ & Hsp & _ & Hwp1 & _).
    destruct (Bar.isEmpty (Player.hpBar p1)) eqn:Ep1;
      [eexists; split; [reflexivity | discriminate]|].
    destruct (Player_getters_congr p p1 Hsp Hwp1) as (Hap1 & Hh1).
    apply IH; try assumption.
    + apply (uniform_same g g2); [exact Hg2 | exact Hg].
    + rewrite Hsp. exact Hwp.
    + rewrite Hap1. exact Hap.
    + rewrite Hh1. exact Hh.
Qed.

End CombatTermination.

(** X27.  Between fighters as the constructors build them (HP bars
    within their bounds, all six abilities stored), with draws in [0,1),
    a fight in which the player cannot miss and has an attack
    power that is a number does not go on for ever: with a hit chance of
    100 or more every turn takes at least 1 HP off the monster, so the
    combat phase is over, with the HP bar of one side empty, within as
    many turns as the monster has HP, whatever the monster chooses to
    do.  (A weapon whose
    damage text does not parse gives an attack power that is not a
    number; such a fight is not covered.) *)
Theorem combat_terminates (K : GameConstants)
    (chooseAction : nat -> Main.ActionType) (fuel turn : nat)
    (p : Player.t) (m : Monster.t) (g : Utils.Rng) (h : Q) (ap : Z) :
  Utils.uniform g ->
  Bar.inv (Player.hpBar p) -> Bar.inv (Monster.hpBar m) ->
  Stats.wf (Player.stats p) -> Stats.wf (Monster.stats m) ->
  Player.attackPower p = Ok ap ->
  Player.hitChance K p = Ok h -> (100 <= h)%Q ->
  Bar.value (Monster.hpBar m) <= Z.of_nat fuel ->
  exists c, Main.combatPhase K fuel chooseAction turn p m g = Ok c /\
            (forall p' m' g', c <> Main.StillFighting p' m' g') /\
            match c with
            | Main.LoopEnded p' m' _ | Main.GameOver p' m' _
            | Main.StillFighting p' m' _ =>
                Bar.isEmpty (Player.hpBar p') = true \/
                Bar.isEmpty (Monster.hpBar m') = true
            end.
Proof.
  intros Hg Hp Hm Hwp Hwm Hap Hh Hle Hfuel.
  destruct (combat_terminates_aux K chooseAction h ap fuel turn p m g
              Hg Hp Hm Hwp Hwm Hap Hh Hle Hfuel) as (c & Hc & Hnot).
  exists c. split; [exact Hc|]. split; [exact Hnot|].
  pose proof (combat_outcome_aux K chooseAction fuel turn p m g c Hp Hm Hc)
    as Hout.
  destruct c as [p' m' g'|p' m' g'|p' m' g'].
  - apply Hout.
  - left. apply Hout.
  - now contradiction (Hnot p' m' g').
Qed.

Lemma combat_terminates_witness :
  let p := Examples.player {[ "STR"%string := 14 ]} (Some Player.WornDagger) in
  let m := Examples.monster 10 ∅ in
  exists c, Main.combatPhase Examples.constants 10 (fun _ => Main.defend) 0
              p m (Examples.always (3 # 4)) = Ok c /\
            (forall p' m' g', c <> Main.StillFighting p' m' g') /\
            match c with
            | Main.LoopEnded p' m' _ | Main.GameOver p' m' _
            | Main.StillFighting p' m' _ =>
                Bar.isEmpty (Player.hpBar p') = true \/
                Bar.isEmpty (Monster.hpBar m') = true
            end.
Proof.
  intros p m.
  apply (combat_terminates Examples.constants (fun _ => Main.defend) 10 0 p m
           (Examples.always (3 # 4)) 100%Q 10).
  - intros i; split; [discriminate | reflexivity].
  - unfold Bar.inv; simpl; lia.
  - unfold Bar.inv; simpl; lia.
  - apply Stats_new_wf.
  - apply Stats_new_wf.
  - reflexivity.
  - reflexivity.
  - discriminate.
  - simpl. lia.
Defined.

Lemma Player_levelUp_frame (D : PlayerDefaults) (p : Player.t) :
  let p1 := snd (Player.levelUp D p) in
  Player.gold p1 = Player.gold p /\ Player.level p1 = Player.level p /\
  Player.stats p1 = Player.stats p /\
  Player.equippedWeapon p1 = Player.equippedWeapon p.
Proof.
  unfold Player.levelUp.
  destruct (Player.maxHp D p) as [mh| |]; [|now cbn..].
  destruct (Bar.set_max mh (Player.hpBar p)) as [[[]| |] b]; [|now cbn..].
  cbv zeta.
  destruct (Player.maxMp _) as [mm| |]; [|now cbn..].
  destruct (Bar.set_max mm _) as [[[]| |] b']; now cbn.
Qed.

Lemma Player_gainExp_frame (D : PlayerDefaults) (p : Player.t) (amount : Z) :
  let p1 := snd (Player.gainExp D amount p) in
  Player.gold p1 = Player.gold p /\
  Player.level p1 = snd (Level.gainExp (Player.level p) amount) /\
  Player.stats p1 = Player.stats p /\
  Player.equippedWeapon p1 = Player.equippedWeapon p.
Proof.
  unfold Player.gainExp.
  destruct (Level.gainExp (Player.level p) amount) as [[] l]; [|now cbn].
  cbv zeta.
  destruct (Player_levelUp_frame D (Player.with_level p l)) as (H1 & H2 & H3 & H4).
  cbn [snd]. now rewrite H1, H2, H3, H4.
Qed.

Lemma Bar_refill (b : Bar.t) :
  let b' := Bar.set_value b (Bar.max b) in
  Bar.isFull b' = true /\ Bar.max b' = Bar.max b /\ Bar.value b' = Bar.max b.
Proof.
  unfold Bar.set_value, Bar.isFull, Bar.max, Bar.value.
  cbn [Bar._max Bar._position].
  split; [apply Z.geb_le; lia | split; [reflexivity | lia]].
Qed.

(** X28.  The rewards of a won fight.  When recording the monster's
    experience does not throw, the player ends with between 5 and 15
    more gold, with both bars at their maximum whatever was left of
    them, and with the level track [Level.gainExp] prescribes; the
    abilities are unchanged and exactly one random number is drawn. *)
Theorem rewards_spec (D : PlayerDefaults)
    (p p1 : Player.t) (m : Monster.t) (g : Utils.Rng) :
  Utils.uniform g ->
  Player.gainExp D (Monster.baseExp m) p = (Ok tt, p1) ->
  exists p' g',
    Main.rewards D p m g = Ok (p', g') /\
    5 <= Player.gold p' - Player.gold p <= 15 /\
    Bar.isFull (Player.hpBar p') = true /\
    Bar.isFull (Player.mpBar p') = true /\
    Bar.max (Player.hpBar p') = Bar.max (Player.hpBar p1) /\
    Bar.max (Player.mpBar p') = Bar.max (Player.mpBar p1) /\
    Player.level p' = snd (Level.gainExp (Player.level p) (Monster.baseExp m)) /\
    Player.stats p' = Player.stats p /\
    Utils.taken g' = S (Utils.taken g).
Proof.
  intros Hg Hexp.
  pose proof (Player_gainExp_frame D p (Monster.baseExp m)) as Hf.
  rewrite Hexp in Hf. cbn [snd] in Hf. destruct Hf as (Hgold & Hlevel & Hstats & _).
  pose proof (getRandomIntInclusive_range 5 15 g Hg ltac:(vm_compute; discriminate))
    as Hr.
  unfold Main.rewards. rewrite Hexp.
  destruct (Utils.getRandomIntInclusive 5 15 g) as [found g'].
  cbn [fst snd] in Hr. destruct Hr as (Hfound & _ & _ & _ & Htaken).
  change (Qceiling 5) with 5 in Hfound. change (Qfloor 15) with 15 in Hfound.
  eexists _, _. split; [reflexivity|].
  cbn [Player.with_mpBar Player.with_hpBar Player.with_gold Player.gold
       Player.hpBar Player.mpBar Player.level Player.stats].
  destruct (Bar_refill (Player.hpBar p1)) as (Hh1 & Hh2 & _).
  destruct (Bar_refill (Player.mpBar p1)) as (Hm1 & Hm2 & _).
  repeat split; try assumption; lia.
Qed.

Lemma rewards_spec_witness :
  let p := Player.with_hpBar (Examples.player ∅ (Some Player.WornDagger))
             (Bar.mk 25 3) in
  let m := Examples.monster 10 ∅ in
  exists p' g',
    Main.rewards Examples.defaults p m (Examples.always (3 # 4)) = Ok (p', g') /\
    5 <= Player.gold p' - Player.gold p <= 15 /\
    Bar.isFull (Player.hpBar p') = true.
Proof.
  intros p m.
  destruct (rewards_spec Examples.defaults p
              (snd (Player.gainExp Examples.defaults (Monster.baseExp m) p))
              m (Examples.always (3 # 4)))
    as (p' & g' & H & Hgold & Hfull & _).
  - intros i; split; [discriminate | reflexivity].
  - reflexivity.
  - exists p', g'. repeat split; [exact H | apply Hgold | apply Hgold | exact Hfull].
Defined.

Section CodeFence.

Implicit Types (s p x body : string).

Lemma prefix_length p s :
  String.prefix p s = true -> (String.length p <= String.length s)%nat.
Proof.
  revert s. induction p as [|c p IH]; intros [|d s]; cbn; try lia;
    try discriminate.
  destruct (Ascii.ascii_dec c d); [|discriminate].
  intros H. apply IH in H. lia.
Qed.

Lemma prefix_refl p : String.prefix p p = true.
Proof.
  induction p as [|c p IH]; [reflexivity|]. cbn.
  now destruct (Ascii.ascii_dec c c).
Qed.

Lemma prefix_app p x : String.prefix p (p +:+ x) = true.
Proof.
  induction p as [|c p IH]; [cbn; now destruct x|].
  change (String c p +:+ x) with (String c (p +:+ x)).
  cbn [String.prefix]. destruct (Ascii.ascii_dec c c); [exact IH | congruence].
Qed.

Lemma prefix_longer p x s :
  String.prefix p s = false -> String.prefix (p +:+ x) s = false.
Proof.
  revert s. induction p as [|c p IH]; intros [|d s]; try discriminate;
    try reflexivity.
  change (String c p +:+ x) with (String c (p +:+ x)). cbn [String.prefix].
  destruct (Ascii.ascii_dec c d); [apply IH | reflexivity].
Qed.

Lemma lastIndexOf_opt_bound s p (i : nat) :
  Js.lastIndexOf_opt s p = Some i ->
  (i + String.length p <= String.length s)%nat.
Proof.
  revert i. induction s as [|c s IH]; intros i.
  - cbn [Js.lastIndexOf_opt].
    destruct (String.prefix p "") eqn:E; [|discriminate].
    intros [= <-]. apply prefix_length in E. lia.
  - cbn [Js.lastIndexOf_opt].
    destruct (Js.lastIndexOf_opt s p) as [j|].
    + intros [= <-]. specialize (IH j eq_refl). cbn [String.length]. lia.
    + destruct (String.prefix p (String c s)) eqn:E; [|discriminate].
      intros [= <-]. apply prefix_length in E. lia.
Qed.

Lemma lastIndexOf_opt_suffix x p :
  p <> ""%string ->
  Js.lastIndexOf_opt (x +:+ p) p = Some (String.length x).
Proof.
  intros Hp. induction x as [|c x IH].
  - change ("" +:+ p) with p. cbn [String.length].
    destruct p as [|c p]; [congruence|]. cbn [Js.lastIndexOf_opt].
    destruct (Js.lastIndexOf_opt p (String c p)) as [j|] eqn:E.
    + apply lastIndexOf_opt_bound in E. cbn [String.length] in E. lia.
    + now rewrite prefix_refl.
  - change (String c x +:+ p) with (String c (x +:+ p)).
    cbn [Js.lastIndexOf_opt String.length]. now rewrite IH.
Qed.

Lemma substring_prefix body x :
  String.substring 0 (String.length body) (body +:+ x) = body.
Proof.
  induction body as [|c body IH]; [now destruct x|].
  change (String c body +:+ x) with (String c (body +:+ x)).
  cbn [String.length String.substring]. now rewrite IH.
Qed.

Lemma substring_middle p body x :
  String.substring (String.length p) (String.length body) (p +:+ body +:+ x)
  = body.
Proof.
  induction p as [|c p IH]; [exact (substring_prefix body x) | exact IH].
Qed.

Lemma length_app s x :
  String.length (s +:+ x) = (String.length s + String.length x)%nat.
Proof.
  induction s as [|c s IH]; [reflexivity|].
  change (String c s +:+ x) with (String c (s +:+ x)).
  cbn [String.length]. now rewrite IH.
Qed.

Lemma Js_substring_middle p body x :
  Js.substring (p +:+ body +:+ x) (Z.of_nat (String.length p))
    (Z.of_nat (String.length p + String.length body)) = body.
Proof.
  unfold Js.substring. cbv zeta. rewrite !length_app.
  set (a := String.length p). set (b := String.length body).
  set (c := String.length x).
  replace (Z.to_nat (Z.min _ _)) with a by lia.
  replace (Z.to_nat (_ - _)) with b by lia.
  apply substring_middle.
Qed.

Lemma fenced p body :
  let s := (p +:+ body +:+ "```")%string in
  Js.substring s (Z.of_nat (String.length p)) (Js.lastIndexOf s "```") = body.
Proof.
  intros s. unfold Js.lastIndexOf.
  assert (E : Js.lastIndexOf_opt s "```" =
              Some (String.length p + String.length body)%nat).
  { subst s. rewrite <- length_app.
    replace (p +:+ body +:+ "```")%string with ((p +:+ body) +:+ "```")%string.
    - now apply lastIndexOf_opt_suffix.
    - clear. induction p as [|c p IH]; [reflexivity|].
      change (String c p +:+ body) with (String c (p +:+ body)).
      change (String c (p +:+ body) +:+ "```")
        with (String c ((p +:+ body) +:+ "```")).
      now rewrite IH. }
  rewrite E. apply Js_substring_middle.
Qed.

Lemma unclosed body :
  Js.lastIndexOf body "```" = -1 ->
  let s := ("```json" +:+ body)%string in
  Js.substring s 7 (Js.lastIndexOf s "```") = "```json"%string.
Proof.
  intros H s. unfold Js.lastIndexOf in *.
  destruct (Js.lastIndexOf_opt body "```") as [j|] eqn:E; [lia|].
  assert (E' : Js.lastIndexOf_opt s "```" = Some O).
  { assert (step : forall c rest p,
              Js.lastIndexOf_opt (String c rest) p =
              match Js.lastIndexOf_opt rest p with
              | Some i => Some (S i)
              | None => if String.prefix p (String c rest) then Some O else None
              end) by reflexivity.
    subst s.
    change ("```json" +:+ body)%string
      with (String "`" (String "`" (String "`" (String "j" (String "s"
              (String "o" (String "n" body))))))).
    rewrite !step, E. reflexivity. }
  rewrite E'. unfold Js.substring. cbv zeta. subst s. rewrite length_app.
  set (b := String.length body).
  change (String.length "```json") with 7%nat.
  replace (Z.to_nat (Z.min _ _)) with 0%nat by lia.
  replace (Z.to_nat (_ - _)) with (String.length "```json") by (cbn; lia).
  apply substring_prefix.
Qed.

End CodeFence.

(** X29.  The unwrapping of a generated reply before [JSON.parse].  A
    trimmed reply that opens with the json fence or the plain fence and
    ends with the closing fence yields its trimmed inside, whatever the
    inside contains.  A json fence that is never closed yields the
    opening marker itself and not the text after it, because
    [lastIndexOf] then finds the opening fence and [substring] swaps its
    arguments.  A reply without a fence is only trimmed. *)
Theorem stripCodeFence_spec (reply body : string) :
  (Js.trim reply = ("```json" +:+ body +:+ "```")%string ->
   Main.stripCodeFence reply = Js.trim body) /\
  (Js.trim reply = ("```" +:+ body +:+ "```")%string ->
   Js.startsWith (Js.trim reply) "```json" = false ->
   Main.stripCodeFence reply = Js.trim body) /\
  (Js.trim reply = ("```json" +:+ body)%string ->
   Js.lastIndexOf body "```" = -1 ->
   Main.stripCodeFence reply = "```json"%string) /\
  (Js.startsWith (Js.trim reply) "```" = false ->
   Main.stripCodeFence reply = Js.trim reply).
Proof.
  unfold Main.stripCodeFence. cbv zeta. repeat split.
  - intros ->. unfold Js.startsWith at 1. rewrite prefix_app.
    pose proof (fenced "```json" body) as F. cbv zeta in F.
    change (Z.of_nat (String.length "```json")) with 7 in F. now rewrite F.
  - intros E H. rewrite H, E. unfold Js.startsWith at 1. rewrite prefix_app.
    pose proof (fenced "```" body) as F. cbv zeta in F.
    change (Z.of_nat (String.length "```")) with 3 in F. now rewrite F.
  - intros -> H. unfold Js.startsWith at 1. rewrite prefix_app.
    now rewrite (unclosed body H).
  - intros H.
    assert (H' : Js.startsWith (Js.trim reply) "```json" = false).
    { unfold Js.startsWith in *.
      exact (prefix_longer "```" "json" (Js.trim reply) H). }
    now rewrite H', H.
Qed.

Lemma stripCodeFence_spec_witness :
  Main.stripCodeFence " ```json {} ``` " = "{}"%string /\
  Main.stripCodeFence "```json {}" = "```json"%string.
Proof.
  split.
  - etransitivity;
      [apply (proj1 (stripCodeFence_spec " ```json {} ``` " " {} "));
       reflexivity | reflexivity].
  - apply (proj1 (proj2 (proj2 (stripCodeFence_spec "```json {}" " {}"))));
      reflexivity.
Defined.
